(** * monitor: a thin instrumentation layer over a pull-based metrics registry

    Shallow embedding of the Go package [monitor] (client.go, the label
    context file and the package-level facade) together with the
    properties stated for it in the specification.

    Go strings are byte sequences and are embedded as [string]; Go maps are
    [gmap]s; objects that are shared by reference (label maps attached to a
    context, metric families held both by the client caches and by the
    registry) live in explicit stores and are addressed by location. *)

From Stdlib Require Import ZArith String Ascii List Lia.
From Stdlib Require Import Floats.SpecFloat.
From stdpp Require Import gmap strings list fin_maps.

Local Open Scope string_scope.
Local Open Scope list_scope.
Local Open Scope Z_scope.

(** ** Bytes, runes and strings *)

Module Runes.

(** A Go [rune] is an int32 code point; bytes and runes are kept in [Z]. *)
Definition byte_val (a : ascii) : Z := Z.of_N (N_of_ascii a).

Definition bytes_of (s : string) : list Z :=
  map byte_val (list_ascii_of_string s).

Definition RuneError : Z := 0xFFFD.

Definition is_cont (b : Z) : bool := (0x80 <=? b) && (b <=? 0xBF).

(** [utf8.DecodeRuneInString]: the first code point of a byte sequence and
    its width in bytes.  Ill-formed input (a stray continuation byte, a
    truncated sequence, an over-long form, a surrogate, a value above
    U+10FFFF) yields [(RuneError, 1)], the empty input [(RuneError, 0)].
    The accept ranges of the Go table are written here as range tests on
    the decoded value. *)
Definition DecodeRune (bs : list Z) : Z * nat :=
  match bs with
  | [] => (RuneError, 0%nat)
  | b0 :: rest =>
    if b0 <? 0x80 then (b0, 1%nat)
    else if (0xC0 <=? b0) && (b0 <=? 0xDF) then
      match rest with
      | b1 :: _ =>
        let r := Z.lor (Z.shiftl (Z.land b0 0x1F) 6) (Z.land b1 0x3F) in
        if is_cont b1 && (0x80 <=? r) then (r, 2%nat) else (RuneError, 1%nat)
      | _ => (RuneError, 1%nat)
      end
    else if (0xE0 <=? b0) && (b0 <=? 0xEF) then
      match rest with
      | b1 :: b2 :: _ =>
        let r := Z.lor (Z.lor (Z.shiftl (Z.land b0 0x0F) 12)
                              (Z.shiftl (Z.land b1 0x3F) 6))
                       (Z.land b2 0x3F) in
        if is_cont b1 && is_cont b2 && (0x800 <=? r)
           && negb ((0xD800 <=? r) && (r <=? 0xDFFF))
        then (r, 3%nat) else (RuneError, 1%nat)
      | _ => (RuneError, 1%nat)
      end
    else if (0xF0 <=? b0) && (b0 <=? 0xF7) then
      match rest with
      | b1 :: b2 :: b3 :: _ =>
        let r := Z.lor (Z.lor (Z.lor (Z.shiftl (Z.land b0 0x07) 18)
                                     (Z.shiftl (Z.land b1 0x3F) 12))
                              (Z.shiftl (Z.land b2 0x3F) 6))
                       (Z.land b3 0x3F) in
        if is_cont b1 && is_cont b2 && is_cont b3
           && (0x10000 <=? r) && (r <=? 0x10FFFF)
        then (r, 4%nat) else (RuneError, 1%nat)
      | _ => (RuneError, 1%nat)
      end
    else (RuneError, 1%nat)
  end.

(** [for i, b := range s]: the (byte index, rune) pairs of a string.  Each
    iteration consumes at least one byte, so [length bs] iterations are
    enough. *)
Fixpoint range_from (fuel : nat) (i : nat) (bs : list Z) : list (nat * Z) :=
  match fuel with
  | O => []
  | S fuel' =>
    match bs with
    | [] => []
    | _ :: _ =>
      let '(r, w) := DecodeRune bs in
      (i, r) :: range_from fuel' (i + w) (drop w bs)
    end
  end.

Definition range_string (s : string) : list (nat * Z) :=
  let bs := bytes_of s in range_from (length bs) 0 bs.

Definition hexDigit (d : Z) : ascii :=
  nth (Z.to_nat d) (list_ascii_of_string "0123456789abcdef") "0"%char.

Fixpoint hex_from (fuel : nat) (n : Z) (acc : string) : string :=
  match fuel with
  | O => acc
  | S fuel' =>
    let acc' := String (hexDigit (n mod 16)) acc in
    if n <? 16 then acc' else hex_from fuel' (n / 16) acc'
  end.

(** [strconv.FormatInt(int64(r), 16)] for a code point (at most six
    digits). *)
Definition FormatHex (r : Z) : string := hex_from 8 r "".

(** [strings.Builder.WriteRune] for the runes the escaper copies through
    unchanged, all of which are ASCII. *)
Definition rune_string (r : Z) : string :=
  String (ascii_of_N (Z.to_N r)) "".

End Runes.

(** ** NameNormalizer *)

Module Name.
Import Runes.

(** [isValidLegacyRune(b, i)]. *)
Definition isValidLegacyRune (b : Z) (i : nat) : bool :=
  ((0x61 <=? b) && (b <=? 0x7A))         (* 'a'..'z' *)
  || ((0x41 <=? b) && (b <=? 0x5A))      (* 'A'..'Z' *)
  || (b =? 0x5F)                         (* '_' *)
  || (b =? 0x3A)                         (* ':' *)
  || ((0x30 <=? b) && (b <=? 0x39) && (0 <? i)%nat). (* '0'..'9', not first *)

(** [IsValidLegacyMetricName(n)]. *)
Definition IsValidLegacyMetricName (n : string) : bool :=
  if (String.length n =? 0)%nat then false
  else forallb (fun '(i, b) => isValidLegacyRune b i) (range_string n).

(** One step of the escaping loop: what is appended for rune [b] at byte
    index [i]. *)
Definition escape_rune (i : nat) (b : Z) : string :=
  if isValidLegacyRune b i then rune_string b
  else "_" +:+ FormatHex b +:+ "_".

(** Modelled from the spec: [model.EscapeName(s, model.NameEscapingScheme)]
    belongs to the Prometheus common library and is not among the
    sources; [EscapeName] of client.go only forwards to it.  The model
    follows section 4.1 and the table of TestEscapeName: the empty string
    and every name matching the legacy pattern are returned unchanged;
    any other name becomes ["U__"] followed, for every code point, by the
    code point itself when it is a legal character at its position and
    by its lower-case hexadecimal value between two underscores
    otherwise. *)
Definition EscapeName (s : string) : string :=
  if (String.length s =? 0)%nat then s
  else if IsValidLegacyMetricName s then s
  else "U__" +:+ String.concat "" (map (fun '(i, b) => escape_rune i b) (range_string s)).

(** The pattern [^[A-Za-z_:][A-Za-z0-9_:]*$] of the specification, read
    character by character. *)
Definition safe_start (a : ascii) : bool :=
  let b := byte_val a in
  ((0x61 <=? b) && (b <=? 0x7A)) || ((0x41 <=? b) && (b <=? 0x5A))
  || (b =? 0x5F) || (b =? 0x3A).

Definition safe_rest (a : ascii) : bool :=
  safe_start a || ((0x30 <=? byte_val a) && (byte_val a <=? 0x39)).

Definition matches_safe_pattern (s : string) : bool :=
  match s with
  | EmptyString => false
  | String a r => safe_start a && forallb safe_rest (list_ascii_of_string r)
  end.

End Name.

(** ** Numbers and time *)

(** Go's [float64], with IEEE-754 comparison ([==] is false on NaN and
    true between the two zeros) and correctly rounded arithmetic. *)
Definition float64 : Type := spec_float.

Definition f64_eqb (x y : float64) : bool := SFeqb x y.
Definition f64_add (x y : float64) : float64 := SFadd 53 1024 x y.
Definition f64_div (x y : float64) : float64 := SFdiv 53 1024 x y.
Definition f64_of_Z (z : Z) : float64 := binary_normalize 53 1024 z 0 false.
Definition f64_zero : float64 := S754_zero false.

(** [slices.Equal] on [[]float64]. *)
Fixpoint slices_Equal (s1 s2 : list float64) : bool :=
  match s1, s2 with
  | [], [] => true
  | x :: r1, y :: r2 => f64_eqb x y && slices_Equal r1 r2
  | _, _ => false
  end.

(** [time.Duration]: an int64 count of nanoseconds. *)
Definition Duration : Type := Z.
Definition minDuration : Z := - 2 ^ 63.
Definition maxDuration : Z := 2 ^ 63 - 1.
Definition Second : Z := 1000000000.

(** [Duration.Seconds]: [float64(d / Second) + float64(d % Second) / 1e9],
    with Go's truncated division. *)
Definition Seconds (d : Duration) : float64 :=
  let sec := Z.quot d Second in
  let nsec := Z.rem d Second in
  f64_add (f64_of_Z sec) (f64_div (f64_of_Z nsec) (f64_of_Z 1000000000)).

(** [time.Since(start)] on monotonic clock readings: the difference,
    saturated to the range of [Duration]. *)
Definition time_Sub (t u : Z) : Duration :=
  Z.max minDuration (Z.min maxDuration (t - u)).

(** ** Stores, collectors and the registry *)

Abbreviation loc := nat.

Abbreviation Labels := (gmap string string).

(** [prometheus.Opts] (the fields the client fills in). *)
Record Opts := mkOpts {
  Name : string;
  Help : string;
  ConstLabels : Labels
}.

Record HistogramOpts := mkHistogramOpts {
  hName : string;
  hHelp : string;
  hConstLabels : Labels;
  Buckets : list float64
}.

(** [map[float64]float64]: quantile objectives, as an association list
    without repeated keys. *)
Definition Objectives : Type := list (float64 * float64).

Record SummaryOpts := mkSummaryOpts {
  sName : string;
  sHelp : string;
  sConstLabels : Labels;
  sObjectives : Objectives
}.

Definition objectives_get (m : Objectives) (k : float64) : option float64 :=
  snd <$> List.find (fun p => f64_eqb (fst p) k) m.

(** [maps.Equal] on objective maps. *)
Definition maps_Equal (m1 m2 : Objectives) : bool :=
  (length m1 =? length m2)%nat
  && forallb (fun p => match objectives_get m2 (fst p) with
                       | Some v2 => f64_eqb (snd p) v2
                       | None => false
                       end) m1.

(** A metric family ([*prometheus.CounterVec] and its siblings): the
    options and label names it was built with, and one child per label
    set observed so far. *)
Record Vec (O A : Type) := mkVec {
  vopts : O;
  vlabels : list string;
  vchildren : gmap Labels A
}.
Arguments mkVec {O A}.
Arguments vopts {O A}.
Arguments vlabels {O A}.
Arguments vchildren {O A}.

Definition CounterVec : Type := Vec Opts float64.
Definition GaugeVec : Type := Vec Opts float64.
Definition HistogramVec : Type := Vec HistogramOpts (list float64).
Definition SummaryVec : Type := Vec SummaryOpts (list float64).

(** The descriptor a collector presents to the registry. *)
Record Desc := mkDesc {
  fqName : string;
  help : string;
  constLabelPairs : Labels;
  variableLabels : list string
}.

Inductive Collector :=
| OfCounterVec (l : loc)
| OfGaugeVec (l : loc)
| OfHistogramVec (l : loc)
| OfSummaryVec (l : loc)
| OfCounter (l : loc) (child : Labels)   (* one child of a counter family *)
| Foreign (d : Desc).                    (* registered by an independent caller *)

Inductive RegisterError :=
| AlreadyRegisteredError
| InconsistentDescError.

Definition Registry : Type := list (Desc * Collector).

(** The calls a client makes on its collaborators, in order.  [LogEv] is a
    call of the configured logger, [RegEv] a call of [Registry.Register];
    [ErrEv] marks an entry into [recordErr] and has no counterpart in the
    Go code. *)
Inductive Event :=
| LogEv (msg name : string)
| ErrEv (name kind : string)
| RegEv (c : Collector) (result : option RegisterError).

Record World := mkWorld {
  maps : list Labels;                 (* label maps, by reference *)
  counterVecs : list CounterVec;
  gaugeVecs : list GaugeVec;
  histogramVecs : list HistogramVec;
  summaryVecs : list SummaryVec;
  registry : Registry;                (* c.registry *)
  counter : gmap string loc;          (* c.counter *)
  gauge : gmap string loc;            (* c.gauge *)
  histogram : gmap string (loc * HistogramOpts);   (* c.histogram *)
  summary : gmap string (loc * SummaryOpts);       (* c.summary *)
  trace : list Event
}.

Definition emptyWorld : World :=
  mkWorld [] [] [] [] [] [] ∅ ∅ ∅ ∅ [].

Definition set_maps (f : list Labels -> list Labels) (w : World) : World :=
  mkWorld (f (maps w)) (counterVecs w) (gaugeVecs w) (histogramVecs w)
          (summaryVecs w) (registry w) (counter w) (gauge w) (histogram w)
          (summary w) (trace w).
Definition set_counterVecs (f : list CounterVec -> list CounterVec) (w : World) : World :=
  mkWorld (maps w) (f (counterVecs w)) (gaugeVecs w) (histogramVecs w)
          (summaryVecs w) (registry w) (counter w) (gauge w) (histogram w)
          (summary w) (trace w).
Definition set_gaugeVecs (f : list GaugeVec -> list GaugeVec) (w : World) : World :=
  mkWorld (maps w) (counterVecs w) (f (gaugeVecs w)) (histogramVecs w)
          (summaryVecs w) (registry w) (counter w) (gauge w) (histogram w)
          (summary w) (trace w).
Definition set_histogramVecs (f : list HistogramVec -> list HistogramVec) (w : World) : World :=
  mkWorld (maps w) (counterVecs w) (gaugeVecs w) (f (histogramVecs w))
          (summaryVecs w) (registry w) (counter w) (gauge w) (histogram w)
          (summary w) (trace w).
Definition set_summaryVecs (f : list SummaryVec -> list SummaryVec) (w : World) : World :=
  mkWorld (maps w) (counterVecs w) (gaugeVecs w) (histogramVecs w)
          (f (summaryVecs w)) (registry w) (counter w) (gauge w) (histogram w)
          (summary w) (trace w).
Definition set_registry (f : Registry -> Registry) (w : World) : World :=
  mkWorld (maps w) (counterVecs w) (gaugeVecs w) (histogramVecs w)
          (summaryVecs w) (f (registry w)) (counter w) (gauge w) (histogram w)
          (summary w) (trace w).
Definition set_counter (f : gmap string loc -> gmap string loc) (w : World) : World :=
  mkWorld (maps w) (counterVecs w) (gaugeVecs w) (histogramVecs w)
          (summaryVecs w) (registry w) (f (counter w)) (gauge w) (histogram w)
          (summary w) (trace w).
Definition set_gauge (f : gmap string loc -> gmap string loc) (w : World) : World :=
  mkWorld (maps w) (counterVecs w) (gaugeVecs w) (histogramVecs w)
          (summaryVecs w) (registry w) (counter w) (f (gauge w)) (histogram w)
          (summary w) (trace w).
Definition set_histogram
    (f : gmap string (loc * HistogramOpts) -> gmap string (loc * HistogramOpts))
    (w : World) : World :=
  mkWorld (maps w) (counterVecs w) (gaugeVecs w) (histogramVecs w)
          (summaryVecs w) (registry w) (counter w) (gauge w) (f (histogram w))
          (summary w) (trace w).
Definition set_summary
    (f : gmap string (loc * SummaryOpts) -> gmap string (loc * SummaryOpts))
    (w : World) : World :=
  mkWorld (maps w) (counterVecs w) (gaugeVecs w) (histogramVecs w)
          (summaryVecs w) (registry w) (counter w) (gauge w) (histogram w)
          (f (summary w)) (trace w).
Definition set_trace (f : list Event -> list Event) (w : World) : World :=
  mkWorld (maps w) (counterVecs w) (gaugeVecs w) (histogramVecs w)
          (summaryVecs w) (registry w) (counter w) (gauge w) (histogram w)
          (summary w) (f (trace w)).

(** ** State passing *)

Definition M (A : Type) : Type := World -> A * World.

Definition ret {A} (a : A) : M A := fun w => (a, w).

Definition bind {A B} (m : M A) (k : A -> M B) : M B :=
  fun w => let '(a, w') := m w in k a w'.

Notation "'let*' x ':=' m 'in' k" := (bind m (fun x => k))
  (at level 10, x name, m at level 100, k at level 200).

Definition emit (e : Event) : M unit :=
  fun w => (tt, set_trace (fun t => t ++ [e]) w).

(** ** LabelContext *)

(** [context.Context], as far as this package can tell contexts apart: the
    value stored under [ctxKey{}] is a reference to a label map. *)
Inductive Context :=
| Background
| WithValue (parent : Context) (m : loc).

(** [ctx.Value(ctxKey{})]. *)
Definition ctx_Value (ctx : Context) : option loc :=
  match ctx with
  | Background => None
  | WithValue _ m => Some m
  end.

(** [map[string]string{...}]: a new map object. *)
Definition newMap (m : Labels) : M loc :=
  fun w => (length (maps w), set_maps (fun h => h ++ [m]) w).

Definition readMap (l : loc) : M Labels :=
  fun w => (default ∅ (maps w !! l), w).

(** [m[k] = v]. *)
Definition map_store (l : loc) (k v : string) : M unit :=
  fun w => (tt, set_maps (alter (insert k v) l) w).

Definition ctxGetLabels (ctx : Context) : M loc :=
  match ctx_Value ctx with
  | Some v => ret v
  | None => newMap ∅
  end.

(** [maps.Clone]. *)
Definition maps_Clone (l : loc) : M loc :=
  let* m := readMap l in newMap m.

Definition CtxGetLabels (ctx : Context) : M loc :=
  let* m := ctxGetLabels ctx in
  maps_Clone m.

(** [for i := 0; i < size-1; i += 2 { f(kvs[i], kvs[i+1]) }]; the loop
    runs at most [size] times. *)
Fixpoint rangeKV_loop (fuel : nat) (kvs : list string) (i : Z)
    (f : string -> string -> M unit) : M unit :=
  match fuel with
  | O => ret tt
  | S fuel' =>
    if i <? Z.of_nat (length kvs) - 1 then
      match kvs !! Z.to_nat i, kvs !! Z.to_nat (i + 1) with
      | Some k, Some v =>
        let* _ := f k v in rangeKV_loop fuel' kvs (i + 2) f
      | _, _ => ret tt   (* index out of range: excluded by the loop test *)
      end
    else ret tt
  end.

Definition rangeKV (kvs : list string) (f : string -> string -> M unit) : M unit :=
  rangeKV_loop (length kvs) kvs 0 f.

Definition CtxAddLabels (ctx : Context) (kvs : list string) : M Context :=
  let* m := CtxGetLabels ctx in
  let* _ := rangeKV kvs (fun k v => map_store m k v) in
  ret (WithValue ctx m).

(** The pairing rule in the words of the specification: consecutive
    elements form pairs, an unpaired trailing element is discarded. *)
Fixpoint kv_pairs (kvs : list string) : list (string * string) :=
  match kvs with
  | k :: v :: rest => (k, v) :: kv_pairs rest
  | _ => []
  end.

(** Pairs applied in order, later pairs overwriting earlier ones. *)
Definition apply_pairs (m : Labels) (ps : list (string * string)) : Labels :=
  fold_left (fun acc p => <[fst p := snd p]> acc) ps m.

(** The labels a context carries: the map its value refers to, or none. *)
Definition ctx_labels (ctx : Context) (w : World) : Labels :=
  match ctx_Value ctx with
  | Some l => default ∅ (maps w !! l)
  | None => ∅
  end.

(** Every map a context refers to is allocated. *)
Definition ctx_valid (ctx : Context) (w : World) : Prop :=
  match ctx_Value ctx with
  | Some l => (l < length (maps w))%nat
  | None => True
  end.

(** ** The collector library, as the client uses it *)

(** [prometheus.NewCounterVec(opt, labels)] and its siblings: a new family
    without children. *)
Definition NewCounterVec (opt : Opts) (labels : list string) : M loc :=
  fun w => (length (counterVecs w),
            set_counterVecs (fun h => h ++ [mkVec opt labels ∅]) w).

Definition NewGaugeVec (opt : Opts) (labels : list string) : M loc :=
  fun w => (length (gaugeVecs w),
            set_gaugeVecs (fun h => h ++ [mkVec opt labels ∅]) w).

Definition NewHistogramVec (opt : HistogramOpts) (labels : list string) : M loc :=
  fun w => (length (histogramVecs w),
            set_histogramVecs (fun h => h ++ [mkVec opt labels ∅]) w).

Definition NewSummaryVec (opt : SummaryOpts) (labels : list string) : M loc :=
  fun w => (length (summaryVecs w),
            set_summaryVecs (fun h => h ++ [mkVec opt labels ∅]) w).

(** The test [GetMetricWith] makes on its argument: as many labels as the
    family has label names, and a value for each of these names. *)
Definition labelsMatch (names : list string) (tags : Labels) : bool :=
  (size tags =? length names)%nat
  && forallb (fun n => bool_decide (is_Some (tags !! n))) names.

(** The child for a label set, created with [zero] on first use. *)
Definition withChild {O A} (zero : A) (tags : Labels) (v : Vec O A) : Vec O A :=
  match vchildren v !! tags with
  | Some _ => v
  | None => mkVec (vopts v) (vlabels v) (<[tags := zero]> (vchildren v))
  end.

Definition onChild {O A} (f : A -> A) (tags : Labels) (v : Vec O A) : Vec O A :=
  mkVec (vopts v) (vlabels v) (alter f tags (vchildren v)).

(** A child metric: its family and its label set. *)
Definition Metric : Type := loc * Labels.

(** [v.GetMetricWith(tags)]: [None] stands for a non-nil error. *)
Definition CounterVec_GetMetricWith (v : loc) (tags : loc) : M (option Metric) :=
  let* t := readMap tags in
  fun w =>
    match counterVecs w !! v with
    | Some vec =>
      if labelsMatch (vlabels vec) t
      then (Some (v, t), set_counterVecs (alter (withChild f64_zero t) v) w)
      else (None, w)
    | None => (None, w)
    end.

Definition GaugeVec_GetMetricWith (v : loc) (tags : loc) : M (option Metric) :=
  let* t := readMap tags in
  fun w =>
    match gaugeVecs w !! v with
    | Some vec =>
      if labelsMatch (vlabels vec) t
      then (Some (v, t), set_gaugeVecs (alter (withChild f64_zero t) v) w)
      else (None, w)
    | None => (None, w)
    end.

Definition HistogramVec_GetMetricWith (v : loc) (tags : loc) : M (option Metric) :=
  let* t := readMap tags in
  fun w =>
    match histogramVecs w !! v with
    | Some vec =>
      if labelsMatch (vlabels vec) t
      then (Some (v, t), set_histogramVecs (alter (withChild [] t) v) w)
      else (None, w)
    | None => (None, w)
    end.

Definition SummaryVec_GetMetricWith (v : loc) (tags : loc) : M (option Metric) :=
  let* t := readMap tags in
  fun w =>
    match summaryVecs w !! v with
    | Some vec =>
      if labelsMatch (vlabels vec) t
      then (Some (v, t), set_summaryVecs (alter (withChild [] t) v) w)
      else (None, w)
    | None => (None, w)
    end.

(** [m.Add(x)], [m.Inc()], [m.Set(x)], [m.Observe(x)]. *)
Definition Counter_Add (m : Metric) (x : float64) : M unit :=
  fun w => (tt, set_counterVecs
                  (alter (onChild (fun c => f64_add c x) (snd m)) (fst m)) w).

Definition Counter_Inc (m : Metric) : M unit := Counter_Add m (f64_of_Z 1).

Definition Gauge_Set (m : Metric) (x : float64) : M unit :=
  fun w => (tt, set_gaugeVecs (alter (onChild (fun _ => x) (snd m)) (fst m)) w).

Definition Histogram_Observe (m : Metric) (x : float64) : M unit :=
  fun w => (tt, set_histogramVecs
                  (alter (onChild (fun obs => obs ++ [x]) (snd m)) (fst m)) w).

Definition Summary_Observe (m : Metric) (x : float64) : M unit :=
  fun w => (tt, set_summaryVecs
                  (alter (onChild (fun obs => obs ++ [x]) (snd m)) (fst m)) w).

(** What [Describe] sends for a collector. *)
Definition describe (w : World) (c : Collector) : option Desc :=
  match c with
  | OfCounterVec l | OfCounter l _ =>
    (fun v => mkDesc (Name (vopts v)) (Help (vopts v)) (ConstLabels (vopts v)) (vlabels v))
      <$> counterVecs w !! l
  | OfGaugeVec l =>
    (fun v => mkDesc (Name (vopts v)) (Help (vopts v)) (ConstLabels (vopts v)) (vlabels v))
      <$> gaugeVecs w !! l
  | OfHistogramVec l =>
    (fun v => mkDesc (hName (vopts v)) (hHelp (vopts v)) (hConstLabels (vopts v)) (vlabels v))
      <$> histogramVecs w !! l
  | OfSummaryVec l =>
    (fun v => mkDesc (sName (vopts v)) (sHelp (vopts v)) (sConstLabels (vopts v)) (vlabels v))
      <$> summaryVecs w !! l
  | Foreign d => Some d
  end.

(** Two descriptors agree on the fully-qualified name and on the constant
    label values (the registry's descriptor ID). *)
Definition sameID (d1 d2 : Desc) : bool :=
  bool_decide (fqName d1 = fqName d2)
  && bool_decide (constLabelPairs d1 = constLabelPairs d2).

(** Two descriptors agree on the help string and on the label names (the
    registry's dimension hash). *)
Definition sameDim (d1 d2 : Desc) : bool :=
  bool_decide (help d1 = help d2)
  && bool_decide (dom (constLabelPairs d1) = dom (constLabelPairs d2))
  && bool_decide ((list_to_set (variableLabels d1) : gset string)
                  = list_to_set (variableLabels d2)).

(** The checks of [Registry.Register] for a collector with one descriptor:
    a registered descriptor of the same name with other label names or
    another help string is an inconsistency; a registered descriptor with
    the same ID is a duplicate, reported as [AlreadyRegisteredError].
    Validity checks of names are not modelled. *)
Definition registerCheck (reg : Registry) (d : Desc) : option RegisterError :=
  if existsb (fun e => bool_decide (fqName (fst e) = fqName d)
                       && negb (sameDim (fst e) d)) reg
  then Some InconsistentDescError
  else if existsb (fun e => sameID (fst e) d) reg
  then Some AlreadyRegisteredError
  else None.

(** [c.registry.Register(m)]. *)
Definition Registry_Register (m : Collector) : M (option RegisterError) :=
  fun w =>
    match describe w m with
    | Some d =>
      let err := registerCheck (registry w) d in
      let w' := match err with
                | None => set_registry (fun r => r ++ [(d, m)]) w
                | Some _ => w
                end in
      (err, set_trace (fun t => t ++ [RegEv m err]) w')
    | None => (None, w)
    end.

(** [syncs.Map.LoadOrStore]: the stored value and [true] when the key is
    present, otherwise the given value, stored, and [false]. *)
Definition LoadOrStore {V} (m : gmap string V) (k : string) (v : V)
    : V * bool * gmap string V :=
  match m !! k with
  | Some v0 => (v0, true, m)
  | None => (v, false, <[k := v]> m)
  end.

Definition counter_LoadOrStore (k : string) (v : loc) : M (loc * bool) :=
  fun w => let '(r, m) := LoadOrStore (counter w) k v in
           (r, set_counter (fun _ => m) w).

Definition gauge_LoadOrStore (k : string) (v : loc) : M (loc * bool) :=
  fun w => let '(r, m) := LoadOrStore (gauge w) k v in
           (r, set_gauge (fun _ => m) w).

Definition histogram_LoadOrStore (k : string) (v : loc * HistogramOpts)
    : M (loc * HistogramOpts * bool) :=
  fun w => let '(r, m) := LoadOrStore (histogram w) k v in
           (r, set_histogram (fun _ => m) w).

Definition summary_LoadOrStore (k : string) (v : loc * SummaryOpts)
    : M (loc * SummaryOpts * bool) :=
  fun w => let '(r, m) := LoadOrStore (summary w) k v in
           (r, set_summary (fun _ => m) w).

(** ** The client *)

Record NameAppend := mkNameAppend {
  Prefix : string;
  Suffix : string
}.

Module Names.
Record NameAppends := mkNameAppends {
  Counter : NameAppend;
  Gauge : NameAppend;
  Timer : NameAppend;
  Histogram : NameAppend;
  Summary : NameAppend
}.
End Names.
Export Names (NameAppends, mkNameAppends).

(** The configuration of a client; the registry and the four caches it
    points to are the [registry], [counter], [gauge], [histogram] and
    [summary] components of the [World].  A client always has a logger:
    [NewClient] installs [slog.WarnContext] when none is given. *)
Record client := mkClient {
  namespace : string;
  subsystem : string;
  names : NameAppends;
  constLabels : Labels;
  buckets : list float64;
  objectives : Objectives
}.

Definition isZeroNameAppend (na : NameAppend) : bool :=
  String.eqb (Prefix na) "" && String.eqb (Suffix na) "".

(** [c.names == (NameAppends{})]. *)
Definition isZeroNameAppends (n : NameAppends) : bool :=
  isZeroNameAppend (Names.Counter n) && isZeroNameAppend (Names.Gauge n)
  && isZeroNameAppend (Names.Timer n) && isZeroNameAppend (Names.Histogram n)
  && isZeroNameAppend (Names.Summary n).

Definition defaultNames : NameAppends :=
  mkNameAppends (mkNameAppend "counter:" "")
                (mkNameAppend "gauge:" "")
                (mkNameAppend "timer:" "_seconds")
                (mkNameAppend "histogram:" "")
                (mkNameAppend "summary:" "").

Definition f64_ratio (n d : Z) : float64 := f64_div (f64_of_Z n) (f64_of_Z d).

(** [prometheus.DefBuckets]. *)
Definition DefBuckets : list float64 :=
  [ f64_ratio 5 1000; f64_ratio 1 100; f64_ratio 25 1000; f64_ratio 5 100;
    f64_ratio 1 10; f64_ratio 25 100; f64_ratio 5 10; f64_of_Z 1;
    f64_ratio 25 10; f64_of_Z 5; f64_of_Z 10 ].

(** The options of [NewClient] that set a field of the configuration
    ([WithRegistry] and [WithLogger] act on the collaborators). *)
Inductive Opt :=
| WithNamespace (name : string)
| WithSubsystem (name : string)
| WithNameAppend (nameAppend : NameAppends)
| WithConstLabels (labels : Labels)
| WithBuckets (buckets : list float64)
| WithObjectives (objectives : Objectives).

Definition applyOpt (c : client) (o : Opt) : client :=
  match o with
  | WithNamespace name =>
    mkClient (Name.EscapeName name) (subsystem c) (names c) (constLabels c)
             (buckets c) (objectives c)
  | WithSubsystem name =>
    mkClient (namespace c) (Name.EscapeName name) (names c) (constLabels c)
             (buckets c) (objectives c)
  | WithNameAppend na =>
    mkClient (namespace c) (subsystem c) na (constLabels c)
             (buckets c) (objectives c)
  | WithConstLabels labels =>
    mkClient (namespace c) (subsystem c) (names c) labels
             (buckets c) (objectives c)
  | WithBuckets bs =>
    mkClient (namespace c) (subsystem c) (names c) (constLabels c)
             bs (objectives c)
  | WithObjectives os =>
    mkClient (namespace c) (subsystem c) (names c) (constLabels c)
             (buckets c) os
  end.

Definition zeroNameAppends : NameAppends :=
  mkNameAppends (mkNameAppend "" "") (mkNameAppend "" "") (mkNameAppend "" "")
                (mkNameAppend "" "") (mkNameAppend "" "").

Definition NewClient (opts : list Opt) : client :=
  let c := fold_left applyOpt opts (mkClient "" "" zeroNameAppends ∅ [] []) in
  mkClient (namespace c) (subsystem c)
           (if isZeroNameAppends (names c) then defaultNames else names c)
           (constLabels c)
           (if (length (buckets c) =? 0)%nat then DefBuckets else buckets c)
           (if (length (objectives c) =? 0)%nat then [] else objectives c).

(** [values.IsNotZero] on strings. *)
Definition IsNotZero (s : string) : bool := negb (String.eqb s "").

(** [strings.Join]. *)
Definition strings_Join (elems : list string) (sep : string) : string :=
  match elems with
  | [] => ""
  | e :: rest => fold_left (fun b s => b +:+ sep +:+ s) rest e
  end.

Definition buildFQName (c : client) (name : string) (na : NameAppend) : string :=
  let name := Prefix na +:+ Name.EscapeName name +:+ Suffix na in
  let names := List.filter IsNotZero [namespace c; subsystem c; name] in
  strings_Join names ":".

Definition prometheusOpt (c : client) (name desc : string) (na : NameAppend) : Opts :=
  mkOpts (buildFQName c name na) desc (constLabels c).

(** The name construction in the words of the specification: the members
    of [[namespace, subsystem, kindPrefix + escape(rawName) + kindSuffix]]
    that are not empty, separated by [":"]. *)
Definition spec_fqName (namespace subsystem kindPrefix kindSuffix rawName : string)
    : string :=
  let last := kindPrefix +:+ Name.EscapeName rawName +:+ kindSuffix in
  match String.eqb namespace "", String.eqb subsystem "", String.eqb last "" with
  | true, true, _ => last
  | true, false, true => subsystem
  | true, false, false => subsystem +:+ ":" +:+ last
  | false, true, true => namespace
  | false, true, false => namespace +:+ ":" +:+ last
  | false, false, true => namespace +:+ ":" +:+ subsystem
  | false, false, false => namespace +:+ ":" +:+ subsystem +:+ ":" +:+ last
  end.

(** [c.logger(ctx, msg, "name", name, ...)]. *)
Definition logger (ctx : Context) (msg name : string) : M unit :=
  emit (LogEv msg name).

Definition tags (ctx : Context) (kvs : list string) : M (list string * loc) :=
  let* tags := CtxGetLabels ctx in
  let* _ := rangeKV kvs (fun k v => map_store tags k v) in
  let* t := readMap tags in
  (* the order of [maps.Keys] is unspecified *)
  ret ((map_to_list t).*1, tags).

Definition recordErr (c : client) (name kind : string) : M unit :=
  let* _ := emit (ErrEv name kind) in
  let opt := prometheusOpt c "internal_monitor_error" "打点异常" (Names.Counter (names c)) in
  let* v := NewCounterVec opt ["name"; "kind"] in
  let* labels := newMap {[ "kind" := kind; "name" := name ]} in
  let* m := CounterVec_GetMetricWith v labels in   (* the error is discarded *)
  match m with
  | Some m =>
    let* _ := Registry_Register (OfCounter (fst m) (snd m)) in
    Counter_Inc m
  | None => ret tt   (* not reached: the two labels are those of the family *)
  end.

Definition isAlreadyRegisteredError (err : RegisterError) : bool :=
  match err with
  | AlreadyRegisteredError => true
  | InconsistentDescError => false
  end.

Definition register (c : client) (ctx : Context) (m : Collector)
    (name help kind : string) : M unit :=
  let* err := Registry_Register m in
  match err with
  | Some err =>       (* err != nil && c.logger != nil *)
    let dup := isAlreadyRegisteredError err in
    let errKind := kind +:+ (if dup then "_dup" else "") in
    let* _ := logger ctx errKind name in
    recordErr c name errKind
  | None => ret tt
  end.

Definition getCounter (c : client) (ctx : Context) (o : Opts)
    (labels : list string) : M loc :=
  let opt := o in
  let* cand := NewCounterVec opt labels in
  let* r := counter_LoadOrStore (Name opt) cand in
  let '(v, loaded) := r in
  let* _ := (if negb loaded
             then register c ctx (OfCounterVec v) (Name o) (Help o) "register_counter"
             else ret tt) in
  ret v.

Definition RecordN (c : client) (ctx : Context) (name desc : string)
    (value : float64) (kvs : list string) : M unit :=
  let opt := prometheusOpt c name desc (Names.Counter (names c)) in
  let* kt := tags ctx kvs in
  let '(keys, tags) := kt in
  let* v := getCounter c ctx opt keys in
  let* m := CounterVec_GetMetricWith v tags in
  match m with
  | None =>
    let* _ := recordErr c (Name opt) "get_counter" in
    logger ctx "get_counter|GetMetricWithLabelFailed" (Name opt)
  | Some m => Counter_Add m value
  end.

Definition Record (c : client) (ctx : Context) (name desc : string)
    (kvs : list string) : M unit := RecordN c ctx name desc (f64_of_Z 1) kvs.

Definition getGauge (c : client) (ctx : Context) (o : Opts)
    (labels : list string) : M loc :=
  let opt := o in
  let* cand := NewGaugeVec opt labels in
  let* r := gauge_LoadOrStore (Name opt) cand in
  let '(v, loaded) := r in
  let* _ := (if negb loaded
             then register c ctx (OfGaugeVec v) (Name o) (Help o) "register_gauge"
             else ret tt) in
  ret v.

Definition Store (c : client) (ctx : Context) (name desc : string)
    (value : float64) (kvs : list string) : M unit :=
  let opt := prometheusOpt c name desc (Names.Gauge (names c)) in
  let* kt := tags ctx kvs in
  let '(keys, tags) := kt in
  let* v := getGauge c ctx opt keys in
  let* m := GaugeVec_GetMetricWith v tags in
  match m with
  | None =>
    let* _ := recordErr c (Name opt) "get_gauge" in
    logger ctx "get_gauge|GetMetricWithLabelFailed" (Name opt)
  | Some m => Gauge_Set m value
  end.

Definition getHistogram (c : client) (ctx : Context) (opt : HistogramOpts)
    (labels : list string) : M (loc * HistogramOpts) :=
  let* cand := NewHistogramVec opt labels in
  let* r := histogram_LoadOrStore (hName opt) (cand, opt) in
  let '(v, loaded) := r in
  let* _ := (if negb loaded
             then register c ctx (OfHistogramVec (fst v)) (hName opt) (hHelp opt)
                           "register_histogram"
             else ret tt) in
  ret v.

Definition recordHistogram (c : client) (ctx : Context) (opt : Opts)
    (value : float64) (buckets : list float64) (kvs : list string) : M unit :=
  let* kt := tags ctx kvs in
  let '(keys, tags) := kt in
  let* v := getHistogram c ctx
              (mkHistogramOpts (Name opt) (Help opt) (ConstLabels opt) buckets) keys in
  let* _ := (if negb (slices_Equal (Buckets (snd v)) buckets)
             then let* _ := recordErr c (Name opt) "histogram_buckets_mismatch" in
                  logger ctx "histogram_buckets_mismatch" (Name opt)
             else ret tt) in
  let* m := HistogramVec_GetMetricWith (fst v) tags in
  match m with
  | None =>
    let* _ := recordErr c (Name opt) "get_histogram" in
    logger ctx "get_histogram|GetMetricWithLabelFailed" (Name opt)
  | Some m => Histogram_Observe m value
  end.

Definition Cost (c : client) (ctx : Context) (name desc : string)
    (cost : Duration) (kvs : list string) : M unit :=
  let opt := prometheusOpt c name desc (Names.Timer (names c)) in
  recordHistogram c ctx opt (Seconds cost) (buckets c) kvs.


(** [Timer(buckets...)]: [start] is the reading of [time.Now()] at the
    call; the function returned takes as [now] the reading of the clock
    inside [time.Since]. *)
Definition Timer (c : client) (buckets' : list float64) (start : Z)
    : Z -> Context -> string -> string -> list string -> M Duration :=
  let buckets' := if (length buckets' =? 0)%nat then buckets c else buckets' in
  fun now ctx name desc kvs =>
    let cost := time_Sub now start in
    let opt := prometheusOpt c name desc (Names.Timer (names c)) in
    let* _ := recordHistogram c ctx opt (Seconds cost) buckets' kvs in
    ret cost.

Definition Histogram (c : client) (ctx : Context) (name desc : string)
    (value : float64) (buckets : list float64) (kvs : list string) : M unit :=
  let opt := prometheusOpt c name desc (Names.Histogram (names c)) in
  recordHistogram c ctx opt value buckets kvs.

Definition getSummary (c : client) (ctx : Context) (opt : SummaryOpts)
    (labels : list string) : M (loc * SummaryOpts) :=
  let* cand := NewSummaryVec opt labels in
  let* r := summary_LoadOrStore (sName opt) (cand, opt) in
  let '(v, loaded) := r in
  let* _ := (if negb loaded
             then register c ctx (OfSummaryVec (fst v)) (sName opt) (sHelp opt)
                           "register_summary"
             else ret tt) in
  ret v.

Definition recordSummary (c : client) (ctx : Context) (opt : Opts)
    (value : float64) (objectives : Objectives) (kvs : list string) : M unit :=
  let* kt := tags ctx kvs in
  let '(keys, tags) := kt in
  let* v := getSummary c ctx
              (mkSummaryOpts (Name opt) (Help opt) (ConstLabels opt) objectives) keys in
  let* _ := (if negb (maps_Equal (sObjectives (snd v)) objectives)
             then let* _ := recordErr c (Name opt) "summary_objectives_mismatch" in
                  logger ctx "summary_objectives_mismatch" (Name opt)
             else ret tt) in
  let* m := SummaryVec_GetMetricWith (fst v) tags in
  match m with
  | None =>
    let* _ := recordErr c (Name opt) "get_summary" in
    logger ctx "get_summary|GetMetricWithLabelFailed" (Name opt)
  | Some m => Summary_Observe m value
  end.


Definition SummaryObjectives (c : client) (ctx : Context) (name desc : string)
    (value : float64) (objectives : Objectives) (kvs : list string) : M unit :=
  let opt := prometheusOpt c name desc (Names.Summary (names c)) in
  recordSummary c ctx opt value objectives kvs.

Definition Summary (c : client) (ctx : Context) (name desc : string)
    (value : float64) (kvs : list string) : M unit :=
  SummaryObjectives c ctx name desc value (objectives c) kvs.

(** ** Worlds after a call, and what can be observed of them *)

(** The world [rangeKV] leaves when its callback is run on each pair. *)
Definition run_pairs (f : string -> string -> M unit) (ps : list (string * string))
    (w : World) : World :=
  fold_left (fun w p => snd (f (fst p) (snd p) w)) ps w.

(** What [ctxGetLabels] allocates before the clone: nothing when the
    context carries a map, a new empty map otherwise. *)
Definition ctx_pad (ctx : Context) : list Labels :=
  match ctx_Value ctx with
  | Some _ => []
  | None => [∅]
  end.

(** Where the clone made by [CtxGetLabels] is allocated. *)
Definition tags_loc (ctx : Context) (w : World) : loc :=
  (length (maps w) + length (ctx_pad ctx))%nat.

(** The merged label map of a call: the labels of the context with the
    explicit pairs applied. *)
Definition merged (ctx : Context) (kvs : list string) (w : World) : Labels :=
  apply_pairs (ctx_labels ctx w) (kv_pairs kvs).

Definition tags_world (ctx : Context) (kvs : list string) (w : World) : World :=
  set_maps (fun h => (h ++ ctx_pad ctx) ++ [merged ctx kvs w]) w.

Definition keys_of (t : Labels) : list string := (map_to_list t).*1.

(** The reports made to the internal-error counter and to the logger. *)
Definition errs (w : World) : list (string * string) :=
  omap (fun e => match e with ErrEv n k => Some (n, k) | _ => None end) (trace w).

Definition logs (w : World) : list (string * string) :=
  omap (fun e => match e with LogEv m n => Some (m, n) | _ => None end) (trace w).

(** The families a client asked the registry to register. *)
Definition family_registrations (w : World) : list Collector :=
  omap (fun e => match e with
                 | RegEv (OfCounter _ _) _ => None
                 | RegEv c _ => Some c
                 | _ => None
                 end) (trace w).

Definition errLabels (name kind : string) : Labels :=
  {[ "kind" := kind; "name" := name ]}.

Definition errOpts (c : client) : Opts :=
  prometheusOpt c "internal_monitor_error" "打点异常" (Names.Counter (names c)).

Definition errDesc (c : client) : Desc :=
  mkDesc (Name (errOpts c)) (Help (errOpts c)) (ConstLabels (errOpts c)) ["name"; "kind"].

(** The family [recordErr] builds on each call, after its [Inc]. *)
Definition errVec (c : client) (name kind : string) : CounterVec :=
  mkVec (errOpts c) ["name"; "kind"]
        {[ errLabels name kind := f64_add f64_zero (f64_of_Z 1) ]}.

Definition recordErr_world (c : client) (name kind : string) (w : World) : World :=
  let m := OfCounter (length (counterVecs w)) (errLabels name kind) in
  let err := registerCheck (registry w) (errDesc c) in
  mkWorld (maps w ++ [errLabels name kind])
          (counterVecs w ++ [errVec c name kind])
          (gaugeVecs w) (histogramVecs w) (summaryVecs w)
          (match err with
           | None => registry w ++ [(errDesc c, m)]
           | Some _ => registry w
           end)
          (counter w) (gauge w) (histogram w) (summary w)
          (trace w ++ [ErrEv name kind; RegEv m err]).

Definition errKindOf (kind : string) (e : RegisterError) : string :=
  kind +:+ (if isAlreadyRegisteredError e then "_dup" else "").

Definition register_world (c : client) (m : Collector) (d : Desc)
    (name kind : string) (w : World) : World :=
  match registerCheck (registry w) d with
  | None =>
    set_trace (fun t => t ++ [RegEv m None]) (set_registry (fun r => r ++ [(d, m)]) w)
  | Some e =>
    recordErr_world c name (errKindOf kind e)
      (set_trace (fun t => t ++ [RegEv m (Some e); LogEv (errKindOf kind e) name]) w)
  end.

(** The candidate family a call builds, and a family after an observation
    for the label set [t]. *)
Definition counterCand (o : Opts) (t : Labels) : CounterVec := mkVec o (keys_of t) ∅.

Definition addTo (value : float64) (t : Labels) (v : CounterVec) : CounterVec :=
  onChild (fun x => f64_add x value) t (withChild f64_zero t v).

Definition gaugeCand (o : Opts) (t : Labels) : GaugeVec := mkVec o (keys_of t) ∅.

Definition setTo (value : float64) (t : Labels) (v : GaugeVec) : GaugeVec :=
  onChild (fun _ => value) t (withChild f64_zero t v).

Definition histogramCand (o : HistogramOpts) (t : Labels) : HistogramVec :=
  mkVec o (keys_of t) ∅.

Definition observeTo (value : float64) (t : Labels) (v : HistogramVec) : HistogramVec :=
  onChild (fun obs => obs ++ [value]) t (withChild [] t v).

Definition summaryCand (o : SummaryOpts) (t : Labels) : SummaryVec :=
  mkVec o (keys_of t) ∅.

Definition summarize (value : float64) (t : Labels) (v : SummaryVec) : SummaryVec :=
  onChild (fun obs => obs ++ [value]) t (withChild [] t v).

(** The world after the comparison of the stored configuration with the
    requested one. *)
Definition drift_world (c : client) (fq : string) (stored requested : list float64)
    (w : World) : World :=
  if negb (slices_Equal stored requested)
  then set_trace (fun tr => tr ++ [LogEv "histogram_buckets_mismatch" fq])
         (recordErr_world c fq "histogram_buckets_mismatch" w)
  else w.

Definition objectives_world (c : client) (fq : string) (stored requested : Objectives)
    (w : World) : World :=
  if negb (maps_Equal stored requested)
  then set_trace (fun tr => tr ++ [LogEv "summary_objectives_mismatch" fq])
         (recordErr_world c fq "summary_objectives_mismatch" w)
  else w.

(** What a scrape of the registry shows for the counter series [labels] of
    the family named [fq]: the values of the registered collectors that
    carry it. *)
Definition collector_series (w : World) (c : Collector) (labels : Labels)
    : option float64 :=
  match c with
  | OfCounterVec l => counterVecs w !! l ≫= fun v => vchildren v !! labels
  | OfCounter l child =>
    if bool_decide (child = labels)
    then counterVecs w !! l ≫= fun v => vchildren v !! child
    else None
  | _ => None
  end.

Definition gathered (w : World) (fq : string) (labels : Labels) : list float64 :=
  omap (fun e => if bool_decide (fqName (fst e) = fq)
                 then collector_series w (snd e) labels
                 else None) (registry w).

Arguments labelsMatch : simpl never.
Arguments registerCheck : simpl never.
Arguments f64_add : simpl never.
Arguments f64_of_Z : simpl never.
Arguments Seconds : simpl never.
Arguments time_Sub : simpl never.

(** The value of the last pair with key [k], if any. *)
Fixpoint pairs_lookup (ps : list (string * string)) (k : string) : option string :=
  match ps with
  | [] => None
  | (k', v) :: rest =>
    match pairs_lookup rest k with
    | Some v' => Some v'
    | None => if String.eqb k' k then Some v else None
    end
  end.

(** [n] failure reports with the same name and kind, one after the other. *)
Definition reports (c : client) (name kind : string) (n : nat) (w : World) : World :=
  Nat.iter n (fun w => snd (recordErr c name kind w)) w.

(** ** Concurrent callers of [RecordN]

    A goroutine in [RecordN] reaches the state it shares with other
    goroutines only through calls that their libraries make atomic:
    [LoadOrStore] on the cache, [Register] on the registry, [GetMetricWith]
    on a family and [Add] on a child.  A caller is therefore a program
    counter that rests between two such calls, and a run of several callers
    is an interleaving of their steps.  What a caller does to objects that
    only it holds (the clone of the label map, the candidate family, the
    family built by [recordErr]) belongs to the step that makes them. *)

Record Call := mkCall {
  call_ctx : Context;
  call_name : string;
  call_desc : string;
  call_value : float64;
  call_kvs : list string
}.

(** Where a caller of [RecordN] stands, with the local variables that are
    live there. *)
Inductive Thread :=
| AtTags
| AtNewCounterVec (keys : list string) (tags : loc)
| AtLoadOrStore (tags : loc) (cand : loc)
| AtRegister (tags : loc) (v : loc)
| AtRegisterFailed (tags : loc) (v : loc) (err : RegisterError)
| AtGetMetricWith (tags : loc) (v : loc)
| AtAdd (m : Metric)
| AtGetFailed
| Returned.

Definition call_opt (c : client) (call : Call) : Opts :=
  prometheusOpt c (call_name call) (call_desc call) (Names.Counter (names c)).

(** One step of a caller: the code of [RecordN], [getCounter] and
    [register] from one resting point to the next. *)
Definition step (c : client) (call : Call) (th : Thread) : M Thread :=
  let ctx := call_ctx call in
  let opt := call_opt c call in
  match th with
  | AtTags =>
    let* kt := tags ctx (call_kvs call) in
    let '(keys, tags) := kt in
    ret (AtNewCounterVec keys tags)
  | AtNewCounterVec keys tags =>
    let* cand := NewCounterVec opt keys in
    ret (AtLoadOrStore tags cand)
  | AtLoadOrStore tags cand =>
    let* r := counter_LoadOrStore (Name opt) cand in
    let '(v, loaded) := r in
    ret (if negb loaded then AtRegister tags v else AtGetMetricWith tags v)
  | AtRegister tags v =>
    let* err := Registry_Register (OfCounterVec v) in
    ret (match err with
         | Some err => AtRegisterFailed tags v err
         | None => AtGetMetricWith tags v
         end)
  | AtRegisterFailed tags v err =>
    let dup := isAlreadyRegisteredError err in
    let errKind := "register_counter" +:+ (if dup then "_dup" else "") in
    let* _ := logger ctx errKind (Name opt) in
    let* _ := recordErr c (Name opt) errKind in
    ret (AtGetMetricWith tags v)
  | AtGetMetricWith tags v =>
    let* m := CounterVec_GetMetricWith v tags in
    ret (match m with
         | Some m => AtAdd m
         | None => AtGetFailed
         end)
  | AtAdd m =>
    let* _ := Counter_Add m (call_value call) in
    ret Returned
  | AtGetFailed =>
    let* _ := recordErr c (Name opt) "get_counter" in
    let* _ := logger ctx "get_counter|GetMetricWithLabelFailed" (Name opt) in
    ret Returned
  | Returned => ret Returned
  end.

(** The callers in flight, and a run under a schedule: the list of the
    callers that take the next step, in order. *)
Abbreviation Pool := (list (Call * Thread)).

Definition spawn (calls : list Call) : Pool := (fun call => (call, AtTags)) <$> calls.

Definition sched_step (c : client) (i : nat) (p : Pool) : M Pool :=
  match p !! i with
  | Some (call, th) =>
    let* th' := step c call th in
    ret (<[i := (call, th')]> p)
  | None => ret p
  end.

Fixpoint exec (c : client) (sched : list nat) (p : Pool) : M Pool :=
  match sched with
  | [] => ret p
  | i :: rest =>
    let* p' := sched_step c i p in
    exec c rest p'
  end.

Definition returned (th : Thread) : bool :=
  match th with
  | Returned => true
  | _ => false
  end.

Definition finished (p : Pool) : bool := forallb (fun e => returned (snd e)) p.

(** The steps a caller has left, at most. *)
Definition remaining (th : Thread) : nat :=
  match th with
  | AtTags => 7
  | AtNewCounterVec _ _ => 6
  | AtLoadOrStore _ _ => 5
  | AtRegister _ _ => 4
  | AtRegisterFailed _ _ _ => 3
  | AtGetMetricWith _ _ => 2
  | AtAdd _ | AtGetFailed => 1
  | Returned => 0
  end.

(** A schedule that gives each of [n] callers the steps it needs. *)
Definition fair (n : nat) (sched : list nat) : Prop :=
  forall i, (i < n)%nat -> (7 <= count_occ Nat.eq_dec sched i)%nat.

(** The merged label map of a call and the observation it asks for. *)
Definition call_labels (w0 : World) (call : Call) : Labels :=
  merged (call_ctx call) (call_kvs call) w0.

Definition observation (w0 : World) (call : Call) : Labels * float64 :=
  (call_labels w0 call, call_value call).

(** A counter family's children after one more observation, and after a
    list of them. *)
Definition record_into (ch : gmap Labels float64) (o : Labels * float64)
    : gmap Labels float64 :=
  <[fst o := f64_add (default f64_zero (ch !! fst o)) (snd o)]> ch.

Definition record_all (os : list (Labels * float64)) : gmap Labels float64 :=
  fold_left record_into os ∅.

(** *** What holds between the steps of concurrent first users of a name

    [w0] is the state in which the callers [calls] are launched and [fq]
    the fully-qualified name they all use.  Until a [LoadOrStore] has
    stored a candidate the callers are [racing]; from then on one of them
    has [won]. *)
Section Interleaving.
Context (c : client) (w0 : World) (fq : string) (calls : list Call).

Definition tags_ok (w : World) (call : Call) (tags : loc) : Prop :=
  maps w !! tags = Some (call_labels w0 call).

(** The maps allocated in [w0] are still what they were. *)
Definition maps_kept (w : World) : Prop :=
  forall l x, maps w0 !! l = Some x -> maps w !! l = Some x.

Definition early (w : World) (call : Call) (th : Thread) : Prop :=
  match th with
  | AtTags => True
  | AtNewCounterVec keys tags =>
    keys = keys_of (call_labels w0 call) /\ tags_ok w call tags
  | AtLoadOrStore tags cand =>
    tags_ok w call tags
    /\ counterVecs w !! cand
       = Some (counterCand (call_opt c call) (call_labels w0 call))
  | _ => False
  end.

Record racing (w : World) (p : Pool) : Prop := mkRacing {
  racing_calls : p.*1 = calls;
  racing_maps : maps_kept w;
  racing_cache : counter w = counter w0;
  racing_regs : family_registrations w = family_registrations w0;
  racing_threads : forall i call th, p !! i = Some (call, th) -> early w call th
}.

Definition late (w : World) (win : nat) (wc : Call) (v : loc) (vec : CounterVec)
    (i : nat) (call : Call) (th : Thread) : Prop :=
  match th with
  | AtTags => True
  | AtNewCounterVec keys tags =>
    keys = keys_of (call_labels w0 call) /\ tags_ok w call tags
  | AtLoadOrStore tags cand => tags_ok w call tags
  | AtRegister tags v' =>
    i = win /\ v' = v /\ tags_ok w call tags
    /\ family_registrations w = family_registrations w0
  | AtRegisterFailed tags v' _ => v' = v /\ tags_ok w call tags
  | AtGetMetricWith tags v' => v' = v /\ tags_ok w call tags
  | AtAdd m =>
    m = (v, call_labels w0 call)
    /\ dom (call_labels w0 call) = dom (call_labels w0 wc)
    /\ is_Some (vchildren vec !! call_labels w0 call)
  | AtGetFailed => dom (call_labels w0 call) <> dom (call_labels w0 wc)
  | Returned => True
  end.

(** The observation of a caller that has returned after its [Add]: one
    whose label keys are the [keys] of the stored family. *)
Definition recorded (keys : gset string) (e : Call * Thread)
    : option (Labels * float64) :=
  if returned (snd e) && bool_decide (dom (call_labels w0 (fst e)) = keys)
  then Some (observation w0 (fst e))
  else None.

Record won (w : World) (p : Pool) (win : nat) (wc : Call) (v : loc)
    (vec : CounterVec) (done : list (Labels * float64)) : Prop := mkWon {
  won_calls : p.*1 = calls;
  won_winner : calls !! win = Some wc;
  won_maps : maps_kept w;
  won_cache : counter w = <[fq := v]> (counter w0);
  won_vec : counterVecs w !! v = Some vec;
  won_opts : vopts vec = call_opt c wc;
  won_labels : vlabels vec = keys_of (call_labels w0 wc);
  won_regs :
    family_registrations w = family_registrations w0 ++ [OfCounterVec v]
    \/ exists tags, p !! win = Some (wc, AtRegister tags v);
  won_threads :
    forall i call th, p !! i = Some (call, th) -> late w win wc v vec i call th;
  won_done : done ≡ₚ omap (recorded (dom (call_labels w0 wc))) p;
  won_children :
    forall t y, record_all done !! t = Some y -> vchildren vec !! t = Some y;
  won_pending :
    forall t z, record_all done !! t = None -> vchildren vec !! t = Some z ->
      z = f64_zero /\ exists i call, p !! i = Some (call, AtAdd (v, t))
}.

Definition interleaving_inv (w : World) (p : Pool) : Prop :=
  racing w p \/ exists win wc v vec done, won w p win wc v vec done.

End Interleaving.

(** ** Auxiliary notions for the properties of the client *)

(** What the namespace and the subsystem put in front of a metric name. *)
Definition fq_lead (c : client) : string :=
  (if String.eqb (namespace c) "" then "" else namespace c +:+ ":")
  +:+ (if String.eqb (subsystem c) "" then "" else subsystem c +:+ ":").

(** [x != x], true of NaN only. *)
Definition f64_is_nan (x : float64) : bool :=
  match x with
  | S754_nan => true
  | _ => false
  end.

(** A computation that leaves every label map that exists as it is (it
    may allocate new ones). *)
Definition keeps_maps {A} (m : M A) : Prop :=
  forall w l x, maps w !! l = Some x -> maps (snd (m w)) !! l = Some x.

(** A computation that hands no family to the registry. *)
Definition registers_nothing {A} (m : M A) : Prop :=
  forall w, family_registrations (snd (m w)) = family_registrations w.

(** * Properties *)

(** * Properties *)

Ltac unfold_setters :=
  unfold set_maps, set_counterVecs, set_gaugeVecs, set_histogramVecs,
    set_summaryVecs, set_registry, set_counter, set_gauge, set_histogram,
    set_summary, set_trace in *.

(** ** State passing and lists *)

Lemma bind_eq {A B} (m : M A) (k : A -> M B) w a w' :
  m w = (a, w') -> bind m k w = k a w'.
Proof. intros H. unfold bind. rewrite H. reflexivity. Qed.

Lemma World_eta w :
  mkWorld (maps w) (counterVecs w) (gaugeVecs w) (histogramVecs w) (summaryVecs w)
          (registry w) (counter w) (gauge w) (histogram w) (summary w) (trace w) = w.
Proof. destruct w; reflexivity. Qed.

Lemma alter_app_last {A} (f : A -> A) (h : list A) (x : A) :
  alter f (length h) (h ++ [x]) = h ++ [f x].
Proof. pose proof (alter_app_r f h [x] 0) as H. rewrite Nat.add_0_r in H. exact H. Qed.

Lemma lookup_app_last {A} (h : list A) (x : A) :
  (h ++ [x]) !! length h = Some x.
Proof. rewrite lookup_app_r by lia. by rewrite Nat.sub_diag. Qed.

Lemma insert_eq_alter {A} (l : list A) i x f :
  l !! i = Some x -> alter f i l = <[i := f x]> l.
Proof.
  intros H. apply list_eq. intros j.
  destruct (decide (i = j)) as [->|Hne].
  - rewrite list_lookup_alter_eq, H. simpl.
    rewrite list_lookup_insert_eq; [done|]. by eapply lookup_lt_Some.
  - by rewrite list_lookup_alter_ne, list_lookup_insert_ne.
Qed.

(** ** LabelContext *)

(** The loop of [rangeKV] visits exactly the pairs of [kv_pairs]. *)
Lemma rangeKV_loop_pairs f fuel : forall pre rest w,
  (length rest <= fuel)%nat ->
  rangeKV_loop fuel (pre ++ rest) (Z.of_nat (length pre)) f w
  = (tt, run_pairs f (kv_pairs rest) w).
Proof.
  induction fuel as [|fuel IH]; intros pre rest w Hlen.
  - destruct rest; [reflexivity | simpl in Hlen; lia].
  - cbn [rangeKV_loop]. rewrite length_app.
    destruct rest as [|k [|v rest]].
    + simpl. case_match eqn:E; [apply Z.ltb_lt in E; lia | reflexivity].
    + simpl. case_match eqn:E; [apply Z.ltb_lt in E; lia | reflexivity].
    + assert (Hlt : (Z.of_nat (length pre)
                     <? Z.of_nat (length pre + length (k :: v :: rest)) - 1) = true).
      { apply Z.ltb_lt. simpl. lia. }
      rewrite Hlt. rewrite Nat2Z.id.
      replace (Z.to_nat (Z.of_nat (length pre) + 1)) with (S (length pre)) by lia.
      rewrite (lookup_app_r pre) by lia. rewrite Nat.sub_diag.
      rewrite (lookup_app_r pre) by lia.
      replace (S (length pre) - length pre)%nat with 1%nat by lia.
      cbn [lookup list_lookup].
      unfold bind. destruct (f k v w) as [[] w1] eqn:Hf.
      replace (pre ++ k :: v :: rest) with ((pre ++ [k; v]) ++ rest)
        by (rewrite <- app_assoc; reflexivity).
      replace (Z.of_nat (length pre) + 2) with (Z.of_nat (length (pre ++ [k; v])))
        by (rewrite length_app; simpl; lia).
      rewrite IH by (simpl in Hlen; lia).
      simpl. unfold run_pairs. simpl. rewrite Hf. reflexivity.
Qed.

Lemma rangeKV_pairs f kvs w :
  rangeKV kvs f w = (tt, run_pairs f (kv_pairs kvs) w).
Proof.
  unfold rangeKV. apply (rangeKV_loop_pairs f (length kvs) [] kvs w). lia.
Qed.

Lemma run_pairs_map_store l ps : forall w,
  run_pairs (map_store l) ps w = set_maps (alter (fun m => apply_pairs m ps) l) w.
Proof.
  induction ps as [|[k v] ps IH]; intros w.
  - simpl. unfold set_maps. rewrite list_alter_id by done. symmetry. apply World_eta.
  - unfold run_pairs in *. cbn [fold_left]. cbn [map_store snd fst]. rewrite IH.
    unfold set_maps; cbn. f_equal.
    rewrite list_alter_alter_eq. reflexivity.
Qed.

Lemma tags_loc_length ctx w : tags_loc ctx w = length (maps w ++ ctx_pad ctx).
Proof. unfold tags_loc. by rewrite length_app. Qed.

Lemma CtxGetLabels_eq ctx w :
  CtxGetLabels ctx w
  = (tags_loc ctx w, set_maps (fun h => (h ++ ctx_pad ctx) ++ [ctx_labels ctx w]) w).
Proof.
  unfold CtxGetLabels, ctxGetLabels, tags_loc, ctx_pad, ctx_labels, maps_Clone, bind,
    readMap, newMap, ret, set_maps.
  destruct (ctx_Value ctx) as [l|]; cbn.
  - rewrite Nat.add_0_r, app_nil_r. reflexivity.
  - rewrite lookup_app_last. cbn. rewrite length_app. cbn. reflexivity.
Qed.

Lemma CtxAddLabels_eq ctx kvs w :
  CtxAddLabels ctx kvs w = (WithValue ctx (tags_loc ctx w), tags_world ctx kvs w).
Proof.
  unfold CtxAddLabels, tags_world.
  rewrite (bind_eq _ _ _ _ _ (CtxGetLabels_eq ctx w)).
  rewrite (bind_eq _ _ _ _ _ (rangeKV_pairs _ kvs _)).
  rewrite run_pairs_map_store. unfold ret, set_maps, merged; cbn.
  rewrite tags_loc_length, alter_app_last. reflexivity.
Qed.

Lemma tags_eq ctx kvs w :
  tags ctx kvs w = ((keys_of (merged ctx kvs w), tags_loc ctx w), tags_world ctx kvs w).
Proof.
  unfold tags, tags_world, keys_of.
  rewrite (bind_eq _ _ _ _ _ (CtxGetLabels_eq ctx w)).
  rewrite (bind_eq _ _ _ _ _ (rangeKV_pairs _ kvs _)).
  rewrite run_pairs_map_store. unfold bind, readMap, ret, set_maps, merged; cbn.
  rewrite tags_loc_length, alter_app_last, lookup_app_last. reflexivity.
Qed.

Lemma lookup_tags_world ctx w (x : Labels) :
  ((maps w ++ ctx_pad ctx) ++ [x]) !! tags_loc ctx w = Some x.
Proof. rewrite tags_loc_length. apply lookup_app_last. Qed.

Lemma dom_apply_pairs (ps : list (string * string)) : forall m : Labels,
  dom (apply_pairs m ps) = dom m ∪ list_to_set ps.*1.
Proof.
  induction ps as [|[k v] ps IH]; intros m; simpl.
  - rewrite union_empty_r_L. reflexivity.
  - unfold apply_pairs in *. simpl. rewrite IH, dom_insert_L.
    rewrite (union_comm_L {[k]} (dom m)), <- union_assoc_L. reflexivity.
Qed.

(** ** Label names of a family *)

Lemma labelsMatch_dom (names : list string) (t : Labels) :
  NoDup names ->
  labelsMatch names t = true <-> dom t = list_to_set names.
Proof.
  intros Hnd. unfold labelsMatch. rewrite andb_true_iff, Nat.eqb_eq, forallb_forall.
  split.
  - intros [Hsz Hall]. symmetry. apply set_subseteq_size_eq.
    + intros x Hx. apply elem_of_list_to_set in Hx. apply elem_of_dom.
      apply list_elem_of_In in Hx. apply Hall in Hx. by apply bool_decide_eq_true in Hx.
    + rewrite size_dom, Hsz, size_list_to_set by done. done.
  - intros Hdom. split.
    + rewrite <- size_dom, Hdom, size_list_to_set by done. done.
    + intros x Hx. apply bool_decide_eq_true. apply elem_of_dom. rewrite Hdom.
      apply elem_of_list_to_set. by apply list_elem_of_In.
Qed.

Lemma keys_NoDup (t : Labels) : NoDup (keys_of t).
Proof. apply NoDup_fst_map_to_list. Qed.

Lemma keys_dom (t : Labels) : list_to_set (keys_of t) = dom t.
Proof.
  apply set_eq. intros x. unfold keys_of. rewrite elem_of_list_to_set, elem_of_dom.
  rewrite list_elem_of_fmap. split.
  - intros [[k v] [-> H]]. apply elem_of_map_to_list in H. eauto.
  - intros [v H]. exists (x, v). split; [done|]. by apply elem_of_map_to_list.
Qed.

Lemma labelsMatch_keys_of (t0 t : Labels) :
  labelsMatch (keys_of t0) t = true <-> dom t = dom t0.
Proof. rewrite labelsMatch_dom by apply keys_NoDup. by rewrite keys_dom. Qed.

Lemma labelsMatch_keys_of_false (t0 t : Labels) :
  dom t <> dom t0 -> labelsMatch (keys_of t0) t = false.
Proof. intros H. apply not_true_is_false. by rewrite labelsMatch_keys_of. Qed.

Lemma labelsMatch_keys (t : Labels) : labelsMatch (keys_of t) t = true.
Proof. by apply labelsMatch_keys_of. Qed.

Lemma withChild_empty {O A} (z : A) (t : Labels) (o : O) (ls : list string) :
  withChild z t (mkVec o ls ∅) = mkVec o ls {[ t := z ]}.
Proof. unfold withChild. simpl. rewrite lookup_empty. reflexivity. Qed.

Lemma vopts_withChild {O A} (z : A) t (v : Vec O A) : vopts (withChild z t v) = vopts v.
Proof. unfold withChild. by destruct (vchildren v !! t). Qed.

Lemma vlabels_withChild {O A} (z : A) t (v : Vec O A) :
  vlabels (withChild z t v) = vlabels v.
Proof. unfold withChild. by destruct (vchildren v !! t). Qed.

(** ** The internal-error counter and registration *)

Lemma errLabels_dom name kind : dom (errLabels name kind) = {[ "kind"; "name" ]}.
Proof. unfold errLabels. by rewrite dom_insert_L, dom_singleton_L. Qed.

Lemma errLabels_match name kind :
  labelsMatch ["name"; "kind"] (errLabels name kind) = true.
Proof.
  apply labelsMatch_dom.
  - apply NoDup_cons. split; [|apply NoDup_singleton].
    intros H. apply list_elem_of_singleton in H. discriminate.
  - rewrite errLabels_dom. simpl. rewrite union_empty_r_L. apply union_comm_L.
Qed.

Lemma recordErr_eq c name kind w :
  recordErr c name kind w = (tt, recordErr_world c name kind w).
Proof.
  unfold recordErr, recordErr_world, bind, emit, NewCounterVec, newMap,
    CounterVec_GetMetricWith, readMap, Registry_Register, Counter_Inc, Counter_Add.
  unfold bind, readMap. unfold_setters. simpl. rewrite !lookup_app_last. simpl.
  fold (errLabels name kind). rewrite errLabels_match. simpl.
  rewrite alter_app_last, lookup_app_last. simpl.
  fold (errOpts c). rewrite withChild_empty. simpl.
  change (mkDesc _ _ _ _) with (errDesc c).
  destruct (registerCheck (registry w) (errDesc c)); simpl;
    rewrite alter_app_last; unfold onChild, errVec; simpl;
    rewrite alter_singleton_eq, <- app_assoc; reflexivity.
Qed.

Lemma register_eq c ctx m d name help kind w :
  describe w m = Some d ->
  register c ctx m name help kind w = (tt, register_world c m d name kind w).
Proof.
  intros Hd. unfold register, register_world, bind, Registry_Register, logger, emit.
  rewrite Hd. destruct (registerCheck (registry w) d) as [e|]; simpl.
  - rewrite recordErr_eq. unfold errKindOf. unfold_setters. simpl.
    rewrite <- app_assoc. reflexivity.
  - reflexivity.
Qed.

(** [recordErr] and [register] only add objects to the stores. *)
Lemma maps_recordErr_world c name kind w i x :
  maps w !! i = Some x -> maps (recordErr_world c name kind w) !! i = Some x.
Proof. intros H. simpl. by apply lookup_app_l_Some. Qed.

Lemma counterVecs_recordErr_world c name kind w i x :
  counterVecs w !! i = Some x -> counterVecs (recordErr_world c name kind w) !! i = Some x.
Proof. intros H. simpl. by apply lookup_app_l_Some. Qed.

Lemma maps_register_world c m d name kind w i x :
  maps w !! i = Some x -> maps (register_world c m d name kind w) !! i = Some x.
Proof.
  intros H. unfold register_world. destruct (registerCheck _ _); [|exact H].
  by apply maps_recordErr_world.
Qed.

Lemma counterVecs_register_world c m d name kind w i x :
  counterVecs w !! i = Some x ->
  counterVecs (register_world c m d name kind w) !! i = Some x.
Proof.
  intros H. unfold register_world. destruct (registerCheck _ _); [|exact H].
  by apply counterVecs_recordErr_world.
Qed.

Lemma gaugeVecs_register_world c m d name kind w :
  gaugeVecs (register_world c m d name kind w) = gaugeVecs w.
Proof. unfold register_world. by destruct (registerCheck _ _). Qed.

Lemma histogramVecs_register_world c m d name kind w :
  histogramVecs (register_world c m d name kind w) = histogramVecs w.
Proof. unfold register_world. by destruct (registerCheck _ _). Qed.

Lemma summaryVecs_register_world c m d name kind w :
  summaryVecs (register_world c m d name kind w) = summaryVecs w.
Proof. unfold register_world. by destruct (registerCheck _ _). Qed.

Lemma maps_drift_world c fq s r w i x :
  maps w !! i = Some x -> maps (drift_world c fq s r w) !! i = Some x.
Proof.
  intros H. unfold drift_world. destruct (negb _); [|exact H].
  simpl. by apply lookup_app_l_Some.
Qed.

Lemma histogramVecs_drift_world c fq s r w :
  histogramVecs (drift_world c fq s r w) = histogramVecs w.
Proof. unfold drift_world. by destruct (negb _). Qed.

Lemma maps_objectives_world c fq s r w i x :
  maps w !! i = Some x -> maps (objectives_world c fq s r w) !! i = Some x.
Proof.
  intros H. unfold objectives_world. destruct (negb _); [|exact H].
  simpl. by apply lookup_app_l_Some.
Qed.

Lemma summaryVecs_objectives_world c fq s r w :
  summaryVecs (objectives_world c fq s r w) = summaryVecs w.
Proof. unfold objectives_world. by destruct (negb _). Qed.

(** ** The four recording paths, case by case *)

Lemma CounterVec_GetMetricWith_eq v tl w t vec :
  maps w !! tl = Some t ->
  counterVecs w !! v = Some vec ->
  CounterVec_GetMetricWith v tl w
  = if labelsMatch (vlabels vec) t
    then (Some (v, t), set_counterVecs (alter (withChild f64_zero t) v) w)
    else (None, w).
Proof.
  intros Hm Hv. unfold CounterVec_GetMetricWith, bind, readMap.
  rewrite Hm, Hv. reflexivity.
Qed.

Lemma GaugeVec_GetMetricWith_eq v tl w t vec :
  maps w !! tl = Some t ->
  gaugeVecs w !! v = Some vec ->
  GaugeVec_GetMetricWith v tl w
  = if labelsMatch (vlabels vec) t
    then (Some (v, t), set_gaugeVecs (alter (withChild f64_zero t) v) w)
    else (None, w).
Proof.
  intros Hm Hv. unfold GaugeVec_GetMetricWith, bind, readMap.
  rewrite Hm, Hv. reflexivity.
Qed.

Lemma HistogramVec_GetMetricWith_eq v tl w t vec :
  maps w !! tl = Some t ->
  histogramVecs w !! v = Some vec ->
  HistogramVec_GetMetricWith v tl w
  = if labelsMatch (vlabels vec) t
    then (Some (v, t), set_histogramVecs (alter (withChild [] t) v) w)
    else (None, w).
Proof.
  intros Hm Hv. unfold HistogramVec_GetMetricWith, bind, readMap.
  rewrite Hm, Hv. reflexivity.
Qed.

Lemma SummaryVec_GetMetricWith_eq v tl w t vec :
  maps w !! tl = Some t ->
  summaryVecs w !! v = Some vec ->
  SummaryVec_GetMetricWith v tl w
  = if labelsMatch (vlabels vec) t
    then (Some (v, t), set_summaryVecs (alter (withChild [] t) v) w)
    else (None, w).
Proof.
  intros Hm Hv. unfold SummaryVec_GetMetricWith, bind, readMap.
  rewrite Hm, Hv. reflexivity.
Qed.

Lemma getCounter_hit c ctx o labels w l :
  counter w !! Name o = Some l ->
  getCounter c ctx o labels w
  = (l, set_counterVecs (fun h => h ++ [mkVec o labels ∅]) w).
Proof.
  intros Hc. unfold getCounter, bind, NewCounterVec, counter_LoadOrStore, LoadOrStore.
  simpl. rewrite Hc. simpl. unfold ret, set_counter, set_counterVecs. reflexivity.
Qed.

Lemma getCounter_miss c ctx o labels w :
  counter w !! Name o = None ->
  getCounter c ctx o labels w
  = (length (counterVecs w),
     register_world c (OfCounterVec (length (counterVecs w)))
       (mkDesc (Name o) (Help o) (ConstLabels o) labels) (Name o) "register_counter"
       (set_counter (insert (Name o) (length (counterVecs w)))
          (set_counterVecs (fun h => h ++ [mkVec o labels ∅]) w))).
Proof.
  intros Hc. unfold getCounter, bind, NewCounterVec, counter_LoadOrStore, LoadOrStore.
  simpl. rewrite Hc. simpl.
  erewrite register_eq; [reflexivity|].
  simpl. rewrite lookup_app_last. reflexivity.
Qed.

Lemma getGauge_hit c ctx o labels w l :
  gauge w !! Name o = Some l ->
  getGauge c ctx o labels w
  = (l, set_gaugeVecs (fun h => h ++ [mkVec o labels ∅]) w).
Proof.
  intros Hc. unfold getGauge, bind, NewGaugeVec, gauge_LoadOrStore, LoadOrStore.
  simpl. rewrite Hc. simpl. unfold ret, set_gauge, set_gaugeVecs. reflexivity.
Qed.

Lemma getGauge_miss c ctx o labels w :
  gauge w !! Name o = None ->
  getGauge c ctx o labels w
  = (length (gaugeVecs w),
     register_world c (OfGaugeVec (length (gaugeVecs w)))
       (mkDesc (Name o) (Help o) (ConstLabels o) labels) (Name o) "register_gauge"
       (set_gauge (insert (Name o) (length (gaugeVecs w)))
          (set_gaugeVecs (fun h => h ++ [mkVec o labels ∅]) w))).
Proof.
  intros Hc. unfold getGauge, bind, NewGaugeVec, gauge_LoadOrStore, LoadOrStore.
  simpl. rewrite Hc. simpl.
  erewrite register_eq; [reflexivity|].
  simpl. rewrite lookup_app_last. reflexivity.
Qed.

Lemma getHistogram_hit c ctx o labels w e :
  histogram w !! hName o = Some e ->
  getHistogram c ctx o labels w
  = (e, set_histogramVecs (fun h => h ++ [mkVec o labels ∅]) w).
Proof.
  intros Hc. unfold getHistogram, bind, NewHistogramVec, histogram_LoadOrStore, LoadOrStore.
  simpl. rewrite Hc. simpl. unfold ret, set_histogram, set_histogramVecs. reflexivity.
Qed.

Lemma getHistogram_miss c ctx o labels w :
  histogram w !! hName o = None ->
  getHistogram c ctx o labels w
  = ((length (histogramVecs w), o),
     register_world c (OfHistogramVec (length (histogramVecs w)))
       (mkDesc (hName o) (hHelp o) (hConstLabels o) labels) (hName o) "register_histogram"
       (set_histogram (insert (hName o) (length (histogramVecs w), o))
          (set_histogramVecs (fun h => h ++ [mkVec o labels ∅]) w))).
Proof.
  intros Hc. unfold getHistogram, bind, NewHistogramVec, histogram_LoadOrStore, LoadOrStore.
  simpl. rewrite Hc. simpl.
  erewrite register_eq; [reflexivity|].
  simpl. rewrite lookup_app_last. reflexivity.
Qed.

Lemma getSummary_hit c ctx o labels w e :
  summary w !! sName o = Some e ->
  getSummary c ctx o labels w
  = (e, set_summaryVecs (fun h => h ++ [mkVec o labels ∅]) w).
Proof.
  intros Hc. unfold getSummary, bind, NewSummaryVec, summary_LoadOrStore, LoadOrStore.
  simpl. rewrite Hc. simpl. unfold ret, set_summary, set_summaryVecs. reflexivity.
Qed.

Lemma getSummary_miss c ctx o labels w :
  summary w !! sName o = None ->
  getSummary c ctx o labels w
  = ((length (summaryVecs w), o),
     register_world c (OfSummaryVec (length (summaryVecs w)))
       (mkDesc (sName o) (sHelp o) (sConstLabels o) labels) (sName o) "register_summary"
       (set_summary (insert (sName o) (length (summaryVecs w), o))
          (set_summaryVecs (fun h => h ++ [mkVec o labels ∅]) w))).
Proof.
  intros Hc. unfold getSummary, bind, NewSummaryVec, summary_LoadOrStore, LoadOrStore.
  simpl. rewrite Hc. simpl.
  erewrite register_eq; [reflexivity|].
  simpl. rewrite lookup_app_last. reflexivity.
Qed.

Lemma drift_step c ctx fq stored requested w :
  (if negb (slices_Equal stored requested)
   then let* _ := recordErr c fq "histogram_buckets_mismatch" in
        logger ctx "histogram_buckets_mismatch" fq
   else ret tt) w
  = (tt, drift_world c fq stored requested w).
Proof.
  unfold drift_world. destruct (negb _); [|reflexivity].
  unfold bind. rewrite recordErr_eq. reflexivity.
Qed.

Lemma objectives_step c ctx fq stored requested w :
  (if negb (maps_Equal stored requested)
   then let* _ := recordErr c fq "summary_objectives_mismatch" in
        logger ctx "summary_objectives_mismatch" fq
   else ret tt) w
  = (tt, objectives_world c fq stored requested w).
Proof.
  unfold objectives_world. destruct (negb _); [|reflexivity].
  unfold bind. rewrite recordErr_eq. reflexivity.
Qed.

Section RecordN_cases.
Context (c : client) (ctx : Context) (name desc : string) (value : float64)
        (kvs : list string) (w : World).
Local Abbreviation opt := (prometheusOpt c name desc (Names.Counter (names c))).
Local Abbreviation fq := (buildFQName c name (Names.Counter (names c))).
Local Abbreviation t := (merged ctx kvs w).
Local Abbreviation w1 :=
  (set_counterVecs (fun h => h ++ [counterCand opt t]) (tags_world ctx kvs w)).

Lemma RecordN_hit l vec :
  counter w !! fq = Some l ->
  counterVecs w !! l = Some vec ->
  RecordN c ctx name desc value kvs w
  = (tt, if labelsMatch (vlabels vec) t
         then set_counterVecs (alter (addTo value t) l) w1
         else set_trace (fun tr => tr ++ [LogEv "get_counter|GetMetricWithLabelFailed" fq])
                (recordErr_world c fq "get_counter" w1)).
Proof.
  intros Hc Hv. unfold RecordN.
  rewrite (bind_eq _ _ _ _ _ (tags_eq ctx kvs w)).
  erewrite bind_eq; [|apply getCounter_hit; exact Hc].
  destruct (labelsMatch (vlabels vec) t) eqn:Hm.
  - erewrite bind_eq; cycle 1.
    { erewrite CounterVec_GetMetricWith_eq; [rewrite Hm; reflexivity| |].
      - apply lookup_tags_world.
      - simpl. apply lookup_app_l_Some, Hv. }
    unfold Counter_Add. unfold_setters. simpl.
    rewrite list_alter_alter_eq. reflexivity.
  - erewrite bind_eq; cycle 1.
    { erewrite CounterVec_GetMetricWith_eq; [rewrite Hm; reflexivity| |].
      - apply lookup_tags_world.
      - simpl. apply lookup_app_l_Some, Hv. }
    unfold bind. rewrite recordErr_eq. reflexivity.
Qed.

Lemma RecordN_miss :
  counter w !! fq = None ->
  RecordN c ctx name desc value kvs w
  = (tt, set_counterVecs (alter (addTo value t) (length (counterVecs w)))
           (register_world c (OfCounterVec (length (counterVecs w)))
              (mkDesc fq desc (constLabels c) (keys_of t)) fq "register_counter"
              (set_counter (insert fq (length (counterVecs w))) w1))).
Proof.
  intros Hc. unfold RecordN.
  rewrite (bind_eq _ _ _ _ _ (tags_eq ctx kvs w)).
  erewrite bind_eq; [|apply getCounter_miss; exact Hc].
  erewrite bind_eq; cycle 1.
  { erewrite CounterVec_GetMetricWith_eq; cycle 1.
    - apply maps_register_world. apply lookup_tags_world.
    - apply counterVecs_register_world. simpl. apply lookup_app_last.
    - simpl. rewrite labelsMatch_keys. reflexivity. }
  unfold Counter_Add. unfold_setters. simpl.
  rewrite list_alter_alter_eq. reflexivity.
Qed.
End RecordN_cases.

Section Store_cases.
Context (c : client) (ctx : Context) (name desc : string) (value : float64)
        (kvs : list string) (w : World).
Local Abbreviation opt := (prometheusOpt c name desc (Names.Gauge (names c))).
Local Abbreviation fq := (buildFQName c name (Names.Gauge (names c))).
Local Abbreviation t := (merged ctx kvs w).
Local Abbreviation w1 :=
  (set_gaugeVecs (fun h => h ++ [gaugeCand opt t]) (tags_world ctx kvs w)).

Lemma Store_hit l vec :
  gauge w !! fq = Some l ->
  gaugeVecs w !! l = Some vec ->
  Store c ctx name desc value kvs w
  = (tt, if labelsMatch (vlabels vec) t
         then set_gaugeVecs (alter (setTo value t) l) w1
         else set_trace (fun tr => tr ++ [LogEv "get_gauge|GetMetricWithLabelFailed" fq])
                (recordErr_world c fq "get_gauge" w1)).
Proof.
  intros Hc Hv. unfold Store.
  rewrite (bind_eq _ _ _ _ _ (tags_eq ctx kvs w)).
  erewrite bind_eq; [|apply getGauge_hit; exact Hc].
  destruct (labelsMatch (vlabels vec) t) eqn:Hm.
  - erewrite bind_eq; cycle 1.
    { erewrite GaugeVec_GetMetricWith_eq; [rewrite Hm; reflexivity| |].
      - apply lookup_tags_world.
      - simpl. apply lookup_app_l_Some, Hv. }
    unfold Gauge_Set. unfold_setters. simpl.
    rewrite list_alter_alter_eq. reflexivity.
  - erewrite bind_eq; cycle 1.
    { erewrite GaugeVec_GetMetricWith_eq; [rewrite Hm; reflexivity| |].
      - apply lookup_tags_world.
      - simpl. apply lookup_app_l_Some, Hv. }
    unfold bind. rewrite recordErr_eq. reflexivity.
Qed.

Lemma Store_miss :
  gauge w !! fq = None ->
  Store c ctx name desc value kvs w
  = (tt, set_gaugeVecs (alter (setTo value t) (length (gaugeVecs w)))
           (register_world c (OfGaugeVec (length (gaugeVecs w)))
              (mkDesc fq desc (constLabels c) (keys_of t)) fq "register_gauge"
              (set_gauge (insert fq (length (gaugeVecs w))) w1))).
Proof.
  intros Hc. unfold Store.
  rewrite (bind_eq _ _ _ _ _ (tags_eq ctx kvs w)).
  erewrite bind_eq; [|apply getGauge_miss; exact Hc].
  erewrite bind_eq; cycle 1.
  { erewrite GaugeVec_GetMetricWith_eq; cycle 1.
    - apply maps_register_world. apply lookup_tags_world.
    - rewrite gaugeVecs_register_world. simpl. apply lookup_app_last.
    - simpl. rewrite labelsMatch_keys. reflexivity. }
  unfold Gauge_Set. unfold_setters. simpl.
  rewrite list_alter_alter_eq. reflexivity.
Qed.
End Store_cases.

Section recordHistogram_cases.
Context (c : client) (ctx : Context) (opt : Opts) (value : float64)
        (buckets : list float64) (kvs : list string) (w : World).
Local Abbreviation hopt := (mkHistogramOpts (Name opt) (Help opt) (ConstLabels opt) buckets).
Local Abbreviation fq := (Name opt).
Local Abbreviation t := (merged ctx kvs w).
Local Abbreviation w1 :=
  (set_histogramVecs (fun h => h ++ [histogramCand hopt t]) (tags_world ctx kvs w)).

Lemma recordHistogram_hit l o vec :
  histogram w !! fq = Some (l, o) ->
  histogramVecs w !! l = Some vec ->
  recordHistogram c ctx opt value buckets kvs w
  = (tt, if labelsMatch (vlabels vec) t
         then set_histogramVecs (alter (observeTo value t) l)
                (drift_world c fq (Buckets o) buckets w1)
         else set_trace (fun tr => tr ++ [LogEv "get_histogram|GetMetricWithLabelFailed" fq])
                (recordErr_world c fq "get_histogram"
                   (drift_world c fq (Buckets o) buckets w1))).
Proof.
  intros Hc Hv. unfold recordHistogram.
  rewrite (bind_eq _ _ _ _ _ (tags_eq ctx kvs w)).
  erewrite bind_eq; [|apply getHistogram_hit; exact Hc].
  erewrite bind_eq; [|apply drift_step].
  simpl. destruct (labelsMatch (vlabels vec) t) eqn:Hm.
  - erewrite bind_eq; cycle 1.
    { erewrite HistogramVec_GetMetricWith_eq; [rewrite Hm; reflexivity| |].
      - apply maps_drift_world. apply lookup_tags_world.
      - rewrite histogramVecs_drift_world. simpl. apply lookup_app_l_Some, Hv. }
    unfold Histogram_Observe. unfold_setters. simpl.
    rewrite list_alter_alter_eq. reflexivity.
  - erewrite bind_eq; cycle 1.
    { erewrite HistogramVec_GetMetricWith_eq; [rewrite Hm; reflexivity| |].
      - apply maps_drift_world. apply lookup_tags_world.
      - rewrite histogramVecs_drift_world. simpl. apply lookup_app_l_Some, Hv. }
    unfold bind. rewrite recordErr_eq. reflexivity.
Qed.

Lemma recordHistogram_miss :
  histogram w !! fq = None ->
  recordHistogram c ctx opt value buckets kvs w
  = (tt, set_histogramVecs (alter (observeTo value t) (length (histogramVecs w)))
           (drift_world c fq buckets buckets
              (register_world c (OfHistogramVec (length (histogramVecs w)))
                 (mkDesc fq (Help opt) (ConstLabels opt) (keys_of t)) fq
                 "register_histogram"
                 (set_histogram (insert fq (length (histogramVecs w), hopt)) w1)))).
Proof.
  intros Hc. unfold recordHistogram.
  rewrite (bind_eq _ _ _ _ _ (tags_eq ctx kvs w)).
  erewrite bind_eq; [|apply getHistogram_miss; exact Hc].
  erewrite bind_eq; [|apply drift_step].
  erewrite bind_eq; cycle 1.
  { erewrite HistogramVec_GetMetricWith_eq; cycle 1.
    - apply maps_drift_world, maps_register_world. apply lookup_tags_world.
    - rewrite histogramVecs_drift_world, histogramVecs_register_world.
      simpl. apply lookup_app_last.
    - simpl. rewrite labelsMatch_keys. reflexivity. }
  unfold Histogram_Observe. unfold_setters. simpl.
  rewrite list_alter_alter_eq. reflexivity.
Qed.
End recordHistogram_cases.

Section recordSummary_cases.
Context (c : client) (ctx : Context) (opt : Opts) (value : float64)
        (objectives : Objectives) (kvs : list string) (w : World).
Local Abbreviation sopt := (mkSummaryOpts (Name opt) (Help opt) (ConstLabels opt) objectives).
Local Abbreviation fq := (Name opt).
Local Abbreviation t := (merged ctx kvs w).
Local Abbreviation w1 :=
  (set_summaryVecs (fun h => h ++ [summaryCand sopt t]) (tags_world ctx kvs w)).

Lemma recordSummary_hit l o vec :
  summary w !! fq = Some (l, o) ->
  summaryVecs w !! l = Some vec ->
  recordSummary c ctx opt value objectives kvs w
  = (tt, if labelsMatch (vlabels vec) t
         then set_summaryVecs (alter (summarize value t) l)
                (objectives_world c fq (sObjectives o) objectives w1)
         else set_trace (fun tr => tr ++ [LogEv "get_summary|GetMetricWithLabelFailed" fq])
                (recordErr_world c fq "get_summary"
                   (objectives_world c fq (sObjectives o) objectives w1))).
Proof.
  intros Hc Hv. unfold recordSummary.
  rewrite (bind_eq _ _ _ _ _ (tags_eq ctx kvs w)).
  erewrite bind_eq; [|apply getSummary_hit; exact Hc].
  erewrite bind_eq; [|apply objectives_step].
  simpl. destruct (labelsMatch (vlabels vec) t) eqn:Hm.
  - erewrite bind_eq; cycle 1.
    { erewrite SummaryVec_GetMetricWith_eq; [rewrite Hm; reflexivity| |].
      - apply maps_objectives_world. apply lookup_tags_world.
      - rewrite summaryVecs_objectives_world. simpl. apply lookup_app_l_Some, Hv. }
    unfold Summary_Observe. unfold_setters. simpl.
    rewrite list_alter_alter_eq. reflexivity.
  - erewrite bind_eq; cycle 1.
    { erewrite SummaryVec_GetMetricWith_eq; [rewrite Hm; reflexivity| |].
      - apply maps_objectives_world. apply lookup_tags_world.
      - rewrite summaryVecs_objectives_world. simpl. apply lookup_app_l_Some, Hv. }
    unfold bind. rewrite recordErr_eq. reflexivity.
Qed.
End recordSummary_cases.

(** ** NameNormalizer *)

Lemma safe_rest_lt a : Name.safe_rest a = true -> (Runes.byte_val a <? 0x80) = true.
Proof.
  unfold Name.safe_rest, Name.safe_start. intros H. apply Z.ltb_lt.
  rewrite !orb_true_iff, !andb_true_iff, !Z.leb_le, !Z.eqb_eq in H. lia.
Qed.

Lemma safe_rest_valid a i :
  (0 < i)%nat -> Name.safe_rest a = true ->
  Name.isValidLegacyRune (Runes.byte_val a) i = true.
Proof.
  unfold Name.safe_rest, Name.safe_start, Name.isValidLegacyRune. intros Hi H.
  apply Nat.ltb_lt in Hi. rewrite Hi, andb_true_r.
  rewrite !orb_true_iff in *. tauto.
Qed.

Lemma safe_start_valid a :
  Name.safe_start a = true -> Name.isValidLegacyRune (Runes.byte_val a) 0 = true.
Proof.
  unfold Name.safe_start, Name.isValidLegacyRune. intros H.
  rewrite !orb_true_iff in *. tauto.
Qed.

Lemma safe_start_rest a : Name.safe_start a = true -> Name.safe_rest a = true.
Proof. unfold Name.safe_rest. intros ->. reflexivity. Qed.

(** On a string of safe characters the [range] loop yields the bytes one
    by one, and each is a legal rune at its position. *)
Lemma range_safe_valid (r : list ascii) : forall fuel i,
  (length r <= fuel)%nat -> (0 < i)%nat ->
  forallb Name.safe_rest r = true ->
  forallb (fun '(i, b) => Name.isValidLegacyRune b i)
          (Runes.range_from fuel i (map Runes.byte_val r)) = true.
Proof.
  induction r as [|a r IH]; intros fuel i Hlen Hi Hall.
  - destruct fuel; reflexivity.
  - destruct fuel as [|fuel]; [simpl in Hlen; lia|].
    simpl in Hall. apply andb_true_iff in Hall as [Ha Hr].
    cbn [map Runes.range_from Runes.DecodeRune].
    rewrite (safe_rest_lt a Ha). cbn [forallb drop].
    rewrite (safe_rest_valid a i Hi Ha). simpl.
    apply IH; [simpl in Hlen; lia | lia | exact Hr].
Qed.

Lemma safe_pattern_valid s :
  Name.matches_safe_pattern s = true -> Name.IsValidLegacyMetricName s = true.
Proof.
  destruct s as [|a r]; [discriminate|]. simpl. intros H.
  apply andb_true_iff in H as [Ha Hr].
  unfold Name.IsValidLegacyMetricName. cbn [String.length Nat.eqb].
  unfold Runes.range_string, Runes.bytes_of.
  cbn [list_ascii_of_string map length Runes.range_from Runes.DecodeRune].
  rewrite (safe_rest_lt a (safe_start_rest a Ha)). cbn [forallb drop].
  rewrite (safe_start_valid a Ha). simpl.
  apply range_safe_valid; [by rewrite length_map | lia | exact Hr].
Qed.

(** C9: [escape] returns unchanged every string matching
    [^[A-Za-z_:][A-Za-z0-9_:]*$] (so it is idempotent on safe strings) and
    maps the six literal vectors of the specification to the stated
    results. *)
Theorem escape_safe_identity_and_vectors :
  (forall s, Name.matches_safe_pattern s = true -> Name.EscapeName s = s)
  /\ (forall s, Name.matches_safe_pattern s = true ->
        Name.EscapeName (Name.EscapeName s) = Name.EscapeName s)
  /\ Name.EscapeName "" = ""
  /\ Name.EscapeName "abc" = "abc"
  /\ Name.EscapeName "a_b:c" = "a_b:c"
  /\ Name.EscapeName "0a_b:c" = "U___30_a_b:c"
  /\ Name.EscapeName "abc 中文" = "U__abc_20__4e2d__6587_"
  /\ Name.EscapeName "总量" = "U___603b__91cf_".
Proof.
  assert (Hid : forall s, Name.matches_safe_pattern s = true -> Name.EscapeName s = s).
  { intros s Hs. unfold Name.EscapeName.
    rewrite (safe_pattern_valid s Hs). by destruct (String.length s =? 0)%nat. }
  split; [exact Hid|]. split; [intros s Hs; by rewrite !(Hid s Hs)|].
  repeat split; vm_compute; reflexivity.
Qed.

Lemma escape_safe_identity_witness : Name.EscapeName "a_b:c" = "a_b:c".
Proof.
  apply (proj1 escape_safe_identity_and_vectors). vm_compute. reflexivity.
Defined.

Lemma string_app_assoc (a b c : string) : (a +:+ b) +:+ c = a +:+ b +:+ c.
Proof.
  induction a as [|x a IH]; [reflexivity|].
  transitivity (String x ((a +:+ b) +:+ c)); [reflexivity|].
  rewrite IH. reflexivity.
Qed.

(** C5: the fully-qualified name is the join with [":"] of the non-empty
    members of [namespace, subsystem, kindPrefix + escape(rawName) +
    kindSuffix], for every raw name and every kind; a client built with
    namespace ["ns"], subsystem ["sub"] and the default appends names the
    counter ["reqs"] ["ns:sub:counter:reqs"], and its first increment
    creates the family of that name without labels. *)
Theorem buildFQName_joins_non_empty :
  (forall c name na,
     buildFQName c name na
     = spec_fqName (namespace c) (subsystem c) (Prefix na) (Suffix na) name)
  /\ (forall c name desc na,
        Name (prometheusOpt c name desc na)
        = spec_fqName (namespace c) (subsystem c) (Prefix na) (Suffix na) name)
  /\ (let c := NewClient [WithNamespace "ns"; WithSubsystem "sub"] in
      buildFQName c "reqs" (Names.Counter (names c)) = "ns:sub:counter:reqs"
      /\ let w := snd (Record c Background "reqs" "count" [] emptyWorld) in
         exists l vec,
           counter w !! "ns:sub:counter:reqs" = Some l
           /\ dom (counter w) = {[ "ns:sub:counter:reqs" ]}
           /\ counterVecs w !! l = Some vec
           /\ vlabels vec = []
           /\ Name (vopts vec) = "ns:sub:counter:reqs").
Proof.
  assert (H : forall c name na,
     buildFQName c name na
     = spec_fqName (namespace c) (subsystem c) (Prefix na) (Suffix na) name).
  { intros c name na. unfold buildFQName, spec_fqName, IsNotZero. cbn [List.filter].
    destruct (String.eqb (namespace c) ""), (String.eqb (subsystem c) ""),
      (String.eqb (Prefix na +:+ Name.EscapeName name +:+ Suffix na) "") eqn:E;
      try reflexivity.
    - apply String.eqb_eq in E. rewrite E. reflexivity.
    - cbn [strings_Join fold_left negb]. rewrite !string_app_assoc. reflexivity. }
  split; [exact H|]. split; [intros; apply H|].
  split; [vm_compute; reflexivity|].
  eexists _, _. repeat split; vm_compute; reflexivity.
Qed.

(** ** LabelContext *)

Lemma apply_pairs_snoc (m : Labels) ps k v :
  apply_pairs m (ps ++ [(k, v)]) = <[k := v]> (apply_pairs m ps).
Proof. unfold apply_pairs. by rewrite fold_left_app. Qed.

Lemma lookup_after_CtxAddLabels ctx kvs w l :
  (l < length (maps w))%nat ->
  maps (tags_world ctx kvs w) !! l = maps w !! l.
Proof.
  intros Hl. unfold tags_world, set_maps. simpl.
  rewrite <- app_assoc. by rewrite lookup_app_l.
Qed.

Lemma apply_pairs_lookup (ps : list (string * string)) : forall (m : Labels) k,
  apply_pairs m ps !! k
  = match pairs_lookup ps k with Some v => Some v | None => m !! k end.
Proof.
  induction ps as [|[k' v] ps IH]; intros m k; [reflexivity|].
  unfold apply_pairs in *. cbn [fold_left fst snd pairs_lookup]. rewrite IH.
  destruct (pairs_lookup ps k); [reflexivity|].
  destruct (String.eqb_spec k' k) as [->|Hne].
  - apply lookup_insert_eq.
  - by apply lookup_insert_ne.
Qed.

Lemma kv_pairs_odd_tail_le (n : nat) : forall (kvs : list string) x,
  (length kvs <= n)%nat ->
  Nat.Even (length kvs) -> kv_pairs (kvs ++ [x]) = kv_pairs kvs.
Proof.
  induction n as [|n IH]; intros kvs x Hlen Hev.
  - destruct kvs; [reflexivity | simpl in Hlen; lia].
  - destruct kvs as [|k [|v rest]].
    + reflexivity.
    + destruct Hev as [m Hm]. simpl in Hm. lia.
    + simpl. f_equal. apply IH; [simpl in Hlen; lia|].
      destruct Hev as [m Hm]. simpl in Hm. exists (m - 1)%nat. lia.
Qed.

Lemma kv_pairs_odd_tail (kvs : list string) x :
  Nat.Even (length kvs) -> kv_pairs (kvs ++ [x]) = kv_pairs kvs.
Proof. by apply (kv_pairs_odd_tail_le (length kvs)). Qed.

(** C6: [CtxAddLabels] returns a new context whose map is a new object
    holding the original's labels (none for a context without labels) with
    the consecutive pairs of [kvs] applied in order: a key takes the value
    of its last pair, an unpaired last element is dropped.  No map that
    existed before is changed, so the labels seen through the original
    context are the same as before. *)
Theorem CtxAddLabels_merges_into_a_clone ctx kvs w :
  ctx_valid ctx w ->
  let ctx' := fst (CtxAddLabels ctx kvs w) in
  let w' := snd (CtxAddLabels ctx kvs w) in
  ctx_labels ctx' w' = apply_pairs (ctx_labels ctx w) (kv_pairs kvs)
  /\ (forall k, ctx_labels ctx' w' !! k
                = match pairs_lookup (kv_pairs kvs) k with
                  | Some v => Some v
                  | None => ctx_labels ctx w !! k
                  end)
  /\ (forall x, Nat.Even (length kvs) ->
        CtxAddLabels ctx (kvs ++ [x]) w = CtxAddLabels ctx kvs w)
  /\ ctx_labels ctx w' = ctx_labels ctx w
  /\ (forall l, (l < length (maps w))%nat -> maps w' !! l = maps w !! l)
  /\ (exists l, ctx_Value ctx' = Some l /\ (length (maps w) <= l)%nat)
  /\ ctx_valid ctx' w'.
Proof.
  intros Hv ctx' w'. subst ctx' w'. rewrite CtxAddLabels_eq. cbn [fst snd].
  assert (Hnew : ctx_labels (WithValue ctx (tags_loc ctx w)) (tags_world ctx kvs w)
                 = merged ctx kvs w).
  { unfold ctx_labels, tags_world, set_maps. simpl.
    by rewrite lookup_tags_world. }
  split; [exact Hnew|]. split.
  { intros k. rewrite Hnew. apply apply_pairs_lookup. }
  split.
  { intros x Hev. rewrite !CtxAddLabels_eq. unfold tags_world, merged.
    by rewrite kv_pairs_odd_tail. }
  split.
  { unfold ctx_labels, ctx_valid in *. destruct (ctx_Value ctx) as [l|]; [|done].
    by rewrite lookup_after_CtxAddLabels. }
  split; [intros l Hl; by apply lookup_after_CtxAddLabels|].
  split.
  { exists (tags_loc ctx w). split; [done|]. unfold tags_loc. lia. }
  unfold ctx_valid, tags_world, set_maps, tags_loc. simpl.
  rewrite !length_app. simpl. lia.
Qed.

(** Two merges in a row on the same key: the later value is the one kept,
    and the first context still shows the earlier one. *)
Lemma CtxAddLabels_precedence_witness :
  let r1 := CtxAddLabels Background ["k1"; "v1"] emptyWorld in
  let r2 := CtxAddLabels (fst r1) ["k1"; "v2"; "odd"] (snd r1) in
  ctx_labels (fst r2) (snd r2) !! "k1" = Some "v2"
  /\ ctx_labels (fst r1) (snd r2) !! "k1" = Some "v1".
Proof.
  intros r1 r2.
  assert (Hv : ctx_valid (fst r1) (snd r1)) by (vm_compute; lia).
  pose proof (CtxAddLabels_merges_into_a_clone (fst r1) ["k1"; "v2"; "odd"] (snd r1) Hv)
    as H.
  cbv zeta in H. fold r2 in H. destruct H as (_ & Hk & _ & Hsame & _).
  split.
  - rewrite (Hk "k1"). reflexivity.
  - rewrite Hsame. vm_compute. reflexivity.
Defined.

(** ** Label schema of a family *)

Lemma errs_app_trace w (evs : list Event) (f : list Event -> list Event) :
  (forall t, f t = t ++ evs) ->
  errs (set_trace f w)
  = errs w ++ omap (fun e => match e with ErrEv n k => Some (n, k) | _ => None end) evs.
Proof. intros Hf. unfold errs. simpl. by rewrite Hf, omap_app. Qed.

Lemma errs_recordErr_world c name kind w :
  errs (recordErr_world c name kind w) = errs w ++ [(name, kind)].
Proof. unfold errs. simpl. by rewrite omap_app. Qed.

Lemma logs_recordErr_world c name kind w :
  logs (recordErr_world c name kind w) = logs w.
Proof. unfold logs. simpl. rewrite omap_app. simpl. by rewrite app_nil_r. Qed.

Lemma errs_log w msg name :
  errs (set_trace (fun tr => tr ++ [LogEv msg name]) w) = errs w.
Proof. unfold errs. simpl. rewrite omap_app. simpl. by rewrite app_nil_r. Qed.

Lemma logs_log w msg name :
  logs (set_trace (fun tr => tr ++ [LogEv msg name]) w) = logs w ++ [(msg, name)].
Proof. unfold logs. simpl. by rewrite omap_app. Qed.

Lemma RecordN_schema c ctx name desc value kvs w l vec t0 :
  counter w !! buildFQName c name (Names.Counter (names c)) = Some l ->
  counterVecs w !! l = Some vec ->
  vlabels vec = keys_of t0 ->
  let opt := prometheusOpt c name desc (Names.Counter (names c)) in
  let t := merged ctx kvs w in
  let w' := snd (RecordN c ctx name desc value kvs w) in
  (dom t <> dom t0 ->
     counterVecs w' = counterVecs w ++ [counterCand opt t; errVec c (Name opt) "get_counter"]
     /\ gaugeVecs w' = gaugeVecs w /\ histogramVecs w' = histogramVecs w
     /\ summaryVecs w' = summaryVecs w
     /\ counter w' = counter w
     /\ errs w' = errs w ++ [(Name opt, "get_counter")]
     /\ logs w' = logs w ++ [("get_counter|GetMetricWithLabelFailed", Name opt)])
  /\ (dom t = dom t0 ->
     counterVecs w' = <[l := addTo value t vec]> (counterVecs w) ++ [counterCand opt t]
     /\ counter w' = counter w
     /\ errs w' = errs w /\ logs w' = logs w).
Proof.
  intros Hc Hv Hl. cbv zeta. rewrite (RecordN_hit _ _ _ _ _ _ _ _ _ Hc Hv).
  rewrite Hl. split; intros Hd.
  - rewrite labelsMatch_keys_of_false by done. cbn [snd].
    rewrite errs_log, logs_log, errs_recordErr_world, logs_recordErr_world.
    simpl. rewrite <- app_assoc. done.
  - rewrite (proj2 (labelsMatch_keys_of t0 _) Hd). cbn [snd].
    unfold errs, logs. simpl. split; [|done].
    rewrite alter_app_l by (by eapply lookup_lt_Some).
    by rewrite (insert_eq_alter _ _ _ _ Hv).
Qed.

Lemma Store_schema c ctx name desc value kvs w l vec t0 :
  gauge w !! buildFQName c name (Names.Gauge (names c)) = Some l ->
  gaugeVecs w !! l = Some vec ->
  vlabels vec = keys_of t0 ->
  let opt := prometheusOpt c name desc (Names.Gauge (names c)) in
  let t := merged ctx kvs w in
  let w' := snd (Store c ctx name desc value kvs w) in
  (dom t <> dom t0 ->
     gaugeVecs w' = gaugeVecs w ++ [gaugeCand opt t]
     /\ counterVecs w' = counterVecs w ++ [errVec c (Name opt) "get_gauge"]
     /\ histogramVecs w' = histogramVecs w /\ summaryVecs w' = summaryVecs w
     /\ gauge w' = gauge w
     /\ errs w' = errs w ++ [(Name opt, "get_gauge")]
     /\ logs w' = logs w ++ [("get_gauge|GetMetricWithLabelFailed", Name opt)])
  /\ (dom t = dom t0 ->
     gaugeVecs w' = <[l := setTo value t vec]> (gaugeVecs w) ++ [gaugeCand opt t]
     /\ gauge w' = gauge w
     /\ errs w' = errs w /\ logs w' = logs w).
Proof.
  intros Hc Hv Hl. cbv zeta. rewrite (Store_hit _ _ _ _ _ _ _ _ _ Hc Hv).
  rewrite Hl. split; intros Hd.
  - rewrite labelsMatch_keys_of_false by done. cbn [snd].
    rewrite errs_log, logs_log, errs_recordErr_world, logs_recordErr_world.
    simpl. done.
  - rewrite (proj2 (labelsMatch_keys_of t0 _) Hd). cbn [snd].
    unfold errs, logs. simpl. split; [|done].
    rewrite alter_app_l by (by eapply lookup_lt_Some).
    by rewrite (insert_eq_alter _ _ _ _ Hv).
Qed.

(** The internal-error families a comparison of configurations adds. *)
Lemma counterVecs_drift_world c fq s r w :
  counterVecs (drift_world c fq s r w)
  = counterVecs w ++ (if negb (slices_Equal s r)
                      then [errVec c fq "histogram_buckets_mismatch"] else []).
Proof. unfold drift_world. destruct (negb _); simpl; by rewrite ?app_nil_r. Qed.

Lemma errs_drift_world c fq s r w :
  errs (drift_world c fq s r w)
  = errs w ++ (if negb (slices_Equal s r)
               then [(fq, "histogram_buckets_mismatch")] else []).
Proof.
  unfold drift_world. destruct (negb _); [|by rewrite app_nil_r].
  by rewrite errs_log, errs_recordErr_world.
Qed.

Lemma logs_drift_world c fq s r w :
  logs (drift_world c fq s r w)
  = logs w ++ (if negb (slices_Equal s r)
               then [("histogram_buckets_mismatch", fq)] else []).
Proof.
  unfold drift_world. destruct (negb _); [|by rewrite app_nil_r].
  by rewrite logs_log, logs_recordErr_world.
Qed.

Lemma others_drift_world c fq s r w :
  gaugeVecs (drift_world c fq s r w) = gaugeVecs w
  /\ summaryVecs (drift_world c fq s r w) = summaryVecs w
  /\ histogram (drift_world c fq s r w) = histogram w.
Proof. unfold drift_world. by destruct (negb _). Qed.

Lemma recordHistogram_schema c ctx opt value buckets kvs w l o vec t0 :
  histogram w !! Name opt = Some (l, o) ->
  histogramVecs w !! l = Some vec ->
  vlabels vec = keys_of t0 ->
  let hopt := mkHistogramOpts (Name opt) (Help opt) (ConstLabels opt) buckets in
  let t := merged ctx kvs w in
  let drift := negb (slices_Equal (Buckets o) buckets) in
  let w' := snd (recordHistogram c ctx opt value buckets kvs w) in
  (dom t <> dom t0 ->
     histogramVecs w' = histogramVecs w ++ [histogramCand hopt t]
     /\ counterVecs w'
        = counterVecs w
          ++ (if drift then [errVec c (Name opt) "histogram_buckets_mismatch"] else [])
          ++ [errVec c (Name opt) "get_histogram"]
     /\ gaugeVecs w' = gaugeVecs w /\ summaryVecs w' = summaryVecs w
     /\ histogram w' = histogram w
     /\ errs w' = errs w
                  ++ (if drift then [(Name opt, "histogram_buckets_mismatch")] else [])
                  ++ [(Name opt, "get_histogram")]
     /\ logs w' = logs w
                  ++ (if drift then [("histogram_buckets_mismatch", Name opt)] else [])
                  ++ [("get_histogram|GetMetricWithLabelFailed", Name opt)])
  /\ (dom t = dom t0 ->
     histogramVecs w'
     = <[l := observeTo value t vec]> (histogramVecs w) ++ [histogramCand hopt t]
     /\ histogram w' = histogram w
     /\ errs w' = errs w
                  ++ (if drift then [(Name opt, "histogram_buckets_mismatch")] else [])
     /\ logs w' = logs w
                  ++ (if drift then [("histogram_buckets_mismatch", Name opt)] else [])).
Proof.
  intros Hc Hv Hl. cbv zeta.
  rewrite (recordHistogram_hit _ _ _ _ _ _ _ _ _ _ Hc Hv).
  rewrite Hl. split; intros Hd.
  - rewrite labelsMatch_keys_of_false by done. cbn [snd].
    rewrite errs_log, logs_log, errs_recordErr_world, logs_recordErr_world.
    rewrite errs_drift_world, logs_drift_world.
    destruct (others_drift_world c (Name opt) (Buckets o) buckets
      (set_histogramVecs (fun h => h ++ [histogramCand (mkHistogramOpts (Name opt) (Help opt) (ConstLabels opt) buckets) (merged ctx kvs w)]) (tags_world ctx kvs w)))
      as (Hg & Hs & Hh).
    cbn [recordErr_world set_trace histogramVecs counterVecs gaugeVecs summaryVecs
         histogram].
    rewrite histogramVecs_drift_world, counterVecs_drift_world, Hg, Hs, Hh.
    rewrite <- !app_assoc. done.
  - rewrite (proj2 (labelsMatch_keys_of t0 _) Hd). cbn [snd].
    destruct (others_drift_world c (Name opt) (Buckets o) buckets
      (set_histogramVecs (fun h => h ++ [histogramCand (mkHistogramOpts (Name opt) (Help opt) (ConstLabels opt) buckets) (merged ctx kvs w)]) (tags_world ctx kvs w)))
      as (Hg & Hs & Hh).
    assert (He : forall f x, errs (set_histogramVecs f x) = errs x) by done.
    assert (Hlg : forall f x, logs (set_histogramVecs f x) = logs x) by done.
    rewrite He, Hlg, errs_drift_world, logs_drift_world.
    cbn [set_histogramVecs histogramVecs histogram].
    rewrite histogramVecs_drift_world, Hh. split; [|done].
    simpl. rewrite alter_app_l by (by eapply lookup_lt_Some).
    by rewrite (insert_eq_alter _ _ _ _ Hv).
Qed.

Lemma counterVecs_objectives_world c fq s r w :
  counterVecs (objectives_world c fq s r w)
  = counterVecs w ++ (if negb (maps_Equal s r)
                      then [errVec c fq "summary_objectives_mismatch"] else []).
Proof. unfold objectives_world. destruct (negb _); simpl; by rewrite ?app_nil_r. Qed.

Lemma errs_objectives_world c fq s r w :
  errs (objectives_world c fq s r w)
  = errs w ++ (if negb (maps_Equal s r)
               then [(fq, "summary_objectives_mismatch")] else []).
Proof.
  unfold objectives_world. destruct (negb _); [|by rewrite app_nil_r].
  by rewrite errs_log, errs_recordErr_world.
Qed.

Lemma logs_objectives_world c fq s r w :
  logs (objectives_world c fq s r w)
  = logs w ++ (if negb (maps_Equal s r)
               then [("summary_objectives_mismatch", fq)] else []).
Proof.
  unfold objectives_world. destruct (negb _); [|by rewrite app_nil_r].
  by rewrite logs_log, logs_recordErr_world.
Qed.

Lemma others_objectives_world c fq s r w :
  gaugeVecs (objectives_world c fq s r w) = gaugeVecs w
  /\ histogramVecs (objectives_world c fq s r w) = histogramVecs w
  /\ summary (objectives_world c fq s r w) = summary w.
Proof. unfold objectives_world. by destruct (negb _). Qed.

Lemma recordSummary_schema c ctx opt value objectives kvs w l o vec t0 :
  summary w !! Name opt = Some (l, o) ->
  summaryVecs w !! l = Some vec ->
  vlabels vec = keys_of t0 ->
  let sopt := mkSummaryOpts (Name opt) (Help opt) (ConstLabels opt) objectives in
  let t := merged ctx kvs w in
  let drift := negb (maps_Equal (sObjectives o) objectives) in
  let w' := snd (recordSummary c ctx opt value objectives kvs w) in
  (dom t <> dom t0 ->
     summaryVecs w' = summaryVecs w ++ [summaryCand sopt t]
     /\ counterVecs w'
        = counterVecs w
          ++ (if drift then [errVec c (Name opt) "summary_objectives_mismatch"] else [])
          ++ [errVec c (Name opt) "get_summary"]
     /\ gaugeVecs w' = gaugeVecs w /\ histogramVecs w' = histogramVecs w
     /\ summary w' = summary w
     /\ errs w' = errs w
                  ++ (if drift then [(Name opt, "summary_objectives_mismatch")] else [])
                  ++ [(Name opt, "get_summary")]
     /\ logs w' = logs w
                  ++ (if drift then [("summary_objectives_mismatch", Name opt)] else [])
                  ++ [("get_summary|GetMetricWithLabelFailed", Name opt)])
  /\ (dom t = dom t0 ->
     summaryVecs w'
     = <[l := summarize value t vec]> (summaryVecs w) ++ [summaryCand sopt t]
     /\ summary w' = summary w
     /\ errs w' = errs w
                  ++ (if drift then [(Name opt, "summary_objectives_mismatch")] else [])
     /\ logs w' = logs w
                  ++ (if drift then [("summary_objectives_mismatch", Name opt)] else [])).
Proof.
  intros Hc Hv Hl. cbv zeta.
  rewrite (recordSummary_hit _ _ _ _ _ _ _ _ _ _ Hc Hv).
  rewrite Hl. split; intros Hd.
  - rewrite labelsMatch_keys_of_false by done. cbn [snd].
    rewrite errs_log, logs_log, errs_recordErr_world, logs_recordErr_world.
    rewrite errs_objectives_world, logs_objectives_world.
    destruct (others_objectives_world c (Name opt) (sObjectives o) objectives
      (set_summaryVecs (fun h => h ++ [summaryCand (mkSummaryOpts (Name opt) (Help opt)
         (ConstLabels opt) objectives) (merged ctx kvs w)]) (tags_world ctx kvs w)))
      as (Hg & Hs & Hh).
    cbn [recordErr_world set_trace histogramVecs counterVecs gaugeVecs summaryVecs
         summary].
    rewrite summaryVecs_objectives_world, counterVecs_objectives_world, Hg, Hs, Hh.
    rewrite <- !app_assoc. done.
  - rewrite (proj2 (labelsMatch_keys_of t0 _) Hd). cbn [snd].
    destruct (others_objectives_world c (Name opt) (sObjectives o) objectives
      (set_summaryVecs (fun h => h ++ [summaryCand (mkSummaryOpts (Name opt) (Help opt)
         (ConstLabels opt) objectives) (merged ctx kvs w)]) (tags_world ctx kvs w)))
      as (Hg & Hs & Hh).
    assert (He : forall f x, errs (set_summaryVecs f x) = errs x) by done.
    assert (Hlg : forall f x, logs (set_summaryVecs f x) = logs x) by done.
    rewrite He, Hlg, errs_objectives_world, logs_objectives_world.
    cbn [set_summaryVecs summaryVecs summary].
    rewrite summaryVecs_objectives_world, Hh. split; [|done].
    simpl. rewrite alter_app_l by (by eapply lookup_lt_Some).
    by rewrite (insert_eq_alter _ _ _ _ Hv).
Qed.

(** The family a first use leaves in the cache: built from the merged
    labels of that call. *)
Lemma RecordN_first_use c ctx name desc value kvs w :
  counter w !! buildFQName c name (Names.Counter (names c)) = None ->
  let opt := prometheusOpt c name desc (Names.Counter (names c)) in
  let t := merged ctx kvs w in
  let w' := snd (RecordN c ctx name desc value kvs w) in
  counter w' = <[Name opt := length (counterVecs w)]> (counter w)
  /\ counterVecs w' !! length (counterVecs w) = Some (addTo value t (counterCand opt t))
  /\ (forall i v, counterVecs w !! i = Some v -> counterVecs w' !! i = Some v).
Proof.
  intros Hc. cbv zeta. rewrite (RecordN_miss _ _ _ _ _ _ _ Hc). cbn [snd].
  unfold register_world.
  destruct (registerCheck _ _); simpl.
  - split; [done|]. split.
    + rewrite list_lookup_alter_eq.
      erewrite lookup_app_l_Some; [done|]. apply lookup_app_last.
    + intros i v Hi. rewrite list_lookup_alter_ne.
      * rewrite <- app_assoc. by apply lookup_app_l_Some.
      * apply lookup_lt_Some in Hi. lia.
  - split; [done|]. split.
    + rewrite list_lookup_alter_eq. by rewrite lookup_app_last.
    + intros i v Hi. rewrite list_lookup_alter_ne.
      * by apply lookup_app_l_Some.
      * apply lookup_lt_Some in Hi. lia.
Qed.

(** C2: an observation whose merged label keys are not exactly the keys
    fixed when the family was first used records nothing: no family that
    existed is changed, the only new children are those of the
    internal-error counter, [recordErr] and the logger are called once
    each for the failed lookup, and the call returns normally; an
    observation with exactly the fixed keys, whatever the values, is
    recorded in the stored family.  This holds on each of the four
    recording paths. *)
Theorem label_schema_mismatch_is_dropped :
  (forall c ctx name desc value kvs w l vec t0,
     counter w !! buildFQName c name (Names.Counter (names c)) = Some l ->
     counterVecs w !! l = Some vec ->
     vlabels vec = keys_of t0 ->
     let opt := prometheusOpt c name desc (Names.Counter (names c)) in
     let t := merged ctx kvs w in
     let w' := snd (RecordN c ctx name desc value kvs w) in
     (dom t <> dom t0 ->
        counterVecs w'
        = counterVecs w ++ [counterCand opt t; errVec c (Name opt) "get_counter"]
        /\ gaugeVecs w' = gaugeVecs w /\ histogramVecs w' = histogramVecs w
        /\ summaryVecs w' = summaryVecs w
        /\ counter w' = counter w
        /\ errs w' = errs w ++ [(Name opt, "get_counter")]
        /\ logs w' = logs w ++ [("get_counter|GetMetricWithLabelFailed", Name opt)])
     /\ (dom t = dom t0 ->
        counterVecs w' = <[l := addTo value t vec]> (counterVecs w) ++ [counterCand opt t]
        /\ counter w' = counter w
        /\ errs w' = errs w /\ logs w' = logs w))
  /\ (forall c ctx name desc value kvs w l vec t0,
     gauge w !! buildFQName c name (Names.Gauge (names c)) = Some l ->
     gaugeVecs w !! l = Some vec ->
     vlabels vec = keys_of t0 ->
     let opt := prometheusOpt c name desc (Names.Gauge (names c)) in
     let t := merged ctx kvs w in
     let w' := snd (Store c ctx name desc value kvs w) in
     (dom t <> dom t0 ->
        gaugeVecs w' = gaugeVecs w ++ [gaugeCand opt t]
        /\ counterVecs w' = counterVecs w ++ [errVec c (Name opt) "get_gauge"]
        /\ histogramVecs w' = histogramVecs w /\ summaryVecs w' = summaryVecs w
        /\ gauge w' = gauge w
        /\ errs w' = errs w ++ [(Name opt, "get_gauge")]
        /\ logs w' = logs w ++ [("get_gauge|GetMetricWithLabelFailed", Name opt)])
     /\ (dom t = dom t0 ->
        gaugeVecs w' = <[l := setTo value t vec]> (gaugeVecs w) ++ [gaugeCand opt t]
        /\ gauge w' = gauge w
        /\ errs w' = errs w /\ logs w' = logs w))
  /\ (forall c ctx opt value buckets kvs w l o vec t0,
     histogram w !! Name opt = Some (l, o) ->
     histogramVecs w !! l = Some vec ->
     vlabels vec = keys_of t0 ->
     let hopt := mkHistogramOpts (Name opt) (Help opt) (ConstLabels opt) buckets in
     let t := merged ctx kvs w in
     let drift := negb (slices_Equal (Buckets o) buckets) in
     let w' := snd (recordHistogram c ctx opt value buckets kvs w) in
     (dom t <> dom t0 ->
        histogramVecs w' = histogramVecs w ++ [histogramCand hopt t]
        /\ counterVecs w'
           = counterVecs w
             ++ (if drift then [errVec c (Name opt) "histogram_buckets_mismatch"] else [])
             ++ [errVec c (Name opt) "get_histogram"]
        /\ gaugeVecs w' = gaugeVecs w /\ summaryVecs w' = summaryVecs w
        /\ histogram w' = histogram w
        /\ errs w' = errs w
                     ++ (if drift then [(Name opt, "histogram_buckets_mismatch")] else [])
                     ++ [(Name opt, "get_histogram")]
        /\ logs w' = logs w
                     ++ (if drift then [("histogram_buckets_mismatch", Name opt)] else [])
                     ++ [("get_histogram|GetMetricWithLabelFailed", Name opt)])
     /\ (dom t = dom t0 ->
        histogramVecs w'
        = <[l := observeTo value t vec]> (histogramVecs w) ++ [histogramCand hopt t]
        /\ histogram w' = histogram w
        /\ errs w' = errs w
                     ++ (if drift then [(Name opt, "histogram_buckets_mismatch")] else [])
        /\ logs w' = logs w
                     ++ (if drift then [("histogram_buckets_mismatch", Name opt)] else [])))
  /\ (forall c ctx opt value objectives kvs w l o vec t0,
     summary w !! Name opt = Some (l, o) ->
     summaryVecs w !! l = Some vec ->
     vlabels vec = keys_of t0 ->
     let sopt := mkSummaryOpts (Name opt) (Help opt) (ConstLabels opt) objectives in
     let t := merged ctx kvs w in
     let drift := negb (maps_Equal (sObjectives o) objectives) in
     let w' := snd (recordSummary c ctx opt value objectives kvs w) in
     (dom t <> dom t0 ->
        summaryVecs w' = summaryVecs w ++ [summaryCand sopt t]
        /\ counterVecs w'
           = counterVecs w
             ++ (if drift then [errVec c (Name opt) "summary_objectives_mismatch"] else [])
             ++ [errVec c (Name opt) "get_summary"]
        /\ gaugeVecs w' = gaugeVecs w /\ histogramVecs w' = histogramVecs w
        /\ summary w' = summary w
        /\ errs w' = errs w
                     ++ (if drift then [(Name opt, "summary_objectives_mismatch")] else [])
                     ++ [(Name opt, "get_summary")]
        /\ logs w' = logs w
                     ++ (if drift then [("summary_objectives_mismatch", Name opt)] else [])
                     ++ [("get_summary|GetMetricWithLabelFailed", Name opt)])
     /\ (dom t = dom t0 ->
        summaryVecs w'
        = <[l := summarize value t vec]> (summaryVecs w) ++ [summaryCand sopt t]
        /\ summary w' = summary w
        /\ errs w' = errs w
                     ++ (if drift then [(Name opt, "summary_objectives_mismatch")] else [])
        /\ logs w' = logs w
                     ++ (if drift then [("summary_objectives_mismatch", Name opt)] else []))).
Proof.
  split; [intros; by apply RecordN_schema|].
  split; [intros; by apply Store_schema|].
  split; [intros; by apply recordHistogram_schema|].
  intros; by apply recordSummary_schema.
Qed.

Lemma label_schema_witness :
  let c := NewClient [] in
  let w1 := snd (RecordN c Background "m" "d" (f64_of_Z 1) ["k1"; "v1"] emptyWorld) in
  let w2 := snd (RecordN c Background "m" "d" (f64_of_Z 1) ["k1"; "v1"; "k2"; "v2"] w1) in
  let w3 := snd (RecordN c Background "m" "d" (f64_of_Z 1) ["k1"; "other"] w1) in
  (errs w2 = errs w1 ++ [("counter:m", "get_counter")]
   /\ take 1 (counterVecs w2) = take 1 (counterVecs w1))
  /\ (errs w3 = errs w1
      /\ (counterVecs w3 !! 0%nat ≫= fun v => vchildren v !! {[ "k1" := "other" ]})
         = Some (f64_add f64_zero (f64_of_Z 1))).
Proof.
  intros c w1 w2 w3.
  assert (H1 : counter w1 !! buildFQName c "m" (Names.Counter (names c)) = Some 0%nat)
    by (vm_compute; reflexivity).
  assert (H2 : counterVecs w1 !! 0%nat
               = Some (addTo (f64_of_Z 1) {[ "k1" := "v1" ]}
                         (counterCand (prometheusOpt c "m" "d" (Names.Counter (names c)))
                            {[ "k1" := "v1" ]})))
    by (vm_compute; reflexivity).
  assert (H3 : vlabels (addTo (f64_of_Z 1) {[ "k1" := "v1" ]}
                         (counterCand (prometheusOpt c "m" "d" (Names.Counter (names c)))
                            {[ "k1" := "v1" ]}))
               = keys_of {[ "k1" := "v1" ]})
    by (vm_compute; reflexivity).
  split.
  - destruct (proj1 label_schema_mismatch_is_dropped c Background "m" "d" (f64_of_Z 1)
                ["k1"; "v1"; "k2"; "v2"] w1 _ _ _ H1 H2 H3) as [Hmis _].
    destruct Hmis as (Hcv & _ & _ & _ & _ & He & _).
    { intros Heq. apply (f_equal size) in Heq. vm_compute in Heq. discriminate. }
    split; [exact He|]. fold w2 in Hcv. rewrite Hcv. reflexivity.
  - destruct (proj1 label_schema_mismatch_is_dropped c Background "m" "d" (f64_of_Z 1)
                ["k1"; "other"] w1 _ _ _ H1 H2 H3) as [_ Hok].
    destruct Hok as (Hcv & _ & He & _).
    { vm_compute. reflexivity. }
    split; [exact He|]. fold w3 in Hcv. rewrite Hcv. vm_compute. reflexivity.
Defined.

(** ** Ambient labels *)

Lemma dom_merged ctx kvs w :
  dom (merged ctx kvs w) = dom (ctx_labels ctx w) ∪ list_to_set (kv_pairs kvs).*1.
Proof. apply dom_apply_pairs. Qed.

Lemma union_difference_neq (A B E : gset string) :
  A ∖ E <> B ∖ E -> A ∪ E <> B ∪ E.
Proof.
  intros Hne Heq. apply Hne. apply set_eq. intros x.
  rewrite !elem_of_difference. split; intros [Hx HE]; split; try done.
  - assert (Hu : x ∈ A ∪ E) by (apply elem_of_union; by left).
    rewrite Heq in Hu. apply elem_of_union in Hu as [|]; done.
  - assert (Hu : x ∈ B ∪ E) by (apply elem_of_union; by left).
    rewrite <- Heq in Hu. apply elem_of_union in Hu as [|]; done.
Qed.

(** C10, as amended: the label keys of a family are those of the merged
    label map of its first use, that is the keys of the context's labels
    together with the explicit keys (an explicit pair replaces the value
    of a context label of the same key); a later call is recorded when
    the keys of its context together with its explicit keys are exactly
    that set and dropped otherwise.  With the same explicit pairs, a call
    is dropped when its context and the context of the first use differ
    on a key that is not among the explicit keys. *)
Theorem ambient_labels_are_part_of_the_schema :
  (forall c ctx name desc value kvs w,
     counter w !! buildFQName c name (Names.Counter (names c)) = None ->
     let t := merged ctx kvs w in
     let w' := snd (RecordN c ctx name desc value kvs w) in
     exists l vec,
       counter w' !! buildFQName c name (Names.Counter (names c)) = Some l
       /\ counterVecs w' !! l = Some vec
       /\ vlabels vec = keys_of t
       /\ list_to_set (vlabels vec)
          = dom (ctx_labels ctx w) ∪ list_to_set (kv_pairs kvs).*1
       /\ (forall k, t !! k = match pairs_lookup (kv_pairs kvs) k with
                              | Some v => Some v
                              | None => ctx_labels ctx w !! k
                              end))
  /\ (forall c ctx name desc value kvs w l vec t0,
     counter w !! buildFQName c name (Names.Counter (names c)) = Some l ->
     counterVecs w !! l = Some vec ->
     vlabels vec = keys_of t0 ->
     let opt := prometheusOpt c name desc (Names.Counter (names c)) in
     let t := merged ctx kvs w in
     let K := dom (ctx_labels ctx w) ∪ list_to_set (kv_pairs kvs).*1 in
     let w' := snd (RecordN c ctx name desc value kvs w) in
     (K = dom t0 ->
        counterVecs w' = <[l := addTo value t vec]> (counterVecs w) ++ [counterCand opt t]
        /\ errs w' = errs w)
     /\ (K <> dom t0 ->
        counterVecs w'
        = counterVecs w ++ [counterCand opt t; errVec c (Name opt) "get_counter"]
        /\ errs w' = errs w ++ [(Name opt, "get_counter")]))
  /\ (forall c ctx1 w1 ctx name desc value kvs w l vec,
     counter w !! buildFQName c name (Names.Counter (names c)) = Some l ->
     counterVecs w !! l = Some vec ->
     vlabels vec = keys_of (merged ctx1 kvs w1) ->
     let opt := prometheusOpt c name desc (Names.Counter (names c)) in
     let E : gset string := list_to_set (kv_pairs kvs).*1 in
     let w' := snd (RecordN c ctx name desc value kvs w) in
     dom (ctx_labels ctx w) ∖ E <> dom (ctx_labels ctx1 w1) ∖ E ->
     counterVecs w'
     = counterVecs w
       ++ [counterCand opt (merged ctx kvs w); errVec c (Name opt) "get_counter"]
     /\ errs w' = errs w ++ [(Name opt, "get_counter")]).
Proof.
  split; [|split].
  - intros c ctx name desc value kvs w Hc. cbv zeta.
    destruct (RecordN_first_use c ctx name desc value kvs w Hc) as (Hcache & Hvec & _).
    eexists _, _. split; [rewrite Hcache; apply lookup_insert_eq|].
    split; [exact Hvec|].
    unfold addTo, onChild. cbn [vlabels]. rewrite vlabels_withChild. cbn [counterCand vlabels].
    split; [done|]. split; [by rewrite keys_dom, dom_merged|].
    intros k. apply apply_pairs_lookup.
  - intros c ctx name desc value kvs w l vec t0 Hc Hv Hl. cbv zeta.
    destruct (RecordN_schema c ctx name desc value kvs w l vec t0 Hc Hv Hl) as [Hmis Hok].
    rewrite <- dom_merged. split; intros HK.
    + destruct (Hok HK) as (? & ? & ? & ?). done.
    + destruct (Hmis HK) as (? & ? & ? & ? & ? & ? & ?). done.
  - intros c ctx1 w1 ctx name desc value kvs w l vec Hc Hv Hl. cbv zeta. intros Hne.
    destruct (RecordN_schema c ctx name desc value kvs w l vec _ Hc Hv Hl) as [Hmis _].
    destruct Hmis as (? & ? & ? & ? & ? & ? & ?); [|done].
    rewrite !dom_merged. by apply union_difference_neq.
Qed.

Lemma ambient_labels_witness :
  let c := NewClient [] in
  let r1 := CtxAddLabels Background ["k"; "v"] emptyWorld in
  let w1 := snd (RecordN c (fst r1) "m" "d" (f64_of_Z 1) ["x"; "y"] (snd r1)) in
  let w2 := snd (RecordN c Background "m" "d" (f64_of_Z 1) ["x"; "y"] w1) in
  errs w2 = errs w1 ++ [("counter:m", "get_counter")].
Proof.
  intros c r1 w1 w2.
  assert (H1 : counter w1 !! buildFQName c "m" (Names.Counter (names c)) = Some 0%nat)
    by (vm_compute; reflexivity).
  assert (H2 : counterVecs w1 !! 0%nat
               = Some (addTo (f64_of_Z 1) (merged (fst r1) ["x"; "y"] (snd r1))
                         (counterCand (prometheusOpt c "m" "d" (Names.Counter (names c)))
                            (merged (fst r1) ["x"; "y"] (snd r1)))))
    by (vm_compute; reflexivity).
  assert (H3 : vlabels (addTo (f64_of_Z 1) (merged (fst r1) ["x"; "y"] (snd r1))
                         (counterCand (prometheusOpt c "m" "d" (Names.Counter (names c)))
                            (merged (fst r1) ["x"; "y"] (snd r1))))
               = keys_of (merged (fst r1) ["x"; "y"] (snd r1)))
    by (vm_compute; reflexivity).
  destruct (proj2 (proj2 ambient_labels_are_part_of_the_schema) c (fst r1) (snd r1)
              Background "m" "d" (f64_of_Z 1) ["x"; "y"] w1 _ _ H1 H2 H3) as [_ He].
  { intros Heq. apply (f_equal size) in Heq. vm_compute in Heq. discriminate. }
  exact He.
Defined.

(** The last clause of the claim as it was stated fails when the explicit
    pairs cover the key on which the two contexts differ: the first call
    is made under a context carrying [k] with the explicit pair [k, v2],
    the second under a context without labels with the same pair; the
    contexts have different label keys and the second call is recorded
    all the same. *)
Lemma ambient_labels_counterexample :
  let c := NewClient [] in
  let r1 := CtxAddLabels Background ["k"; "v"] emptyWorld in
  let w1 := snd (RecordN c (fst r1) "m" "d" (f64_of_Z 1) ["k"; "v2"] (snd r1)) in
  let w2 := snd (RecordN c Background "m" "d" (f64_of_Z 1) ["k"; "v2"] w1) in
  dom (ctx_labels (fst r1) w1) = {[ "k" ]}
  /\ dom (ctx_labels Background w1) = ∅
  /\ errs w1 = [] /\ errs w2 = []
  /\ (counterVecs w1 !! 0%nat ≫= fun v => vchildren v !! {[ "k" := "v2" ]})
     = Some (f64_of_Z 1)
  /\ (counterVecs w2 !! 0%nat ≫= fun v => vchildren v !! {[ "k" := "v2" ]})
     = Some (f64_of_Z 2).
Proof. vm_compute. repeat split; reflexivity. Qed.

(** ** Histogram configuration *)

Lemma caches_register_world c m d name kind w :
  counter (register_world c m d name kind w) = counter w
  /\ gauge (register_world c m d name kind w) = gauge w
  /\ histogram (register_world c m d name kind w) = histogram w
  /\ summary (register_world c m d name kind w) = summary w.
Proof. unfold register_world. by destruct (registerCheck _ _). Qed.

Lemma recordHistogram_first_use c ctx opt value buckets kvs w :
  histogram w !! Name opt = None ->
  let hopt := mkHistogramOpts (Name opt) (Help opt) (ConstLabels opt) buckets in
  let t := merged ctx kvs w in
  let w' := snd (recordHistogram c ctx opt value buckets kvs w) in
  histogram w' = <[Name opt := (length (histogramVecs w), hopt)]> (histogram w)
  /\ histogramVecs w'
     = histogramVecs w ++ [observeTo value t (histogramCand hopt t)].
Proof.
  intros Hc. cbv zeta. rewrite (recordHistogram_miss _ _ _ _ _ _ _ Hc). cbn [snd].
  cbn [set_histogramVecs histogram histogramVecs].
  destruct (others_drift_world c (Name opt) buckets buckets
    (register_world c (OfHistogramVec (length (histogramVecs w)))
       (mkDesc (Name opt) (Help opt) (ConstLabels opt) (keys_of (merged ctx kvs w)))
       (Name opt) "register_histogram"
       (set_histogram
          (insert (Name opt)
             (length (histogramVecs w),
              mkHistogramOpts (Name opt) (Help opt) (ConstLabels opt) buckets))
          (set_histogramVecs
             (fun h => h ++ [histogramCand
                (mkHistogramOpts (Name opt) (Help opt) (ConstLabels opt) buckets)
                (merged ctx kvs w)]) (tags_world ctx kvs w)))))
    as (_ & _ & Hh).
  rewrite Hh, histogramVecs_drift_world, histogramVecs_register_world.
  destruct (caches_register_world c (OfHistogramVec (length (histogramVecs w)))
       (mkDesc (Name opt) (Help opt) (ConstLabels opt) (keys_of (merged ctx kvs w)))
       (Name opt) "register_histogram"
       (set_histogram
          (insert (Name opt)
             (length (histogramVecs w),
              mkHistogramOpts (Name opt) (Help opt) (ConstLabels opt) buckets))
          (set_histogramVecs
             (fun h => h ++ [histogramCand
                (mkHistogramOpts (Name opt) (Help opt) (ConstLabels opt) buckets)
                (merged ctx kvs w)]) (tags_world ctx kvs w)))) as (_ & _ & Hh' & _).
  rewrite Hh'. simpl. split; [done|]. apply alter_app_last.
Qed.

Lemma vopts_observeTo value t v : vopts (observeTo value t v) = vopts v.
Proof. unfold observeTo, onChild. simpl. apply vopts_withChild. Qed.

Lemma vlabels_observeTo value t v : vlabels (observeTo value t v) = vlabels v.
Proof. unfold observeTo, onChild. simpl. apply vlabels_withChild. Qed.

(** C1, as amended: the first observation of a histogram name stores the
    requested bucket list with the family; a later call on that name with
    a different bucket list leaves the stored entry and the family's
    options and label names as they were, reports
    [histogram_buckets_mismatch] through [recordErr] and the logger, and,
    when its merged label keys are those of the family, still records its
    value in the family created first. *)
Theorem histogram_buckets_fixed_at_first_use :
  (forall c ctx opt value buckets kvs w,
     histogram w !! Name opt = None ->
     let hopt := mkHistogramOpts (Name opt) (Help opt) (ConstLabels opt) buckets in
     let t := merged ctx kvs w in
     let w' := snd (recordHistogram c ctx opt value buckets kvs w) in
     histogram w' !! Name opt = Some (length (histogramVecs w), hopt)
     /\ Buckets hopt = buckets
     /\ histogramVecs w' !! length (histogramVecs w)
        = Some (observeTo value t (histogramCand hopt t)))
  /\ (forall c ctx opt value buckets kvs w l o vec t0,
     histogram w !! Name opt = Some (l, o) ->
     histogramVecs w !! l = Some vec ->
     vlabels vec = keys_of t0 ->
     slices_Equal (Buckets o) buckets = false ->
     let hopt := mkHistogramOpts (Name opt) (Help opt) (ConstLabels opt) buckets in
     let t := merged ctx kvs w in
     let w' := snd (recordHistogram c ctx opt value buckets kvs w) in
     histogram w' = histogram w
     /\ (exists vec', histogramVecs w' !! l = Some vec'
           /\ vopts vec' = vopts vec /\ vlabels vec' = vlabels vec)
     /\ (exists more,
           errs w' = errs w ++ (Name opt, "histogram_buckets_mismatch") :: more)
     /\ (exists more,
           logs w' = logs w ++ ("histogram_buckets_mismatch", Name opt) :: more)
     /\ (dom t = dom t0 ->
           histogramVecs w'
           = <[l := observeTo value t vec]> (histogramVecs w) ++ [histogramCand hopt t]
           /\ errs w' = errs w ++ [(Name opt, "histogram_buckets_mismatch")]
           /\ logs w' = logs w ++ [("histogram_buckets_mismatch", Name opt)])).
Proof.
  split.
  - intros c ctx opt value buckets kvs w Hc. cbv zeta.
    destruct (recordHistogram_first_use c ctx opt value buckets kvs w Hc) as [Hh Hv].
    rewrite Hh, Hv. split; [apply lookup_insert_eq|]. split; [done|].
    apply lookup_app_last.
  - intros c ctx opt value buckets kvs w l o vec t0 Hc Hv Hl Hd. cbv zeta.
    destruct (recordHistogram_schema c ctx opt value buckets kvs w l o vec t0 Hc Hv Hl)
      as [Hmis Hok].
    rewrite Hd in Hmis, Hok. cbn [negb] in Hmis, Hok.
    assert (Hlt : (l < length (histogramVecs w))%nat) by (by eapply lookup_lt_Some).
    destruct (decide (dom (merged ctx kvs w) = dom t0)) as [Heq|Hne].
    + destruct (Hok Heq) as (Hhv & Hh & He & Hlg).
      split; [exact Hh|]. split.
      { exists (observeTo value (merged ctx kvs w) vec). rewrite Hhv.
        rewrite lookup_app_l by (by rewrite length_insert).
        rewrite list_lookup_insert_eq by done.
        by rewrite vopts_observeTo, vlabels_observeTo. }
      split; [by exists []|]. split; [by exists []|]. done.
    + destruct (Hmis Hne) as (Hhv & _ & _ & _ & Hh & He & Hlg).
      split; [exact Hh|]. split.
      { exists vec. rewrite Hhv. by rewrite lookup_app_l. }
      split; [by eexists|]. split; [by eexists|]. done.
Qed.

Lemma histogram_buckets_witness :
  let c := NewClient [] in
  let b123 := [f64_of_Z 1; f64_of_Z 2; f64_of_Z 3] in
  let b510 := [f64_of_Z 5; f64_of_Z 10] in
  let w1 := snd (Histogram c Background "h" "d" (f64_ratio 3 2) b123 [] emptyWorld) in
  let w2 := snd (Histogram c Background "h" "d" (f64_ratio 5 2) b510 [] w1) in
  (Buckets ∘ snd <$> histogram w2 !! "histogram:h") = Some b123
  /\ (histogramVecs w2 !! 0%nat ≫= fun v => vchildren v !! ∅)
     = Some [f64_ratio 3 2; f64_ratio 5 2]
  /\ errs w2 = [("histogram:h", "histogram_buckets_mismatch")].
Proof.
  intros c b123 b510 w1 w2.
  pose (opt := prometheusOpt c "h" "d" (Names.Histogram (names c))).
  pose (hopt := mkHistogramOpts (Name opt) (Help opt) (ConstLabels opt) b123).
  pose (vec := observeTo (f64_ratio 3 2) ∅ (histogramCand hopt ∅)).
  assert (H1 : histogram w1 !! Name opt = Some (0%nat, hopt)) by (vm_compute; reflexivity).
  assert (H2 : histogramVecs w1 !! 0%nat = Some vec) by (vm_compute; reflexivity).
  assert (H3 : vlabels vec = keys_of ∅) by (vm_compute; reflexivity).
  assert (H4 : slices_Equal (Buckets hopt) b510 = false) by (vm_compute; reflexivity).
  destruct (proj2 histogram_buckets_fixed_at_first_use c Background opt (f64_ratio 5 2)
              b510 [] w1 _ _ _ _ H1 H2 H3 H4) as (Hh & _ & _ & _ & Hrec).
  destruct Hrec as (Hhv & He & _); [vm_compute; reflexivity|].
  change (snd (recordHistogram c Background opt (f64_ratio 5 2) b510 [] w1)) with w2
    in Hh, Hhv, He.
  rewrite Hh, Hhv, He. vm_compute. repeat split; reflexivity.
Defined.

(** The claim as it was stated fails for a later call whose label keys
    are not those of the family: the bucket list differs, the mismatch is
    reported, and the value is not recorded anywhere. *)
Lemma histogram_buckets_counterexample :
  let c := NewClient [] in
  let b123 := [f64_of_Z 1; f64_of_Z 2; f64_of_Z 3] in
  let b510 := [f64_of_Z 5; f64_of_Z 10] in
  let w1 := snd (Histogram c Background "h" "d" (f64_ratio 3 2) b123 [] emptyWorld) in
  let w2 := snd (Histogram c Background "h" "d" (f64_ratio 5 2) b510 ["k"; "v"] w1) in
  slices_Equal b123 b510 = false
  /\ histogram w2 = histogram w1
  /\ ((fun v => map_to_list (vchildren v)) <$> histogramVecs w1)
     = [[(∅, [f64_ratio 3 2])]]
  /\ ((fun v => map_to_list (vchildren v)) <$> histogramVecs w2)
     = [[(∅, [f64_ratio 3 2])]; []]
  /\ errs w2 = [("histogram:h", "histogram_buckets_mismatch");
                ("histogram:h", "get_histogram")].
Proof. vm_compute. repeat split; reflexivity. Qed.

(** ** Timers *)

Lemma time_Sub_in_range now start :
  minDuration <= now - start <= maxDuration -> time_Sub now start = now - start.
Proof. unfold time_Sub. lia. Qed.

(** C8, as amended: the function returned by [Timer] returns the time
    elapsed since the start instant and hands exactly that duration, as
    seconds, to the histogram path under the timer name, with the client's
    default bucket list when none was given (so it does what [Cost] does
    for that duration).  The observation is recorded in the timer family
    on a first use of the name and whenever the merged label keys of the
    call are those of the family. *)
Theorem timer_stop_records_elapsed :
  forall c bs start now ctx name desc kvs w,
    let elapsed := time_Sub now start in
    let eff := if (length bs =? 0)%nat then buckets c else bs in
    let opt := prometheusOpt c name desc (Names.Timer (names c)) in
    let hopt := mkHistogramOpts (Name opt) desc (constLabels c) eff in
    let t := merged ctx kvs w in
    let r := Timer c bs start now ctx name desc kvs w in
    fst r = elapsed
    /\ (minDuration <= now - start <= maxDuration -> fst r = now - start)
    /\ snd r = snd (recordHistogram c ctx opt (Seconds elapsed) eff kvs w)
    /\ (bs = [] -> snd r = snd (Cost c ctx name desc elapsed kvs w))
    /\ (histogram w !! Name opt = None ->
          histogram (snd r) !! Name opt = Some (length (histogramVecs w), hopt)
          /\ histogramVecs (snd r) !! length (histogramVecs w)
             = Some (observeTo (Seconds elapsed) t (histogramCand hopt t)))
    /\ (forall l o vec t0,
          histogram w !! Name opt = Some (l, o) ->
          histogramVecs w !! l = Some vec ->
          vlabels vec = keys_of t0 ->
          dom t = dom t0 ->
          histogramVecs (snd r) !! l = Some (observeTo (Seconds elapsed) t vec)).
Proof.
  intros c bs start now ctx name desc kvs w. cbv zeta.
  assert (Hr : Timer c bs start now ctx name desc kvs w
               = (time_Sub now start,
                  snd (recordHistogram c ctx
                         (prometheusOpt c name desc (Names.Timer (names c)))
                         (Seconds (time_Sub now start))
                         (if (length bs =? 0)%nat then buckets c else bs) kvs w))).
  { unfold Timer, bind, ret.
    destruct (recordHistogram c ctx _ _ _ kvs w) as [[] w'] eqn:E. reflexivity. }
  rewrite Hr. cbn [fst snd].
  split; [done|]. split; [apply time_Sub_in_range|]. split; [done|].
  split; [intros ->; reflexivity|]. split.
  - intros Hc.
    destruct (recordHistogram_first_use c
                ctx (prometheusOpt c name desc (Names.Timer (names c)))
                (Seconds (time_Sub now start))
                (if (length bs =? 0)%nat then buckets c else bs) kvs w Hc)
      as (Hh & Hv).
    rewrite Hh, Hv. split; [apply lookup_insert_eq | apply lookup_app_last].
  - intros l o vec t0 Hc Hv Hl Hd.
    destruct (recordHistogram_schema c ctx
                (prometheusOpt c name desc (Names.Timer (names c)))
                (Seconds (time_Sub now start))
                (if (length bs =? 0)%nat then buckets c else bs) kvs w l o vec t0 Hc Hv Hl)
      as [_ Hok].
    destruct (Hok Hd) as (Hhv & _). rewrite Hhv.
    assert (Hlt : (l < length (histogramVecs w))%nat) by (by eapply lookup_lt_Some).
    rewrite lookup_app_l by (by rewrite length_insert).
    by rewrite list_lookup_insert_eq.
Qed.

Lemma timer_stop_witness :
  let c := NewClient [] in
  let r := Timer c [] 1000 1500001000 Background "t" "d" [] emptyWorld in
  fst r = 1500000000
  /\ (histogramVecs (snd r) !! 0%nat ≫= fun v => vchildren v !! ∅)
     = Some [f64_ratio 3 2]
  /\ (Buckets ∘ snd <$> histogram (snd r) !! "timer:t_seconds") = Some DefBuckets.
Proof.
  intros c r.
  destruct (timer_stop_records_elapsed c [] 1000 1500001000 Background "t" "d" []
              emptyWorld) as (He & _ & _ & _ & Hfirst & _).
  destruct Hfirst as [Hh Hv]; [vm_compute; reflexivity|].
  fold r in He, Hh, Hv. split; [rewrite He; vm_compute; reflexivity|].
  split.
  - apply (f_equal (fun o => o ≫= fun v => vchildren v !! (∅ : Labels))) in Hv.
    etransitivity; [exact Hv|]. vm_compute. reflexivity.
  - apply (f_equal (fmap (Buckets ∘ snd))) in Hh.
    etransitivity; [exact Hh|]. vm_compute. reflexivity.
Defined.

(** The claim as it was stated fails when the timer name is in use with
    other label keys: the elapsed time is returned and nothing is
    recorded. *)
Lemma timer_stop_counterexample :
  let c := NewClient [] in
  let r1 := CtxAddLabels Background ["k"; "v"] emptyWorld in
  let w1 := snd (Cost c (fst r1) "t" "d" 1000000000 [] (snd r1)) in
  let r2 := Timer c [] 1000 1500001000 Background "t" "d" [] w1 in
  fst r2 = 1500000000
  /\ ((fun v => map_to_list (vchildren v)) <$> histogramVecs w1)
     = [[({[ "k" := "v" ]}, [f64_of_Z 1])]]
  /\ ((fun v => map_to_list (vchildren v)) <$> histogramVecs (snd r2))
     = [[({[ "k" := "v" ]}, [f64_of_Z 1])]; []]
  /\ errs (snd r2) = [("timer:t_seconds", "get_histogram")].
Proof. vm_compute. repeat split; reflexivity. Qed.

(** ** Registration conflicts *)

Lemma errs_register_world c m d name kind w e :
  registerCheck (registry w) d = Some e ->
  errs (register_world c m d name kind w) = errs w ++ [(name, errKindOf kind e)]
  /\ logs (register_world c m d name kind w) = logs w ++ [(errKindOf kind e, name)]
  /\ (forall x, x ∈ registry (register_world c m d name kind w) ->
        x ∈ registry w \/ fst x = errDesc c).
Proof.
  intros He. unfold register_world. rewrite He.
  rewrite errs_recordErr_world, logs_recordErr_world.
  unfold errs, logs. cbn [set_trace trace]. rewrite !omap_app. simpl.
  rewrite app_nil_r. split; [done|]. split; [done|].
  intros x. simpl. destruct (registerCheck (registry w) (errDesc c)); intros Hx.
  - left. exact Hx.
  - apply elem_of_app in Hx as [Hx|Hx]; [left; exact Hx|].
    apply list_elem_of_singleton in Hx. subst x. right. reflexivity.
Qed.

Lemma registerCheck_duplicate reg d :
  (exists x, x ∈ reg /\ fst x = d) ->
  (forall x, x ∈ reg -> fqName (fst x) = fqName d -> sameDim (fst x) d = true) ->
  registerCheck reg d = Some AlreadyRegisteredError.
Proof.
  intros (x & Hx & Hd) Hall. unfold registerCheck.
  destruct (existsb _ reg) eqn:E1.
  - apply existsb_exists in E1 as (y & Hy & Hb).
    apply andb_true_iff in Hb as [Hn Hs]. apply bool_decide_eq_true in Hn.
    apply list_elem_of_In in Hy. rewrite (Hall y Hy Hn) in Hs. discriminate.
  - destruct (existsb (fun e => sameID (fst e) d) reg) eqn:E2; [done|].
    assert (Hex : existsb (fun e => sameID (fst e) d) reg = true).
    { apply existsb_exists. exists x. split; [by apply list_elem_of_In|].
      rewrite Hd. unfold sameID. by rewrite !bool_decide_eq_true_2. }
    congruence.
Qed.

(** C7: when the registry rejects the registration of a family at its
    first use, [register] calls the logger and [recordErr] with the kind
    of the operation (followed by ["_dup"] when the error is
    [AlreadyRegisteredError], which is the answer to a descriptor already
    registered by someone else), leaves the caches alone and does not
    register the family; the call that caused it keeps its own candidate
    in the cache, records its observation there and returns normally. *)
Theorem registration_conflict_is_best_effort :
  (forall c ctx m d name help kind w e,
     describe w m = Some d ->
     registerCheck (registry w) d = Some e ->
     let w' := snd (register c ctx m name help kind w) in
     logs w' = logs w ++ [(errKindOf kind e, name)]
     /\ errs w' = errs w ++ [(name, errKindOf kind e)]
     /\ errKindOf kind AlreadyRegisteredError = kind +:+ "_dup"
     /\ counter w' = counter w /\ gauge w' = gauge w
     /\ histogram w' = histogram w /\ summary w' = summary w
     /\ (forall x, x ∈ registry w' -> x ∈ registry w \/ fst x = errDesc c))
  /\ (forall c ctx name desc value kvs w e,
     let opt := prometheusOpt c name desc (Names.Counter (names c)) in
     let t := merged ctx kvs w in
     counter w !! Name opt = None ->
     registerCheck (registry w) (mkDesc (Name opt) desc (constLabels c) (keys_of t))
     = Some e ->
     let r := RecordN c ctx name desc value kvs w in
     fst r = tt
     /\ counter (snd r) !! Name opt = Some (length (counterVecs w))
     /\ counterVecs (snd r) !! length (counterVecs w)
        = Some (addTo value t (counterCand opt t))
     /\ logs (snd r) = logs w ++ [(errKindOf "register_counter" e, Name opt)]
     /\ errs (snd r) = errs w ++ [(Name opt, errKindOf "register_counter" e)]
     /\ (forall x, x ∈ registry (snd r) -> x ∈ registry w \/ fst x = errDesc c))
  /\ (forall reg d,
     (exists x, x ∈ reg /\ fst x = d) ->
     (forall x, x ∈ reg -> fqName (fst x) = fqName d -> sameDim (fst x) d = true) ->
     registerCheck reg d = Some AlreadyRegisteredError).
Proof.
  split; [|split].
  - intros c ctx m d name help kind w e Hd He. cbv zeta.
    rewrite (register_eq c ctx m d name help kind w Hd). cbn [snd].
    destruct (errs_register_world c m d name kind w e He) as (H1 & H2 & H3).
    destruct (caches_register_world c m d name kind w) as (? & ? & ? & ?).
    done.
  - intros c ctx name desc value kvs w e. cbv zeta. intros Hc He.
    destruct (RecordN_first_use c ctx name desc value kvs w Hc) as (Hcache & Hvec & _).
    split; [by destruct (RecordN c ctx name desc value kvs w) as [[] ?]|].
    split; [rewrite Hcache; apply lookup_insert_eq|]. split; [exact Hvec|].
    rewrite (RecordN_miss _ _ _ _ _ _ _ Hc). cbn [snd].
    pose proof (errs_register_world c (OfCounterVec (length (counterVecs w)))
      (mkDesc (buildFQName c name (Names.Counter (names c))) desc (constLabels c)
         (keys_of (merged ctx kvs w)))
      (buildFQName c name (Names.Counter (names c))) "register_counter"
      (set_counter (insert (buildFQName c name (Names.Counter (names c)))
                      (length (counterVecs w)))
         (set_counterVecs
            (fun h => h ++ [counterCand (prometheusOpt c name desc (Names.Counter (names c)))
                              (merged ctx kvs w)]) (tags_world ctx kvs w))) e He)
      as (H1 & H2 & H3).
    split; [exact H2|]. split; [exact H1|]. exact H3.
  - apply registerCheck_duplicate.
Qed.

Lemma registration_conflict_witness :
  let c := NewClient [] in
  let foreign := mkDesc "counter:xxx_throughput" "" ∅ [] in
  let w0 := set_registry (fun _ => [(foreign, Foreign foreign)]) emptyWorld in
  let w1 := snd (RecordN c Background "xxx_throughput" "" (f64_of_Z 1) [] w0) in
  errs w1 = [("counter:xxx_throughput", "register_counter_dup")]
  /\ logs w1 = [("register_counter_dup", "counter:xxx_throughput")]
  /\ (counterVecs w1 !! 0%nat ≫= fun v => vchildren v !! ∅) = Some (f64_of_Z 1).
Proof.
  intros c foreign w0 w1.
  destruct (proj1 (proj2 registration_conflict_is_best_effort) c Background
              "xxx_throughput" "" (f64_of_Z 1) [] w0 AlreadyRegisteredError)
    as (_ & _ & Hv & Hl & He & _).
  - vm_compute. reflexivity.
  - vm_compute. reflexivity.
  - fold w1 in Hv, Hl, He. rewrite He, Hl.
    apply (f_equal (fun o => o ≫= fun v => vchildren v !! (∅ : Labels))) in Hv.
    split; [vm_compute; reflexivity|]. split; [vm_compute; reflexivity|].
    etransitivity; [exact Hv|]. vm_compute. reflexivity.
Defined.

(** ** The internal-error counter does not accumulate *)

Lemma sameDim_refl d : sameDim d d = true.
Proof. unfold sameDim. by rewrite !bool_decide_eq_true_2. Qed.

Lemma reports_S c name kind n w :
  reports c name kind (S n) w
  = recordErr_world c name kind (reports c name kind n w).
Proof. unfold reports. rewrite Nat.iter_succ, recordErr_eq. reflexivity. Qed.

Lemma reports_invariant c name kind n :
  let w := reports c name kind (S n) emptyWorld in
  registry w = [(errDesc c, OfCounter 0%nat (errLabels name kind))]
  /\ counterVecs w = replicate (S n) (errVec c name kind)
  /\ errs w = replicate (S n) (name, kind)
  /\ logs w = [].
Proof.
  induction n as [|n IH].
  - cbv zeta. rewrite reports_S. change (reports c name kind 0 emptyWorld) with emptyWorld.
    unfold recordErr_world, errs, logs. simpl. unfold registerCheck. simpl. done.
  - cbv zeta in *.
    rewrite (reports_S c name kind (S n)).
    set (w := reports c name kind (S n) emptyWorld) in *.
    destruct IH as (Hreg & Hcv & He & Hl).
    rewrite errs_recordErr_world, logs_recordErr_world, He, Hl.
    simpl. rewrite Hreg, Hcv.
    rewrite registerCheck_duplicate.
    + split; [done|]. split.
      * change (errVec c name kind :: replicate n (errVec c name kind))
          with (replicate (S n) (errVec c name kind)).
        rewrite <- replicate_S_end. done.
      * split; [|done].
        change ((name, kind) :: replicate n (name, kind))
          with (replicate (S n) (name, kind)).
        by rewrite <- replicate_S_end.
    + eexists. split; [apply list_elem_of_singleton; reflexivity | reflexivity].
    + intros x Hx _. apply list_elem_of_singleton in Hx. subst x. apply sameDim_refl.
Qed.

(** C4: every call of [recordErr] builds a new family, registers its one
    child and increments that child, and the registry refuses every
    registration after the first; so after any number of reports with the
    same name and kind the only series the registry holds for them still
    has the value 1.  Nothing is logged and nothing reported again when
    the registration fails. *)
Theorem recordErr_registered_series_stays_at_one :
  forall c name kind n,
    let w := reports c name kind (S n) emptyWorld in
    errs w = replicate (S n) (name, kind)
    /\ gathered w (Name (errOpts c)) (errLabels name kind)
       = [f64_add f64_zero (f64_of_Z 1)]
    /\ logs w = [].
Proof.
  intros c name kind n.
  destruct (reports_invariant c name kind n) as (Hreg & Hcv & He & Hl).
  cbv zeta. split; [exact He|]. split; [|exact Hl].
  unfold gathered. rewrite Hreg. cbn [omap list_omap fst snd errDesc fqName].
  rewrite bool_decide_eq_true_2 by done.
  unfold collector_series. rewrite bool_decide_eq_true_2 by done.
  rewrite Hcv. cbn [replicate lookup list_lookup mbind option_bind errVec vchildren].
  rewrite lookup_singleton_eq. reflexivity.
Qed.
(** ** Concurrent first use *)

Lemma step_remaining c call th w :
  (remaining (fst (step c call th w)) <= pred (remaining th))%nat.
Proof.
  destruct th; unfold step, bind, ret; cbn [remaining pred].
  - destruct (tags _ _ w) as [[keys tg] w']. cbn. lia.
  - destruct (NewCounterVec _ _ w) as [cand w']. cbn. lia.
  - destruct (counter_LoadOrStore _ _ w) as [[v loaded] w'].
    destruct loaded; cbn; lia.
  - destruct (Registry_Register _ w) as [[e|] w']; cbn; lia.
  - destruct (logger _ _ _ w) as [[] w1]. destruct (recordErr _ _ _ w1) as [[] w2].
    cbn. lia.
  - destruct (CounterVec_GetMetricWith _ _ w) as [[m|] w']; cbn; lia.
  - destruct (Counter_Add _ _ w) as [[] w']. cbn. lia.
  - destruct (recordErr _ _ _ w) as [[] w1]. destruct (logger _ _ _ w1) as [[] w2].
    cbn. lia.
  - cbn. lia.
Qed.

Lemma sched_step_lookup c j p w i call th :
  p !! i = Some (call, th) ->
  exists th', fst (sched_step c j p w) !! i = Some (call, th')
    /\ (remaining th' <= remaining th - (if decide (j = i) then 1 else 0))%nat.
Proof.
  intros Hi. unfold sched_step.
  destruct (decide (j = i)) as [->|Hne].
  - rewrite Hi. unfold bind, ret.
    pose proof (step_remaining c call th w) as Hr.
    destruct (step c call th w) as [th' w']. simpl in *.
    exists th'. split; [|lia].
    apply list_lookup_insert_eq. by eapply lookup_lt_Some.
  - destruct (p !! j) as [[cl t]|] eqn:Hj.
    + unfold bind, ret. destruct (step c cl t w) as [t' w']. simpl.
      exists th. split; [|lia]. by rewrite list_lookup_insert_ne.
    + exists th. split; [done|lia].
Qed.

Lemma exec_lookup c sched : forall p w i call th,
  p !! i = Some (call, th) ->
  exists th', fst (exec c sched p w) !! i = Some (call, th')
    /\ (remaining th' <= remaining th - count_occ Nat.eq_dec sched i)%nat.
Proof.
  induction sched as [|j sched IH]; intros p w i call th Hi.
  - exists th. split; [done|]. cbn. lia.
  - cbn [exec]. unfold bind.
    destruct (sched_step_lookup c j p w i call th Hi) as (th1 & H1 & Hr1).
    destruct (sched_step c j p w) as [p1 w1]. cbn [fst] in H1.
    destruct (IH p1 w1 i call th1 H1) as (th2 & H2 & Hr2).
    exists th2. split; [exact H2|].
    cbn [count_occ]. destruct (Nat.eq_dec j i) as [->|Hne].
    + rewrite decide_True in Hr1 by done. lia.
    + rewrite decide_False in Hr1 by done. lia.
Qed.

Lemma exec_length c sched : forall p w,
  length (fst (exec c sched p w)) = length p.
Proof.
  induction sched as [|j sched IH]; intros p w; [done|].
  cbn [exec]. unfold bind.
  assert (Hl : length (fst (sched_step c j p w)) = length p).
  { unfold sched_step. destruct (p !! j) as [[cl t]|]; [|done].
    unfold bind, ret. destruct (step c cl t w) as [t' w']. simpl.
    by rewrite length_insert. }
  destruct (sched_step c j p w) as [p1 w1]. cbn [fst] in Hl.
  by rewrite IH.
Qed.

Lemma remaining_0 th : remaining th = 0%nat -> returned th = true.
Proof. by destruct th. Qed.

Lemma fair_finishes c calls sched w :
  fair (length calls) sched ->
  finished (fst (exec c sched (spawn calls) w)) = true.
Proof.
  intros Hf. unfold finished. apply forallb_forall. intros [call th] Hin.
  apply list_elem_of_In, list_elem_of_lookup in Hin. destruct Hin as [i Hi].
  assert (Hlt : (i < length calls)%nat).
  { apply lookup_lt_Some in Hi. rewrite exec_length in Hi.
    unfold spawn in Hi. by rewrite length_fmap in Hi. }
  destruct (lookup_lt_is_Some_2 calls i Hlt) as [cl Hcl].
  assert (Hs : spawn calls !! i = Some (cl, AtTags)).
  { unfold spawn. by rewrite list_lookup_fmap, Hcl. }
  destruct (exec_lookup c sched _ w i cl AtTags Hs) as (th' & H' & Hr).
  rewrite Hi in H'. injection H' as -> ->.
  apply remaining_0. specialize (Hf i Hlt). cbn [remaining] in Hr. cbn [snd]. lia.
Qed.

(** The effect of each step on the shared state. *)

Lemma step_AtTags c call w :
  step c call AtTags w
  = (AtNewCounterVec (keys_of (merged (call_ctx call) (call_kvs call) w))
       (tags_loc (call_ctx call) w),
     tags_world (call_ctx call) (call_kvs call) w).
Proof. unfold step. erewrite bind_eq by apply tags_eq. reflexivity. Qed.

Lemma step_AtNewCounterVec c call keys tg w :
  step c call (AtNewCounterVec keys tg) w
  = (AtLoadOrStore tg (length (counterVecs w)),
     set_counterVecs (fun h => h ++ [mkVec (call_opt c call) keys ∅]) w).
Proof. reflexivity. Qed.

Lemma step_AtLoadOrStore_miss c call tg cand w :
  counter w !! Name (call_opt c call) = None ->
  step c call (AtLoadOrStore tg cand) w
  = (AtRegister tg cand,
     set_counter (fun _ => <[Name (call_opt c call) := cand]> (counter w)) w).
Proof.
  intros Hc. unfold step, bind, ret, counter_LoadOrStore, LoadOrStore.
  rewrite Hc. reflexivity.
Qed.

Lemma step_AtLoadOrStore_hit c call tg cand w v :
  counter w !! Name (call_opt c call) = Some v ->
  step c call (AtLoadOrStore tg cand) w
  = (AtGetMetricWith tg v, set_counter (fun _ => counter w) w).
Proof.
  intros Hc. unfold step, bind, ret, counter_LoadOrStore, LoadOrStore.
  rewrite Hc. reflexivity.
Qed.

Lemma step_AtRegister c call tg v w vec :
  counterVecs w !! v = Some vec ->
  let d := mkDesc (Name (vopts vec)) (Help (vopts vec)) (ConstLabels (vopts vec))
             (vlabels vec) in
  let err := registerCheck (registry w) d in
  step c call (AtRegister tg v) w
  = (match err with
     | Some e => AtRegisterFailed tg v e
     | None => AtGetMetricWith tg v
     end,
     set_trace (fun t => t ++ [RegEv (OfCounterVec v) err])
       match err with
       | None => set_registry (fun r => r ++ [(d, OfCounterVec v)]) w
       | Some _ => w
       end).
Proof.
  intros Hv. cbv zeta. unfold step, bind, ret, Registry_Register, describe.
  rewrite Hv. cbn [fmap option_fmap option_map]. reflexivity.
Qed.

Lemma step_AtRegisterFailed c call tg v e w :
  step c call (AtRegisterFailed tg v e) w
  = (AtGetMetricWith tg v,
     recordErr_world c (Name (call_opt c call)) (errKindOf "register_counter" e)
       (set_trace (fun t => t ++ [LogEv (errKindOf "register_counter" e)
                                    (Name (call_opt c call))]) w)).
Proof.
  unfold step, bind, logger, emit. rewrite recordErr_eq. reflexivity.
Qed.

Lemma step_AtGetMetricWith c call tg v w t vec :
  maps w !! tg = Some t ->
  counterVecs w !! v = Some vec ->
  step c call (AtGetMetricWith tg v) w
  = if labelsMatch (vlabels vec) t
    then (AtAdd (v, t), set_counterVecs (alter (withChild f64_zero t) v) w)
    else (AtGetFailed, w).
Proof.
  intros Ht Hv. unfold step.
  destruct (labelsMatch (vlabels vec) t) eqn:Hm;
    (erewrite bind_eq;
       [|erewrite CounterVec_GetMetricWith_eq by eassumption; rewrite Hm; reflexivity]);
    reflexivity.
Qed.

Lemma step_AtAdd c call m w :
  step c call (AtAdd m) w
  = (Returned,
     set_counterVecs
       (alter (onChild (fun x => f64_add x (call_value call)) (snd m)) (fst m)) w).
Proof. reflexivity. Qed.

Lemma step_AtGetFailed c call w :
  step c call AtGetFailed w
  = (Returned,
     set_trace (fun t => t ++ [LogEv "get_counter|GetMetricWithLabelFailed"
                                 (Name (call_opt c call))])
       (recordErr_world c (Name (call_opt c call)) "get_counter" w)).
Proof.
  unfold step. erewrite bind_eq by apply recordErr_eq. reflexivity.
Qed.

(** Lists of callers updated in one place. *)

Lemma omap_insert_same {A B} (f : A -> option B) (l : list A) i x y :
  l !! i = Some x -> f y = f x -> omap f (<[i := y]> l) = omap f l.
Proof.
  revert i. induction l as [|a l IH]; intros [|i] Hi Hf; try done.
  - injection Hi as ->. cbn. by rewrite Hf.
  - cbn. destruct (f a); [f_equal|]; apply (IH i Hi Hf).
Qed.

Lemma omap_insert_new {A B} (f : A -> option B) (l : list A) i x y e :
  l !! i = Some x -> f x = None -> f y = Some e ->
  omap f (<[i := y]> l) ≡ₚ e :: omap f l.
Proof.
  revert i. induction l as [|a l IH]; intros [|i] Hi Hx Hy; try done.
  - injection Hi as ->. cbn. by rewrite Hx, Hy.
  - cbn. pose proof (IH i Hi Hx Hy) as IH'. destruct (f a) as [b|]; [|exact IH'].
    etransitivity; [apply Permutation_skip, IH'|apply Permutation_swap].
Qed.

Lemma omap_none {A B} (f : A -> option B) (l : list A) :
  (forall x, x ∈ l -> f x = None) -> omap f l = [].
Proof.
  induction l as [|a l IH]; intros H; [done|].
  cbn. rewrite (H a) by left. apply IH. intros x Hx. apply H. by right.
Qed.

Lemma fmap_fst_insert (p : Pool) i call th th' :
  p !! i = Some (call, th) -> (<[i := (call, th')]> p).*1 = p.*1.
Proof.
  intros Hi. rewrite list_fmap_insert. apply list_insert_id.
  by rewrite list_lookup_fmap, Hi.
Qed.

Lemma pool_update (Q : nat -> Call -> Thread -> Prop) (p : Pool) i call th' :
  (forall j cl t, j <> i -> p !! j = Some (cl, t) -> Q j cl t) ->
  Q i call th' ->
  forall j cl t, <[i := (call, th')]> p !! j = Some (cl, t) -> Q j cl t.
Proof.
  intros Hothers Hnew j cl t Hj. destruct (decide (j = i)) as [->|Hne].
  - destruct (decide (i < length p)%nat) as [Hlt|Hge].
    + rewrite list_lookup_insert_eq in Hj by done. by injection Hj as <- <-.
    + apply lookup_lt_Some in Hj. rewrite length_insert in Hj. lia.
  - rewrite list_lookup_insert_ne in Hj by done. by eapply Hothers.
Qed.

Lemma regs_app w evs :
  family_registrations (set_trace (fun t => t ++ evs) w)
  = family_registrations w
    ++ omap (fun e => match e with
                      | RegEv (OfCounter _ _) _ => None
                      | RegEv c _ => Some c
                      | _ => None
                      end) evs.
Proof. unfold family_registrations. cbn [trace set_trace]. apply omap_app. Qed.

Lemma regs_recordErr_world c name kind w :
  family_registrations (recordErr_world c name kind w) = family_registrations w.
Proof.
  unfold family_registrations, recordErr_world. cbn [trace].
  rewrite omap_app. cbn. by rewrite app_nil_r.
Qed.

Lemma record_all_snoc done o :
  record_all (done ++ [o]) = record_into (record_all done) o.
Proof. unfold record_all. by rewrite fold_left_app. Qed.

Section Interleaving_proofs.
Context (c : client) (w0 : World) (name : string) (calls : list Call).
Local Abbreviation fq := (buildFQName c name (Names.Counter (names c))).
Hypothesis Hname : forall call, call ∈ calls -> call_name call = name.
Hypothesis Hfresh : counter w0 !! fq = None.
Hypothesis Hctx : forall call, call ∈ calls -> ctx_valid (call_ctx call) w0.

Lemma call_in (p : Pool) i call th :
  p.*1 = calls -> p !! i = Some (call, th) -> calls !! i = Some call /\ call ∈ calls.
Proof.
  intros <- Hi.
  assert (H : p.*1 !! i = Some call) by (by rewrite list_lookup_fmap, Hi).
  split; [done|]. by eapply list_elem_of_lookup_2.
Qed.

Lemma call_fq call : call ∈ calls -> Name (call_opt c call) = fq.
Proof. intros Hin. unfold call_opt, prometheusOpt. cbn [Name]. by rewrite (Hname _ Hin). Qed.

Lemma labels_kept w call :
  maps_kept w0 w -> call ∈ calls ->
  merged (call_ctx call) (call_kvs call) w = call_labels w0 call.
Proof.
  intros Hm Hin. unfold call_labels, merged, ctx_labels.
  pose proof (Hctx _ Hin) as Hv. unfold ctx_valid in Hv.
  destruct (ctx_Value (call_ctx call)) as [l|]; [|done].
  destruct (lookup_lt_is_Some_2 _ _ Hv) as [x Hx].
  by rewrite Hx, (Hm _ _ Hx).
Qed.

Lemma maps_kept_grow w w' :
  maps_kept w0 w ->
  (forall l x, maps w !! l = Some x -> maps w' !! l = Some x) ->
  maps_kept w0 w'.
Proof. intros H Hg l x Hl. apply Hg, H, Hl. Qed.

Lemma early_frame w w' call th :
  (forall l x, maps w !! l = Some x -> maps w' !! l = Some x) ->
  (forall l x, counterVecs w !! l = Some x -> counterVecs w' !! l = Some x) ->
  early c w0 w call th -> early c w0 w' call th.
Proof.
  intros Hm Hv. destruct th; cbn [early]; unfold tags_ok; try done.
  - intros [-> Ht]. split; [done|]. by apply Hm.
  - intros [Ht Hc]. split; [by apply Hm | by apply Hv].
Qed.

Lemma late_frame w w' win wc v vec vec' i call th :
  (forall l x, maps w !! l = Some x -> maps w' !! l = Some x) ->
  (family_registrations w' = family_registrations w
   \/ forall tg v', th <> AtRegister tg v') ->
  (forall t, is_Some (vchildren vec !! t) -> is_Some (vchildren vec' !! t)) ->
  late w0 w win wc v vec i call th -> late w0 w' win wc v vec' i call th.
Proof.
  intros Hm Hr Hc. destruct th; cbn [late]; unfold tags_ok; try done.
  - intros [-> Ht]. split; [done|]. by apply Hm.
  - apply Hm.
  - intros (-> & -> & Ht & Hregs). destruct Hr as [Hr|Hr]; [|by destruct (Hr _ _ eq_refl)].
    repeat split; [by apply Hm | by rewrite Hr].
  - intros [-> Ht]. split; [done|]. by apply Hm.
  - intros [-> Ht]. split; [done|]. by apply Hm.
  - intros (-> & Hd & Hs). repeat split; [done|]. by apply Hc.
Qed.

Lemma early_late w win wc v vec i call th :
  early c w0 w call th -> late w0 w win wc v vec i call th.
Proof. destruct th; cbn [early late]; try done. by intros [? _]. Qed.

Lemma early_not_returned w call th : early c w0 w call th -> returned th = false.
Proof. by destruct th. Qed.

Lemma maps_tags_world ctx kvs w l x :
  maps w !! l = Some x -> maps (tags_world ctx kvs w) !! l = Some x.
Proof. intros H. cbn. by apply lookup_app_l_Some, lookup_app_l_Some. Qed.

(** A step taken while no candidate is stored. *)
Lemma racing_step w (p : Pool) i call th :
  racing c w0 calls w p ->
  p !! i = Some (call, th) ->
  interleaving_inv c w0 fq calls (snd (step c call th w))
    (<[i := (call, fst (step c call th w))]> p).
Proof.
  intros [Hcalls Hmaps Hcache Hregs Hth] Hi.
  pose proof (Hth i call th Hi) as He.
  destruct (call_in p i call th Hcalls Hi) as [Hci Hin].
  destruct th as [|keys tg|tg cand| | | | | |]; cbn [early] in He; try done.
  - rewrite step_AtTags. cbn [fst snd]. left. constructor.
    + by rewrite (fmap_fst_insert _ _ _ _ _ Hi).
    + eapply maps_kept_grow; [done|]. apply maps_tags_world.
    + done.
    + done.
    + apply pool_update.
      * intros j cl t _ Hj. eapply (early_frame w); [apply maps_tags_world| |by eapply Hth].
        by intros.
      * cbn [early]. rewrite (labels_kept w call Hmaps Hin). split; [done|].
        unfold tags_ok. cbn. rewrite <- (labels_kept w call Hmaps Hin).
        apply lookup_tags_world.
  - destruct He as [-> Ht]. rewrite step_AtNewCounterVec. cbn [fst snd]. left.
    constructor.
    + by rewrite (fmap_fst_insert _ _ _ _ _ Hi).
    + done.
    + done.
    + done.
    + apply pool_update.
      * intros j cl t _ Hj. eapply (early_frame w); [by intros| |by eapply Hth].
        intros l x Hl. cbn. by apply lookup_app_l_Some.
      * cbn [early]. split; [done|]. cbn. apply lookup_app_last.
  - destruct He as [Ht Hc].
    assert (Hmiss : counter w !! Name (call_opt c call) = None).
    { by rewrite (call_fq _ Hin), Hcache. }
    rewrite (step_AtLoadOrStore_miss _ _ _ _ _ Hmiss). cbn [fst snd].
    right. exists i, call, cand, (counterCand (call_opt c call) (call_labels w0 call)), [].
    constructor.
    + by rewrite (fmap_fst_insert _ _ _ _ _ Hi).
    + done.
    + done.
    + cbn [counter set_counter]. by rewrite (call_fq _ Hin), Hcache.
    + done.
    + done.
    + done.
    + right. exists tg. apply list_lookup_insert_eq. by eapply lookup_lt_Some.
    + apply pool_update.
      * intros j cl t _ Hj. apply early_late.
        eapply (early_frame w); [by intros|by intros|by eapply Hth].
      * cbn [late]. done.
    + rewrite omap_none; [done|]. intros [cl t] Hx.
      apply list_elem_of_lookup in Hx. destruct Hx as [j Hj]. revert j cl t Hj.
      apply pool_update.
      * intros j cl t _ Hj. unfold recorded. cbn [fst snd].
        by rewrite (early_not_returned w cl t (Hth j cl t Hj)).
      * done.
    + intros t y. unfold record_all. cbn. by rewrite lookup_empty.
    + intros t z _. cbn. by rewrite lookup_empty.
Qed.

Lemma withChild_lookup {O} (z : float64) t (vec : Vec O float64) t' y :
  vchildren vec !! t' = Some y -> vchildren (withChild z t vec) !! t' = Some y.
Proof.
  intros H. unfold withChild. destruct (vchildren vec !! t) eqn:E; [done|].
  cbn [vchildren]. rewrite lookup_insert_ne; [done|]. intros ->. congruence.
Qed.

Lemma withChild_is_Some {O} (z : float64) t (vec : Vec O float64) :
  is_Some (vchildren (withChild z t vec) !! t).
Proof.
  unfold withChild. destruct (vchildren vec !! t) eqn:E; [by rewrite E|].
  cbn [vchildren]. by rewrite lookup_insert_eq.
Qed.

(** A step that leaves the stored family, the registrations and the
    recorded observations as they are. *)
Lemma won_frame w w' (p : Pool) win wc v vec done i call th th' :
  won c w0 fq calls w p win wc v vec done ->
  p !! i = Some (call, th) ->
  (forall l x, maps w !! l = Some x -> maps w' !! l = Some x) ->
  counter w' = counter w ->
  counterVecs w' !! v = Some vec ->
  family_registrations w' = family_registrations w ->
  (forall tg v', th <> AtRegister tg v') ->
  (forall m, th <> AtAdd m) ->
  returned th' = returned th \/ dom (call_labels w0 call) <> dom (call_labels w0 wc) ->
  late w0 w' win wc v vec i call th' ->
  won c w0 fq calls w' (<[i := (call, th')]> p) win wc v vec done.
Proof.
  intros [Hcalls Hwin Hmaps Hcache Hvec Hopts Hlabels Hregs Hth Hdone Hch Hpend]
    Hi Hm Hc Hv Hr Hnr Hna Hret Hl.
  constructor; try done.
  - by rewrite (fmap_fst_insert _ _ _ _ _ Hi).
  - by eapply maps_kept_grow.
  - by rewrite Hc.
  - destruct Hregs as [Hregs|[tg Hregs]]; [left; by rewrite Hr|].
    right. exists tg. rewrite list_lookup_insert_ne; [done|].
    intros ->. rewrite Hi in Hregs. injection Hregs as -> ->. by destruct (Hnr tg v).
  - apply pool_update; [|done].
    intros j cl t _ Hj. eapply (late_frame w); [done|by left|done|by eapply Hth].
  - rewrite (omap_insert_same _ _ _ _ _ Hi); [done|].
    unfold recorded. cbn [fst snd]. destruct Hret as [->|Hne]; [done|].
    by rewrite (bool_decide_eq_false_2 _ Hne), !andb_false_r.
  - intros t z Hn Hz. destruct (Hpend t z Hn Hz) as (-> & j & cl & Hj).
    split; [done|]. exists j, cl. rewrite list_lookup_insert_ne; [done|].
    intros ->. rewrite Hi in Hj. injection Hj as -> ->. by destruct (Hna (v, t)).
Qed.

(** A step taken after a candidate was stored. *)
Lemma won_step w (p : Pool) win wc v vec done i call th :
  won c w0 fq calls w p win wc v vec done ->
  p !! i = Some (call, th) ->
  interleaving_inv c w0 fq calls (snd (step c call th w))
    (<[i := (call, fst (step c call th w))]> p).
Proof.
  intros Hw Hi. pose proof Hw as Hw'.
  destruct Hw' as [Hcalls Hwin Hmaps Hcache Hvec Hopts Hlabels Hregs Hth Hdone Hch Hpend].
  pose proof (Hth i call th Hi) as Hl.
  destruct (call_in p i call th Hcalls Hi) as [Hci Hin].
  right. destruct th as [|keys tg|tg cand|tg v1|tg v1 e|tg v1|m| |]; cbn [late] in Hl.
  - (* tags *)
    rewrite step_AtTags. cbn [fst snd]. exists win, wc, v, vec, done.
    eapply won_frame; try done.
    + apply maps_tags_world.
    + by left.
    + cbn [late]. rewrite (labels_kept w call Hmaps Hin). split; [done|].
      unfold tags_ok. cbn. rewrite <- (labels_kept w call Hmaps Hin).
      apply lookup_tags_world.
  - (* NewCounterVec *)
    destruct Hl as [-> Ht]. rewrite step_AtNewCounterVec. cbn [fst snd].
    exists win, wc, v, vec, done.
    eapply won_frame; try done.
    + cbn. by apply lookup_app_l_Some.
    + by left.
  - (* LoadOrStore: the name is taken *)
    assert (Hhit : counter w !! Name (call_opt c call) = Some v).
    { by rewrite (call_fq _ Hin), Hcache, lookup_insert_eq. }
    rewrite (step_AtLoadOrStore_hit _ _ _ _ _ _ Hhit). cbn [fst snd].
    exists win, wc, v, vec, done.
    eapply won_frame; try done. by left.
  - (* Register *)
    destruct Hl as (<- & -> & Ht & Hr0).
    rewrite (step_AtRegister _ _ _ _ _ _ Hvec). cbv zeta.
    set (d := mkDesc _ _ _ _). set (err := registerCheck (registry w) d).
    cbn [fst snd]. exists i, wc, v, vec, done.
    assert (Hm' : maps (set_trace (fun t => t ++ [RegEv (OfCounterVec v) err])
                    match err with
                    | None => set_registry (fun r => r ++ [(d, OfCounterVec v)]) w
                    | Some _ => w
                    end) = maps w) by (by destruct err).
    assert (Hr' : family_registrations
                    (set_trace (fun t => t ++ [RegEv (OfCounterVec v) err])
                       match err with
                       | None => set_registry (fun r => r ++ [(d, OfCounterVec v)]) w
                       | Some _ => w
                       end) = family_registrations w0 ++ [OfCounterVec v]).
    { rewrite regs_app, <- Hr0. by destruct err. }
    constructor; try done.
    + by rewrite (fmap_fst_insert _ _ _ _ _ Hi).
    + intros l x Hx. rewrite Hm'. by apply Hmaps.
    + by destruct err.
    + by destruct err.
    + by left.
    + apply pool_update.
      * intros j cl t Hne Hj. eapply (late_frame w); [| |done|by eapply Hth].
        -- intros l x Hx. by rewrite Hm'.
        -- right. intros tg' v' ->. by destruct (Hth j cl _ Hj) as (-> & _).
      * unfold tags_ok in *. destruct err; cbn [late]; by rewrite ?Hm'.
    + rewrite (omap_insert_same _ _ _ _ _ Hi); [done|].
      unfold recorded. cbn [fst snd]. by destruct err.
    + intros t z Hn Hz. destruct (Hpend t z Hn Hz) as (-> & j & cl & Hj).
      split; [done|]. exists j, cl. rewrite list_lookup_insert_ne; [done|].
      intros ->. rewrite Hi in Hj. by injection Hj.
  - (* the registration failed *)
    destruct Hl as (-> & Ht). rewrite step_AtRegisterFailed. cbn [fst snd].
    exists win, wc, v, vec, done.
    eapply won_frame; try done.
    + intros l x Hx. by apply maps_recordErr_world.
    + by apply counterVecs_recordErr_world.
    + rewrite regs_recordErr_world, regs_app. cbn. by rewrite app_nil_r.
    + by left.
    + cbn [late]. split; [done|]. by apply maps_recordErr_world.
  - (* GetMetricWith *)
    destruct Hl as (-> & Ht).
    rewrite (step_AtGetMetricWith _ _ _ _ _ _ _ Ht Hvec), Hlabels.
    destruct (labelsMatch _ _) eqn:Hm.
    + apply labelsMatch_keys_of in Hm. cbn [fst snd].
      exists win, wc, v, (withChild f64_zero (call_labels w0 call) vec), done.
      constructor; try done.
      * by rewrite (fmap_fst_insert _ _ _ _ _ Hi).
      * cbn. by rewrite list_lookup_alter_eq, Hvec.
      * by rewrite vopts_withChild.
      * by rewrite vlabels_withChild.
      * destruct Hregs as [Hregs|[tg' Hregs]]; [by left|].
        right. exists tg'. rewrite list_lookup_insert_ne; [done|].
        intros ->. rewrite Hi in Hregs. by injection Hregs.
      * apply pool_update.
        -- intros j cl t _ Hj. eapply (late_frame w); [by intros|by left| |by eapply Hth].
           intros t' [y Hy]. exists y. by apply withChild_lookup.
        -- cbn [late]. split; [done|]. split; [done|]. apply withChild_is_Some.
      * by rewrite (omap_insert_same _ _ _ _ _ Hi).
      * intros t y Hy. by apply withChild_lookup, Hch.
      * intros t z Hn Hz. unfold withChild in Hz.
        destruct (vchildren vec !! call_labels w0 call) eqn:E.
        -- destruct (Hpend t z Hn Hz) as (-> & j & cl & Hj).
           split; [done|]. exists j, cl. rewrite list_lookup_insert_ne; [done|].
           intros ->. rewrite Hi in Hj. by injection Hj.
        -- cbn [vchildren] in Hz. destruct (decide (call_labels w0 call = t)) as [<-|Hne].
           ++ rewrite lookup_insert_eq in Hz. injection Hz as <-. split; [done|].
              exists i, call. apply list_lookup_insert_eq. by eapply lookup_lt_Some.
           ++ rewrite lookup_insert_ne in Hz by done.
              destruct (Hpend t z Hn Hz) as (-> & j & cl & Hj).
              split; [done|]. exists j, cl. rewrite list_lookup_insert_ne; [done|].
              intros ->. rewrite Hi in Hj. by injection Hj.
    + cbn [fst snd]. exists win, wc, v, vec, done.
      eapply won_frame; try done.
      * by left.
      * cbn [late]. intros Hd. apply labelsMatch_keys_of in Hd. congruence.
  - (* Add *)
    destruct Hl as (-> & Hd & [c0 Hc0]). rewrite step_AtAdd. cbn [fst snd].
    set (t := call_labels w0 call) in *. set (x := call_value call).
    exists win, wc, v, (onChild (fun y => f64_add y x) t vec), (done ++ [(t, x)]).
    constructor; try done.
    + by rewrite (fmap_fst_insert _ _ _ _ _ Hi).
    + cbn. by rewrite list_lookup_alter_eq, Hvec.
    + destruct Hregs as [Hregs|[tg' Hregs]]; [by left|].
      right. exists tg'. rewrite list_lookup_insert_ne; [done|].
      intros ->. rewrite Hi in Hregs. by injection Hregs.
    + apply pool_update; [|done].
      intros j cl t' _ Hj. eapply (late_frame w); [by intros|by left| |by eapply Hth].
      intros t'' Hs. cbn [onChild vchildren]. by apply lookup_alter_is_Some.
    + rewrite (omap_insert_new _ _ _ _ _ (t, x) Hi).
      * rewrite <- Hdone. symmetry. apply Permutation_cons_append.
      * done.
      * unfold recorded. cbn [fst snd returned andb].
        by rewrite bool_decide_eq_true_2.
    + intros t' y. rewrite record_all_snoc. unfold record_into. cbn [fst snd onChild vchildren].
      destruct (decide (t = t')) as [<-|Hne].
      * rewrite lookup_insert_eq, lookup_alter_eq, Hc0. intros [= <-]. cbn.
        destruct (record_all done !! t) as [d0|] eqn:E.
        -- rewrite (Hch _ _ E) in Hc0. by injection Hc0 as ->.
        -- by destruct (Hpend _ _ E Hc0) as [-> _].
      * rewrite lookup_insert_ne, lookup_alter_ne by done. apply Hch.
    + intros t' z. rewrite record_all_snoc. unfold record_into. cbn [fst snd onChild vchildren].
      destruct (decide (t = t')) as [<-|Hne]; [by rewrite lookup_insert_eq|].
      rewrite lookup_insert_ne, lookup_alter_ne by done. intros Hn Hz.
      destruct (Hpend t' z Hn Hz) as (-> & j & cl & Hj).
      split; [done|]. exists j, cl. rewrite list_lookup_insert_ne; [done|].
      intros ->. rewrite Hi in Hj. injection Hj as _ Ht. by destruct Hne.
  - (* GetMetricWith failed *)
    rewrite step_AtGetFailed. cbn [fst snd]. exists win, wc, v, vec, done.
    eapply won_frame; try done.
    + intros l x Hx. by apply maps_recordErr_world.
    + by apply counterVecs_recordErr_world.
    + rewrite regs_app, regs_recordErr_world. cbn. by rewrite app_nil_r.
    + by right.
  - (* returned *)
    cbn [step ret fst snd]. exists win, wc, v, vec, done.
    by rewrite (list_insert_id _ _ _ Hi).
Qed.

End Interleaving_proofs.

(** A caller that runs alone does what [RecordN] does. *)
Lemma exec_alone c call th sched w :
  exec c (0%nat :: sched) [(call, th)] w
  = exec c sched [(call, fst (step c call th w))] (snd (step c call th w)).
Proof.
  cbn [exec]. unfold sched_step, bind, ret. cbn [lookup list_lookup].
  by destruct (step c call th w).
Qed.

Lemma alone_is_RecordN c call w :
  exec c (replicate 7 0%nat) [(call, AtTags)] w
  = ([(call, Returned)],
     snd (RecordN c (call_ctx call) (call_name call) (call_desc call)
            (call_value call) (call_kvs call) w)).
Proof.
  unfold RecordN, getCounter, register. fold (call_opt c call).
  cbn [replicate]. rewrite !exec_alone. cbn [exec]. unfold ret, bind.
  cbn [step]. unfold ret, bind.
  destruct (tags (call_ctx call) (call_kvs call) w) as [[keys tg] w1].
  cbn [fst snd step]. unfold ret, bind.
  destruct (NewCounterVec (call_opt c call) keys w1) as [cand w2].
  cbn [fst snd step]. unfold ret, bind.
  destruct (counter_LoadOrStore (Name (call_opt c call)) cand w2) as [[v loaded] w3].
  destruct loaded; cbn [negb fst snd step]; unfold ret, bind.
  - destruct (CounterVec_GetMetricWith v tg w3) as [[m|] w4];
      cbn [fst snd step]; unfold ret, bind.
    + by destruct (Counter_Add m (call_value call) w4) as [[] w5].
    + destruct (recordErr c (Name (call_opt c call)) "get_counter" w4) as [[] w5].
      by destruct (logger (call_ctx call) "get_counter|GetMetricWithLabelFailed"
                     (Name (call_opt c call)) w5) as [[] w6].
  - destruct (Registry_Register (OfCounterVec v) w3) as [[e|] w4];
      cbn [fst snd step]; unfold ret, bind.
    + destruct (logger (call_ctx call) _ _ w4) as [[] w5].
      destruct (recordErr c _ _ w5) as [[] w6]. cbn [fst snd step]. unfold ret, bind.
      destruct (CounterVec_GetMetricWith v tg w6) as [[m|] w7];
        cbn [fst snd step]; unfold ret, bind.
      * by destruct (Counter_Add m (call_value call) w7) as [[] w8].
      * destruct (recordErr c (Name (call_opt c call)) "get_counter" w7) as [[] w8].
        by destruct (logger (call_ctx call) "get_counter|GetMetricWithLabelFailed"
                       (Name (call_opt c call)) w8) as [[] w9].
    + destruct (CounterVec_GetMetricWith v tg w4) as [[m|] w5];
        cbn [fst snd step]; unfold ret, bind.
      * by destruct (Counter_Add m (call_value call) w5) as [[] w6].
      * destruct (recordErr c (Name (call_opt c call)) "get_counter" w5) as [[] w6].
        by destruct (logger (call_ctx call) "get_counter|GetMetricWithLabelFailed"
                       (Name (call_opt c call)) w6) as [[] w7].
Qed.

Section Interleaving_result.
Context (c : client) (w0 : World) (name : string) (calls : list Call).
Local Abbreviation fq := (buildFQName c name (Names.Counter (names c))).
Hypothesis Hname : forall call, call ∈ calls -> call_name call = name.
Hypothesis Hfresh : counter w0 !! fq = None.
Hypothesis Hctx : forall call, call ∈ calls -> ctx_valid (call_ctx call) w0.

Lemma sched_step_inv i (p : Pool) w :
  interleaving_inv c w0 fq calls w p ->
  interleaving_inv c w0 fq calls (snd (sched_step c i p w)) (fst (sched_step c i p w)).
Proof.
  intros H. unfold sched_step. destruct (p !! i) as [[call th]|] eqn:Hi; [|done].
  assert (R : interleaving_inv c w0 fq calls (snd (step c call th w))
                (<[i := (call, fst (step c call th w))]> p)).
  { destruct H as [H | (win & wc & v & vec & done & H)].
    - by apply (racing_step c w0 name calls Hname Hfresh Hctx).
    - by apply (won_step c w0 name calls Hname Hctx w p win wc v vec done). }
  unfold bind, ret. by destruct (step c call th w).
Qed.

Lemma exec_inv sched : forall (p : Pool) w,
  interleaving_inv c w0 fq calls w p ->
  interleaving_inv c w0 fq calls (snd (exec c sched p w)) (fst (exec c sched p w)).
Proof.
  induction sched as [|i sched IH]; intros p w H; [done|].
  cbn [exec]. unfold bind. pose proof (sched_step_inv i p w H) as H1.
  destruct (sched_step c i p w) as [p1 w1]. by apply IH.
Qed.

Lemma spawn_inv : interleaving_inv c w0 fq calls w0 (spawn calls).
Proof.
  left. constructor; try done.
  - unfold spawn. rewrite <- list_fmap_compose. apply list_fmap_id.
  - by intros l x.
  - intros i call th Hi. unfold spawn in Hi. rewrite list_lookup_fmap in Hi.
    destruct (calls !! i); [|done]. by injection Hi as <- <-.
Qed.

Lemma finished_lookup (p : Pool) i call th :
  finished p = true -> p !! i = Some (call, th) -> th = Returned.
Proof.
  intros Hf Hi. unfold finished in Hf. rewrite forallb_forall in Hf.
  assert (Hin : In (call, th) p) by (by eapply list_elem_of_In, list_elem_of_lookup_2).
  specialize (Hf _ Hin). by destruct th.
Qed.

Lemma recorded_finished keys (p : Pool) :
  finished p = true ->
  omap (recorded w0 keys) p
  = observation w0 <$> filter (fun call => dom (call_labels w0 call) = keys) p.*1.
Proof.
  induction p as [|[call th] p IH]; [done|].
  unfold finished. cbn [forallb snd]. intros [Hr Hf]%andb_true_iff.
  cbn [omap list_omap fmap list_fmap fst]. rewrite filter_cons.
  unfold recorded at 1. cbn [fst snd]. rewrite Hr. cbn [andb].
  destruct (decide (dom (call_labels w0 call) = keys)) as [Hd|Hd].
  - rewrite bool_decide_eq_true_2 by done. cbn. f_equal. by apply IH.
  - rewrite bool_decide_eq_false_2 by done. by apply IH.
Qed.

Lemma finished_result w (p : Pool) :
  calls <> [] ->
  interleaving_inv c w0 fq calls w p ->
  finished p = true ->
  exists wc v vec done,
    wc ∈ calls
    /\ counter w = <[fq := v]> (counter w0)
    /\ counterVecs w !! v = Some vec
    /\ vopts vec = call_opt c wc
    /\ vlabels vec = keys_of (call_labels w0 wc)
    /\ family_registrations w = family_registrations w0 ++ [OfCounterVec v]
    /\ done ≡ₚ observation w0
                 <$> filter (fun call => dom (call_labels w0 call)
                                         = dom (call_labels w0 wc)) calls
    /\ vchildren vec = record_all done.
Proof.
  intros Hne [H | (win & wc & v & vec & done & H)] Hf.
  - destruct H as [Hcalls _ _ _ Hth]. destruct p as [|[call th] p].
    + by destruct Hne.
    + pose proof (Hth 0%nat call th eq_refl) as He.
      rewrite (finished_lookup _ 0%nat call th Hf eq_refl) in He. done.
  - destruct H as [Hcalls Hwin Hmaps Hcache Hvec Hopts Hlabels Hregs Hth Hdone Hch Hpend].
    exists wc, v, vec, done. repeat split; try done.
    + by eapply list_elem_of_lookup_2.
    + destruct Hregs as [Hregs|[tg Hregs]]; [done|].
      by pose proof (finished_lookup _ _ _ _ Hf Hregs).
    + by rewrite Hdone, (recorded_finished _ _ Hf), Hcalls.
    + apply map_eq. intros t. destruct (record_all done !! t) as [y|] eqn:E.
      * by apply Hch.
      * destruct (vchildren vec !! t) as [z|] eqn:Ez; [|done].
        destruct (Hpend t z E Ez) as (_ & j & cl & Hj).
        by pose proof (finished_lookup _ _ _ _ Hf Hj).
Qed.

End Interleaving_result.

Lemma filter_all {A} (P : A -> Prop) `{forall x, Decision (P x)} (l : list A) :
  (forall x, x ∈ l -> P x) -> filter P l = l.
Proof.
  induction l as [|a l IH]; intros HP; [done|].
  rewrite filter_cons, decide_True by (apply HP; left).
  f_equal. apply IH. intros x Hx. apply HP. by right.
Qed.

(** C3, as amended: callers that make the first observation of a counter
    name concurrently all return under every schedule that lets each take
    its steps; when all have returned, the cache holds the candidate
    family of exactly one of them, that family is the one family handed
    to the registry, once, and it holds, summed in the order of the [Add]
    calls, the observations of all callers whose merged label keys are
    those of the stored family: all of them when the callers agree on
    their label keys. *)
Theorem concurrent_first_use_registers_once :
  forall c w0 name calls,
    let fq := buildFQName c name (Names.Counter (names c)) in
    calls <> [] ->
    (forall call, call ∈ calls -> call_name call = name) ->
    counter w0 !! fq = None ->
    (forall call, call ∈ calls -> ctx_valid (call_ctx call) w0) ->
    (forall sched,
       fair (length calls) sched ->
       finished (fst (exec c sched (spawn calls) w0)) = true)
    /\ (forall sched,
       let r := exec c sched (spawn calls) w0 in
       finished (fst r) = true ->
       exists wc v vec done,
         wc ∈ calls
         /\ counter (snd r) = <[fq := v]> (counter w0)
         /\ counterVecs (snd r) !! v = Some vec
         /\ vopts vec = call_opt c wc
         /\ vlabels vec = keys_of (call_labels w0 wc)
         /\ family_registrations (snd r)
            = family_registrations w0 ++ [OfCounterVec v]
         /\ done ≡ₚ observation w0
                      <$> filter (fun call => dom (call_labels w0 call)
                                              = dom (call_labels w0 wc)) calls
         /\ vchildren vec = record_all done
         /\ ((forall a b, a ∈ calls -> b ∈ calls ->
                dom (call_labels w0 a) = dom (call_labels w0 b)) ->
             done ≡ₚ observation w0 <$> calls)).
Proof.
  intros c w0 name calls fq Hne Hname Hfresh Hctx. split.
  - intros sched Hfair. by apply fair_finishes.
  - intros sched r Hf.
    destruct (finished_result c w0 name calls (snd r) (fst r) Hne) as
      (wc & v & vec & done & Hwc & Hc & Hv & Ho & Hl & Hr & Hd & Hch).
    + apply exec_inv; [done..|]. apply spawn_inv.
    + done.
    + exists wc, v, vec, done. repeat split; try done.
      intros Hsame. rewrite Hd, filter_all; [done|].
      intros x Hx. by apply Hsame.
Qed.

Lemma concurrent_first_use_witness :
  let c := NewClient [] in
  let calls := [mkCall Background "m" "d" (f64_of_Z 1) ["k"; "a"];
                mkCall Background "m" "d" (f64_of_Z 2) ["k"; "b"];
                mkCall Background "m" "d" (f64_of_Z 4) ["k"; "a"]] in
  let sched := [0; 1; 2; 2; 1; 0; 0; 1; 2; 1; 1; 2; 0; 2; 0; 1; 2; 0; 0; 1; 2]%nat in
  let r := exec c sched (spawn calls) emptyWorld in
  finished (fst r) = true
  /\ exists v vec done,
       counter (snd r) = {[ "counter:m" := v ]}
       /\ counterVecs (snd r) !! v = Some vec
       /\ family_registrations (snd r) = [OfCounterVec v]
       /\ done ≡ₚ observation emptyWorld <$> calls
       /\ vchildren vec = record_all done.
Proof.
  intros c calls sched r.
  assert (Hf : finished (fst r) = true) by (vm_compute; reflexivity).
  split; [exact Hf|].
  assert (Hin : forall call, call ∈ calls ->
            call_name call = "m" /\ call_ctx call = Background
            /\ dom (call_labels emptyWorld call) = {[ "k" ]}).
  { intros call H. unfold calls in H.
    repeat (apply elem_of_cons in H as [->|H];
            [split; [reflexivity|split; [reflexivity|vm_compute; reflexivity]]|]).
    destruct (proj1 (elem_of_nil _) H). }
  destruct (concurrent_first_use_registers_once c emptyWorld "m" calls) as [_ H].
  - discriminate.
  - intros call Hc. exact (proj1 (Hin call Hc)).
  - vm_compute. reflexivity.
  - intros call Hc. rewrite (proj1 (proj2 (Hin call Hc))). exact I.
  - destruct (H sched Hf) as (wc & v & vec & done & _ & Hc & Hv & _ & _ & Hr & _ & Hch & Hall).
    exists v, vec, done. fold r in Hc, Hv, Hr.
    split; [rewrite Hc; apply insert_empty|].
    split; [exact Hv|]. split; [exact Hr|]. split; [|exact Hch].
    apply Hall. intros a b Ha Hb.
    rewrite (proj2 (proj2 (Hin a Ha))), (proj2 (proj2 (Hin b Hb))). reflexivity.
Defined.

(** The claim as it was stated fails for callers that do not agree on
    their label keys: of two concurrent first users, one with the label
    [k] and one without labels, the second finds the family of the first
    in the cache, its observation is refused by [GetMetricWith] and
    dropped. *)
Lemma concurrent_first_use_counterexample :
  let c := NewClient [] in
  let calls := [mkCall Background "m" "d" (f64_of_Z 1) ["k"; "a"];
                mkCall Background "m" "d" (f64_of_Z 2) []] in
  let sched := [0; 1; 0; 1; 0; 1; 0; 1; 0; 1; 0; 1; 0; 1]%nat in
  let r := exec c sched (spawn calls) emptyWorld in
  finished (fst r) = true
  /\ family_registrations (snd r) = [OfCounterVec 0%nat]
  /\ map_to_list (counter (snd r)) = [("counter:m", 0%nat)]
  /\ (map_to_list ∘ vchildren <$> counterVecs (snd r) !! 0%nat)
     = Some [({[ "k" := "a" ]}, f64_of_Z 1)]
  /\ errs (snd r) = [("counter:m", "get_counter")].
Proof. vm_compute. repeat split; reflexivity. Qed.

(** ** The pairing loop *)

Lemma kv_pairs_lookup_le (n : nat) : forall (kvs : list string) i k v,
  (length kvs <= n)%nat ->
  kv_pairs kvs !! i = Some (k, v)
  <-> kvs !! (2 * i)%nat = Some k /\ kvs !! (2 * i + 1)%nat = Some v.
Proof.
  induction n as [|n IH]; intros kvs i k v Hn.
  - destruct kvs; [|cbn in Hn; lia]. cbn. rewrite !lookup_nil. naive_solver.
  - destruct kvs as [|a [|b rest]].
    + cbn. rewrite !lookup_nil. naive_solver.
    + cbn [kv_pairs]. rewrite lookup_nil. split; [done|].
      intros [_ H]. replace (2 * i + 1)%nat with (S (2 * i)) in H by lia.
      by cbn in H.
    + cbn [kv_pairs]. destruct i as [|i].
      * cbn. naive_solver.
      * replace (2 * S i)%nat with (S (S (2 * i))) by lia.
        replace (S (S (2 * i)) + 1)%nat with (S (S (2 * i + 1))) by lia.
        cbn [lookup list_lookup]. apply IH. cbn in Hn. lia.
Qed.

Lemma kv_pairs_length_le (n : nat) : forall kvs : list string,
  (length kvs <= n)%nat -> length (kv_pairs kvs) = Nat.div2 (length kvs).
Proof.
  induction n as [|n IH]; intros kvs Hn.
  - by destruct kvs; [|cbn in Hn; lia].
  - destruct kvs as [|a [|b rest]]; [done..|].
    cbn [kv_pairs length Nat.div2]. f_equal. apply IH. cbn in Hn. lia.
Qed.

(** X1: [rangeKV] calls [f] on the pairs [(kvs[0], kvs[1])],
    [(kvs[2], kvs[3])], ... in this order and on nothing else: half the
    length of [kvs] calls, rounded down, so none for an empty list or a
    single element, and a trailing element without partner is never read. *)
Theorem rangeKV_visits_consecutive_pairs :
  forall (f : string -> string -> M unit) (kvs : list string) (w : World),
    rangeKV kvs f w = (tt, run_pairs f (kv_pairs kvs) w)
    /\ length (kv_pairs kvs) = Nat.div2 (length kvs)
    /\ (forall i k v,
          kv_pairs kvs !! i = Some (k, v)
          <-> kvs !! (2 * i)%nat = Some k /\ kvs !! (2 * i + 1)%nat = Some v).
Proof.
  intros f kvs w. split; [apply rangeKV_pairs|]. split.
  - by apply (kv_pairs_length_le (length kvs)).
  - intros i k v. by apply (kv_pairs_lookup_le (length kvs)).
Qed.

(** ** Reading the labels of a context *)

(** X2: [CtxGetLabels] returns a new map that holds the labels of the
    context (no label for a context without any); the map is none of the
    maps that existed, the context's own included, so writing to it
    changes neither the labels of the context nor any other map. *)
Theorem CtxGetLabels_returns_a_copy :
  forall ctx w,
    let l := fst (CtxGetLabels ctx w) in
    let w' := snd (CtxGetLabels ctx w) in
    maps w' !! l = Some (ctx_labels ctx w)
    /\ (ctx_Value ctx = None -> maps w' !! l = Some ∅)
    /\ (length (maps w) <= l)%nat
    /\ (forall l0 x, maps w !! l0 = Some x -> maps w' !! l0 = Some x)
    /\ (forall k v l0 x,
          maps w !! l0 = Some x ->
          maps (snd (map_store l k v w')) !! l0 = Some x)
    /\ (forall k v,
          ctx_valid ctx w ->
          ctx_labels ctx (snd (map_store l k v w')) = ctx_labels ctx w)
    /\ (forall k v,
          maps (snd (map_store l k v w')) !! l = Some (<[k := v]> (ctx_labels ctx w))).
Proof.
  intros ctx w. cbv zeta. rewrite CtxGetLabels_eq. cbn [fst snd maps set_maps].
  assert (Hl : (length (maps w) <= tags_loc ctx w)%nat) by (unfold tags_loc; lia).
  assert (Hkeep : forall k v l0 x,
            maps w !! l0 = Some x ->
            maps (snd (map_store (tags_loc ctx w) k v
                    (set_maps (fun h => (h ++ ctx_pad ctx) ++ [ctx_labels ctx w]) w)))
              !! l0 = Some x).
  { intros k v l0 x Hx. cbn. rewrite list_lookup_alter_ne.
    - by apply lookup_app_l_Some, lookup_app_l_Some.
    - apply lookup_lt_Some in Hx. lia. }
  split; [apply lookup_tags_world|]. split.
  { intros Hn. rewrite lookup_tags_world. unfold ctx_labels. by rewrite Hn. }
  split; [exact Hl|]. split.
  { intros l0 x Hx. by apply lookup_app_l_Some, lookup_app_l_Some. }
  split; [exact Hkeep|]. split.
  - intros k v Hv. unfold ctx_labels, ctx_valid in *.
    destruct (ctx_Value ctx) as [l0|]; [|done].
    destruct (lookup_lt_is_Some_2 _ _ Hv) as [x Hx].
    by rewrite (Hkeep k v l0 x Hx), Hx.
  - intros k v. cbn. by rewrite list_lookup_alter_eq, lookup_tags_world.
Qed.

Lemma CtxGetLabels_copy_witness :
  let r1 := CtxAddLabels Background ["k"; "v"] emptyWorld in
  let r := CtxGetLabels (fst r1) (snd r1) in
  maps (snd r) !! fst r = Some {[ "k" := "v" ]}
  /\ ctx_labels (fst r1) (snd (map_store (fst r) "k" "other" (snd r))) = {[ "k" := "v" ]}.
Proof.
  intros r1 r.
  destruct (CtxGetLabels_returns_a_copy (fst r1) (snd r1))
    as (Hc & _ & _ & _ & _ & Hs & _).
  fold r in Hc, Hs. split.
  - rewrite Hc. vm_compute. reflexivity.
  - rewrite Hs; [vm_compute; reflexivity|]. vm_compute. lia.
Defined.

(** ** Adding labels twice *)

Lemma kv_pairs_app_even_le (n : nat) : forall kvs1 kvs2 : list string,
  (length kvs1 <= n)%nat -> Nat.Even (length kvs1) ->
  kv_pairs (kvs1 ++ kvs2) = kv_pairs kvs1 ++ kv_pairs kvs2.
Proof.
  induction n as [|n IH]; intros kvs1 kvs2 Hn He.
  - by destruct kvs1; [|cbn in Hn; lia].
  - destruct kvs1 as [|a [|b rest]]; [done| |].
    + destruct He as [m Hm]. cbn in Hm. lia.
    + cbn [app kv_pairs]. f_equal. apply IH; [cbn in Hn; lia|].
      destruct He as [m Hm]. cbn in Hm. exists (m - 1)%nat. lia.
Qed.

Lemma apply_pairs_app (m : Labels) ps1 ps2 :
  apply_pairs m (ps1 ++ ps2) = apply_pairs (apply_pairs m ps1) ps2.
Proof. unfold apply_pairs. apply fold_left_app. Qed.

Lemma ctx_labels_CtxAddLabels ctx kvs w :
  ctx_labels (fst (CtxAddLabels ctx kvs w)) (snd (CtxAddLabels ctx kvs w))
  = apply_pairs (ctx_labels ctx w) (kv_pairs kvs).
Proof.
  rewrite CtxAddLabels_eq. cbn [fst snd]. unfold ctx_labels at 1.
  cbn [ctx_Value tags_world maps set_maps]. by rewrite lookup_tags_world.
Qed.

(** X3: labels added in two calls are the labels added in one call with
    the two lists joined, when the first list has an even length (all of
    its elements are paired); adding no labels gives a context with the
    labels of the original. *)
Theorem CtxAddLabels_twice :
  forall ctx kvs1 kvs2 w,
    Nat.Even (length kvs1) ->
    let r1 := CtxAddLabels ctx kvs1 w in
    let r2 := CtxAddLabels (fst r1) kvs2 (snd r1) in
    let r := CtxAddLabels ctx (kvs1 ++ kvs2) w in
    let r0 := CtxAddLabels ctx [] w in
    ctx_labels (fst r2) (snd r2) = ctx_labels (fst r) (snd r)
    /\ ctx_labels (fst r0) (snd r0) = ctx_labels ctx w.
Proof.
  intros ctx kvs1 kvs2 w He. cbv zeta.
  rewrite !ctx_labels_CtxAddLabels. split; [|done].
  rewrite (kv_pairs_app_even_le (length kvs1)) by done.
  by rewrite apply_pairs_app.
Qed.

Lemma CtxAddLabels_twice_witness :
  let r1 := CtxAddLabels Background ["a"; "1"; "b"; "2"] emptyWorld in
  let r2 := CtxAddLabels (fst r1) ["a"; "3"] (snd r1) in
  let r := CtxAddLabels Background ["a"; "1"; "b"; "2"; "a"; "3"] emptyWorld in
  ctx_labels (fst r2) (snd r2) = ctx_labels (fst r) (snd r)
  /\ ctx_labels (fst r) (snd r) = {[ "a" := "3"; "b" := "2" ]}.
Proof.
  intros r1 r2 r. split.
  - apply (CtxAddLabels_twice Background ["a"; "1"; "b"; "2"] ["a"; "3"] emptyWorld).
    exists 2%nat. reflexivity.
  - vm_compute. reflexivity.
Defined.

(** ** Building a client *)



(** ** Names of different kinds *)

Lemma append_inv_head (s a b : string) : s +:+ a = s +:+ b -> a = b.
Proof.
  induction s as [|x s IH]; [done|].
  intros H. apply IH.
  change (String x (s +:+ a) = String x (s +:+ b)) in H. by injection H.
Qed.

Lemma append_nil_r (s : string) : s +:+ "" = s.
Proof.
  induction s as [|x s IH]; [done|].
  change (String x (s +:+ "") = String x s). by rewrite IH.
Qed.

Lemma buildFQName_lead c name na x r :
  Prefix na = String x r ->
  buildFQName c name na
  = fq_lead c +:+ Prefix na +:+ Name.EscapeName name +:+ Suffix na.
Proof.
  intros Hp. unfold buildFQName, fq_lead, IsNotZero. cbn [List.filter]. rewrite Hp.
  change (String x r +:+ Name.EscapeName name +:+ Suffix na)
    with (String x (r +:+ Name.EscapeName name +:+ Suffix na)).
  cbn [String.eqb negb].
  destruct (String.eqb (namespace c) ""), (String.eqb (subsystem c) "");
    cbn [negb strings_Join fold_left]; rewrite ?string_app_assoc; reflexivity.
Qed.

(** X5: two metric names of one client never coincide when the prefixes of
    their kinds begin with different characters, whatever the raw names
    are; with the default appends this holds between counters, gauges,
    histograms, summaries and timers, so that [Record], [Store],
    [Histogram], [Summary] and [Cost] never meet in the registry under
    one name. *)
Theorem kinds_with_distinct_prefixes_never_share_a_name :
  (forall c n1 n2 na1 na2 x1 r1 x2 r2,
     Prefix na1 = String x1 r1 -> Prefix na2 = String x2 r2 -> x1 <> x2 ->
     buildFQName c n1 na1 <> buildFQName c n2 na2)
  /\ (forall c n1 n2,
     names c = defaultNames ->
     let fq kind n := buildFQName c n (kind (names c)) in
     fq Names.Counter n1 <> fq Names.Gauge n2
     /\ fq Names.Counter n1 <> fq Names.Histogram n2
     /\ fq Names.Counter n1 <> fq Names.Summary n2
     /\ fq Names.Counter n1 <> fq Names.Timer n2
     /\ fq Names.Gauge n1 <> fq Names.Histogram n2
     /\ fq Names.Gauge n1 <> fq Names.Summary n2
     /\ fq Names.Gauge n1 <> fq Names.Timer n2
     /\ fq Names.Histogram n1 <> fq Names.Summary n2
     /\ fq Names.Histogram n1 <> fq Names.Timer n2
     /\ fq Names.Summary n1 <> fq Names.Timer n2).
Proof.
  assert (H : forall c n1 n2 na1 na2 x1 r1 x2 r2,
     Prefix na1 = String x1 r1 -> Prefix na2 = String x2 r2 -> x1 <> x2 ->
     buildFQName c n1 na1 <> buildFQName c n2 na2).
  { intros c n1 n2 na1 na2 x1 r1 x2 r2 H1 H2 Hx Heq.
    rewrite (buildFQName_lead _ _ _ _ _ H1), (buildFQName_lead _ _ _ _ _ H2) in Heq.
    apply append_inv_head in Heq. rewrite H1, H2 in Heq.
    change (String x1 (r1 +:+ Name.EscapeName n1 +:+ Suffix na1)
            = String x2 (r2 +:+ Name.EscapeName n2 +:+ Suffix na2)) in Heq.
    injection Heq as Hx' _. by destruct Hx. }
  split; [exact H|].
  intros c n1 n2 Hn. cbv zeta. rewrite Hn.
  repeat split; eapply H; try reflexivity; discriminate.
Qed.

Lemma kinds_distinct_witness :
  let c := NewClient [WithNamespace "ns"] in
  buildFQName c "x" (Names.Timer (names c)) <> buildFQName c "x" (Names.Summary (names c))
  /\ buildFQName c "x" (Names.Timer (names c)) = "ns:timer:x_seconds"
  /\ buildFQName c "x" (Names.Summary (names c)) = "ns:summary:x".
Proof.
  intros c. split; [|split; vm_compute; reflexivity].
  apply (proj1 kinds_with_distinct_prefixes_never_share_a_name
           c "x" "x" _ _ "t"%char "imer:" "s"%char "ummary:");
    [reflexivity|reflexivity|discriminate].
Defined.

(** ** Label maps are never changed by an observation *)

Lemma keeps_ret {A} (a : A) : keeps_maps (ret a).
Proof. by intros w l x. Qed.

Lemma keeps_bind {A B} (m : M A) (k : A -> M B) :
  keeps_maps m -> (forall a, keeps_maps (k a)) -> keeps_maps (bind m k).
Proof.
  intros Hm Hk w l x Hx. unfold bind. specialize (Hm w l x Hx).
  destruct (m w) as [a w']. by apply Hk.
Qed.

Lemma keeps_same {A} (m : M A) :
  (forall w, maps (snd (m w)) = maps w) -> keeps_maps m.
Proof. intros H w l x Hx. by rewrite H. Qed.

Lemma keeps_tags ctx kvs : keeps_maps (tags ctx kvs).
Proof. intros w l x Hx. rewrite tags_eq. by apply maps_tags_world. Qed.

Lemma keeps_recordErr c name kind : keeps_maps (recordErr c name kind).
Proof. intros w l x Hx. rewrite recordErr_eq. by apply maps_recordErr_world. Qed.

Lemma keeps_logger ctx msg name : keeps_maps (logger ctx msg name).
Proof. by apply keeps_same. Qed.

Lemma keeps_Registry_Register m : keeps_maps (Registry_Register m).
Proof.
  apply keeps_same. intros w. unfold Registry_Register.
  destruct (describe w m); [|done]. by destruct (registerCheck _ _).
Qed.

Lemma keeps_register c ctx m name help kind :
  keeps_maps (register c ctx m name help kind).
Proof.
  unfold register. apply keeps_bind; [apply keeps_Registry_Register|].
  intros [e|]; [|apply keeps_ret].
  apply keeps_bind; [apply keeps_logger|]. intros _. apply keeps_recordErr.
Qed.

Lemma keeps_CounterVec_GetMetricWith v tg : keeps_maps (CounterVec_GetMetricWith v tg).
Proof.
  apply keeps_same. intros w. unfold CounterVec_GetMetricWith, bind, readMap.
  destruct (counterVecs w !! v); [|done]. by destruct (labelsMatch _ _).
Qed.

Lemma keeps_GaugeVec_GetMetricWith v tg : keeps_maps (GaugeVec_GetMetricWith v tg).
Proof.
  apply keeps_same. intros w. unfold GaugeVec_GetMetricWith, bind, readMap.
  destruct (gaugeVecs w !! v); [|done]. by destruct (labelsMatch _ _).
Qed.

Lemma keeps_HistogramVec_GetMetricWith v tg :
  keeps_maps (HistogramVec_GetMetricWith v tg).
Proof.
  apply keeps_same. intros w. unfold HistogramVec_GetMetricWith, bind, readMap.
  destruct (histogramVecs w !! v); [|done]. by destruct (labelsMatch _ _).
Qed.

Lemma keeps_SummaryVec_GetMetricWith v tg : keeps_maps (SummaryVec_GetMetricWith v tg).
Proof.
  apply keeps_same. intros w. unfold SummaryVec_GetMetricWith, bind, readMap.
  destruct (summaryVecs w !! v); [|done]. by destruct (labelsMatch _ _).
Qed.

Lemma keeps_getCounter c ctx o labels : keeps_maps (getCounter c ctx o labels).
Proof.
  unfold getCounter. apply keeps_bind; [by apply keeps_same|]. intros cand.
  apply keeps_bind.
  { apply keeps_same. intros w. unfold counter_LoadOrStore, LoadOrStore.
    by destruct (counter w !! Name o). }
  intros [v loaded]. apply keeps_bind; [|intros; apply keeps_ret].
  destruct loaded; [apply keeps_ret|apply keeps_register].
Qed.

Lemma keeps_getGauge c ctx o labels : keeps_maps (getGauge c ctx o labels).
Proof.
  unfold getGauge. apply keeps_bind; [by apply keeps_same|]. intros cand.
  apply keeps_bind.
  { apply keeps_same. intros w. unfold gauge_LoadOrStore, LoadOrStore.
    by destruct (gauge w !! Name o). }
  intros [v loaded]. apply keeps_bind; [|intros; apply keeps_ret].
  destruct loaded; [apply keeps_ret|apply keeps_register].
Qed.

Lemma keeps_getHistogram c ctx o labels : keeps_maps (getHistogram c ctx o labels).
Proof.
  unfold getHistogram. apply keeps_bind; [by apply keeps_same|]. intros cand.
  apply keeps_bind.
  { apply keeps_same. intros w. unfold histogram_LoadOrStore, LoadOrStore.
    by destruct (histogram w !! hName o). }
  intros [v loaded]. apply keeps_bind; [|intros; apply keeps_ret].
  destruct loaded; [apply keeps_ret|apply keeps_register].
Qed.

Lemma keeps_getSummary c ctx o labels : keeps_maps (getSummary c ctx o labels).
Proof.
  unfold getSummary. apply keeps_bind; [by apply keeps_same|]. intros cand.
  apply keeps_bind.
  { apply keeps_same. intros w. unfold summary_LoadOrStore, LoadOrStore.
    by destruct (summary w !! sName o). }
  intros [v loaded]. apply keeps_bind; [|intros; apply keeps_ret].
  destruct loaded; [apply keeps_ret|apply keeps_register].
Qed.

Lemma keeps_RecordN c ctx name desc value kvs :
  keeps_maps (RecordN c ctx name desc value kvs).
Proof.
  unfold RecordN. apply keeps_bind; [apply keeps_tags|]. intros [keys tg].
  apply keeps_bind; [apply keeps_getCounter|]. intros v.
  apply keeps_bind; [apply keeps_CounterVec_GetMetricWith|]. intros [m|].
  - by apply keeps_same.
  - apply keeps_bind; [apply keeps_recordErr|]. intros _. apply keeps_logger.
Qed.

Lemma keeps_Store c ctx name desc value kvs :
  keeps_maps (Store c ctx name desc value kvs).
Proof.
  unfold Store. apply keeps_bind; [apply keeps_tags|]. intros [keys tg].
  apply keeps_bind; [apply keeps_getGauge|]. intros v.
  apply keeps_bind; [apply keeps_GaugeVec_GetMetricWith|]. intros [m|].
  - by apply keeps_same.
  - apply keeps_bind; [apply keeps_recordErr|]. intros _. apply keeps_logger.
Qed.

Lemma keeps_recordHistogram c ctx opt value bs kvs :
  keeps_maps (recordHistogram c ctx opt value bs kvs).
Proof.
  unfold recordHistogram. apply keeps_bind; [apply keeps_tags|]. intros [keys tg].
  apply keeps_bind; [apply keeps_getHistogram|]. intros v.
  apply keeps_bind.
  { destruct (negb _); [|apply keeps_ret].
    apply keeps_bind; [apply keeps_recordErr|]. intros _. apply keeps_logger. }
  intros _. apply keeps_bind; [apply keeps_HistogramVec_GetMetricWith|]. intros [m|].
  - by apply keeps_same.
  - apply keeps_bind; [apply keeps_recordErr|]. intros _. apply keeps_logger.
Qed.

Lemma keeps_recordSummary c ctx opt value os kvs :
  keeps_maps (recordSummary c ctx opt value os kvs).
Proof.
  unfold recordSummary. apply keeps_bind; [apply keeps_tags|]. intros [keys tg].
  apply keeps_bind; [apply keeps_getSummary|]. intros v.
  apply keeps_bind.
  { destruct (negb _); [|apply keeps_ret].
    apply keeps_bind; [apply keeps_recordErr|]. intros _. apply keeps_logger. }
  intros _. apply keeps_bind; [apply keeps_SummaryVec_GetMetricWith|]. intros [m|].
  - by apply keeps_same.
  - apply keeps_bind; [apply keeps_recordErr|]. intros _. apply keeps_logger.
Qed.

Lemma ctx_labels_kept ctx w w' :
  (forall l x, maps w !! l = Some x -> maps w' !! l = Some x) ->
  ctx_valid ctx w -> ctx_labels ctx w' = ctx_labels ctx w.
Proof.
  intros Hm Hv. unfold ctx_labels, ctx_valid in *.
  destruct (ctx_Value ctx) as [l|]; [|done].
  destruct (lookup_lt_is_Some_2 _ _ Hv) as [x Hx]. by rewrite Hx, (Hm _ _ Hx).
Qed.

Lemma merged_kept ctx kvs w w' :
  (forall l x, maps w !! l = Some x -> maps w' !! l = Some x) ->
  ctx_valid ctx w -> merged ctx kvs w' = merged ctx kvs w.
Proof. intros Hm Hv. unfold merged. by rewrite (ctx_labels_kept ctx w w'). Qed.

(** X6: no recording call changes a label map that existed before it, in
    any state and on any path (first use, reuse, refused labels,
    registration failure): the labels a caller merges for one call are
    written to a copy, so every context has after the call the labels it
    had before.  This holds for [RecordN], [Store] and the histogram and
    summary paths behind [Cost], [Timer], [Histogram], [Observe] and
    [Summary]. *)
Theorem observations_keep_label_maps :
  forall c ctx name desc opt value bs os kvs,
    keeps_maps (RecordN c ctx name desc value kvs)
    /\ keeps_maps (Store c ctx name desc value kvs)
    /\ keeps_maps (recordHistogram c ctx opt value bs kvs)
    /\ keeps_maps (recordSummary c ctx opt value os kvs)
    /\ (forall ctx' w,
          ctx_valid ctx' w ->
          ctx_labels ctx' (snd (RecordN c ctx name desc value kvs w)) = ctx_labels ctx' w
          /\ ctx_labels ctx' (snd (Store c ctx name desc value kvs w)) = ctx_labels ctx' w
          /\ ctx_labels ctx' (snd (recordHistogram c ctx opt value bs kvs w))
             = ctx_labels ctx' w
          /\ ctx_labels ctx' (snd (recordSummary c ctx opt value os kvs w))
             = ctx_labels ctx' w).
Proof.
  intros c ctx name desc opt value bs os kvs.
  split; [apply keeps_RecordN|]. split; [apply keeps_Store|].
  split; [apply keeps_recordHistogram|]. split; [apply keeps_recordSummary|].
  intros ctx' w Hv. repeat split; apply ctx_labels_kept; try done.
  - apply keeps_RecordN.
  - apply keeps_Store.
  - apply keeps_recordHistogram.
  - apply keeps_recordSummary.
Qed.

Lemma observations_keep_label_maps_witness :
  let c := NewClient [] in
  let r := CtxAddLabels Background ["k"; "v"] emptyWorld in
  let w' := snd (RecordN c (fst r) "m" "d" (f64_of_Z 1) ["k"; "other"] (snd r)) in
  ctx_labels (fst r) w' = {[ "k" := "v" ]}.
Proof.
  intros c r w'.
  destruct (observations_keep_label_maps c (fst r) "m" "d" (mkOpts "" "" ∅)
              (f64_of_Z 1) [] [] ["k"; "other"]) as (_ & _ & _ & _ & H).
  destruct (H (fst r) (snd r)) as (H1 & _); [vm_compute; lia|].
  fold w' in H1. rewrite H1. vm_compute. reflexivity.
Defined.

(** ** Using a family again *)

Lemma vchildren_addTo value t (vec : CounterVec) :
  vchildren (addTo value t vec) = record_into (vchildren vec) (t, value).
Proof.
  unfold addTo, onChild, withChild, record_into. cbn [fst snd].
  destruct (vchildren vec !! t) as [x|] eqn:E; cbn [vchildren default].
  - apply map_eq. intros k. destruct (decide (t = k)) as [<-|Hne].
    + by rewrite lookup_alter_eq, lookup_insert_eq, E.
    + by rewrite lookup_alter_ne, lookup_insert_ne.
  - apply map_eq. intros k. destruct (decide (t = k)) as [<-|Hne].
    + by rewrite lookup_alter_eq, !lookup_insert_eq.
    + by rewrite lookup_alter_ne, !lookup_insert_ne.
Qed.

Lemma vchildren_setTo value t (vec : GaugeVec) :
  vchildren (setTo value t vec) = <[t := value]> (vchildren vec).
Proof.
  unfold setTo, onChild, withChild.
  destruct (vchildren vec !! t) as [x|] eqn:E; cbn [vchildren].
  - apply map_eq. intros k. destruct (decide (t = k)) as [<-|Hne].
    + by rewrite lookup_alter_eq, lookup_insert_eq, E.
    + by rewrite lookup_alter_ne, lookup_insert_ne.
  - apply map_eq. intros k. destruct (decide (t = k)) as [<-|Hne].
    + by rewrite lookup_alter_eq, !lookup_insert_eq.
    + by rewrite lookup_alter_ne, !lookup_insert_ne.
Qed.

Lemma vopts_addTo value t (vec : CounterVec) : vopts (addTo value t vec) = vopts vec.
Proof. unfold addTo, onChild. cbn [vopts]. apply vopts_withChild. Qed.

Lemma vlabels_addTo value t (vec : CounterVec) : vlabels (addTo value t vec) = vlabels vec.
Proof. unfold addTo, onChild. cbn [vlabels]. apply vlabels_withChild. Qed.

Lemma vopts_setTo value t (vec : GaugeVec) : vopts (setTo value t vec) = vopts vec.
Proof. unfold setTo, onChild. cbn [vopts]. apply vopts_withChild. Qed.

Lemma vlabels_setTo value t (vec : GaugeVec) : vlabels (setTo value t vec) = vlabels vec.
Proof. unfold setTo, onChild. cbn [vlabels]. apply vlabels_withChild. Qed.

Lemma regs_register_vec c m d name kind w :
  (forall l t, m <> OfCounter l t) ->
  family_registrations (register_world c m d name kind w)
  = family_registrations w ++ [m].
Proof.
  intros Hm. unfold register_world. destruct (registerCheck _ _).
  - rewrite regs_recordErr_world, regs_app. cbn. destruct m; try done.
    by destruct (Hm l child).
  - change (set_trace (fun t => t ++ [RegEv m None])
              (set_registry (fun r => r ++ [(d, m)]) w))
      with (set_registry (fun r => r ++ [(d, m)])
              (set_trace (fun t => t ++ [RegEv m None]) w)).
    unfold family_registrations at 1. cbn [trace set_registry].
    fold (family_registrations (set_trace (fun t => t ++ [RegEv m None]) w)).
    rewrite regs_app. cbn. destruct m; try done. by destruct (Hm l child).
Qed.

(** X7: a second [RecordN] on a counter name, with any help text and
    with label values of its own under the label keys of the first,
    finds the family of the first call in the cache and adds to it: the
    series of its label set grows by its value (from zero when the label
    set is new), the family keeps the options of the first call, nothing
    is registered, reported or logged for the second call, and the cache
    still names the one family. *)
Theorem RecordN_again_adds_to_the_family :
  forall c ctx name desc1 desc2 v1 v2 kvs1 kvs2 w,
    let fq := buildFQName c name (Names.Counter (names c)) in
    let t1 := merged ctx kvs1 w in
    let t2 := merged ctx kvs2 w in
    let l := length (counterVecs w) in
    let w1 := snd (RecordN c ctx name desc1 v1 kvs1 w) in
    let w2 := snd (RecordN c ctx name desc2 v2 kvs2 w1) in
    counter w !! fq = None ->
    ctx_valid ctx w ->
    dom t2 = dom t1 ->
    counter w2 = <[fq := l]> (counter w)
    /\ family_registrations w1 = family_registrations w ++ [OfCounterVec l]
    /\ family_registrations w2 = family_registrations w1
    /\ errs w2 = errs w1 /\ logs w2 = logs w1
    /\ exists vec,
         counterVecs w2 !! l = Some vec
         /\ vopts vec = prometheusOpt c name desc1 (Names.Counter (names c))
         /\ vlabels vec = keys_of t1
         /\ vchildren vec = record_all [(t1, v1); (t2, v2)].
Proof.
  intros c ctx name desc1 desc2 v1 v2 kvs1 kvs2 w. cbv zeta. intros Hc Hv Hd.
  set (fq := buildFQName c name (Names.Counter (names c))) in *.
  set (t1 := merged ctx kvs1 w) in *. set (t2 := merged ctx kvs2 w) in *.
  set (l := length (counterVecs w)).
  set (opt1 := prometheusOpt c name desc1 (Names.Counter (names c))).
  set (w1 := snd (RecordN c ctx name desc1 v1 kvs1 w)).
  destruct (RecordN_first_use c ctx name desc1 v1 kvs1 w Hc) as (Hcache & Hvec & _).
  fold w1 l t1 opt1 in Hcache, Hvec.
  assert (Hregs1 : family_registrations w1 = family_registrations w ++ [OfCounterVec l]).
  { unfold w1. rewrite (RecordN_miss _ _ _ _ _ _ _ Hc). cbn [snd].
    unfold family_registrations at 1. cbn [trace set_counterVecs].
    match goal with |- context [trace (register_world ?c ?m ?d ?n ?k ?w0)] =>
      fold (family_registrations (register_world c m d n k w0));
      rewrite (regs_register_vec c m d n k w0) by done
    end.
    reflexivity. }
  assert (Ht2 : merged ctx kvs2 w1 = t2).
  { apply merged_kept; [|done]. intros l0 x Hx. by apply keeps_RecordN. }
  assert (Hhit : counter w1 !! fq = Some l).
  { rewrite Hcache. apply lookup_insert_eq. }
  assert (Hl1 : vlabels (addTo v1 t1 (counterCand opt1 t1)) = keys_of t1).
  { by rewrite vlabels_addTo. }
  destruct (RecordN_schema c ctx name desc2 v2 kvs2 w1 l _ t1 Hhit Hvec Hl1) as [_ Hok].
  rewrite Ht2 in Hok. destruct (Hok Hd) as (Hvecs & Hcache2 & He & Hl).
  split; [by rewrite Hcache2, Hcache|]. split; [exact Hregs1|]. split.
  { rewrite (RecordN_hit _ _ _ _ _ _ _ _ _ Hhit Hvec), Ht2, Hl1.
    by rewrite (proj2 (labelsMatch_keys_of t1 t2) Hd). }
  split; [exact He|]. split; [exact Hl|].
  exists (addTo v2 t2 (addTo v1 t1 (counterCand opt1 t1))). split.
  { rewrite Hvecs. apply lookup_lt_Some in Hvec as Hlt.
    rewrite lookup_app_l by (by rewrite length_insert).
    by apply list_lookup_insert_eq. }
  split; [by rewrite !vopts_addTo|]. split; [by rewrite !vlabels_addTo|].
  by rewrite !vchildren_addTo.
Qed.

Lemma RecordN_again_witness :
  let c := NewClient [] in
  let w1 := snd (RecordN c Background "m" "d" (f64_of_Z 1) ["k"; "a"] emptyWorld) in
  let w2 := snd (RecordN c Background "m" "other" (f64_of_Z 2) ["k"; "a"] w1) in
  family_registrations w2 = [OfCounterVec 0%nat]
  /\ errs w2 = []
  /\ (map_to_list ∘ vchildren <$> counterVecs w2 !! 0%nat)
     = Some [({[ "k" := "a" ]}, f64_of_Z 3)].
Proof.
  intros c w1 w2.
  destruct (RecordN_again_adds_to_the_family c Background "m" "d" "other"
              (f64_of_Z 1) (f64_of_Z 2) ["k"; "a"] ["k"; "a"] emptyWorld)
    as (_ & Hr1 & Hr2 & He & _ & vec & Hv & _ & _ & Hch).
  - vm_compute. reflexivity.
  - exact I.
  - reflexivity.
  - fold w1 in Hr1, Hr2, He. fold w2 in Hr2, He, Hv.
    split; [by rewrite Hr2, Hr1|]. split; [rewrite He; vm_compute; reflexivity|].
    apply (f_equal (fmap (map_to_list ∘ vchildren))) in Hv.
    etransitivity; [exact Hv|].
    cbn [fmap option_fmap option_map compose]. rewrite Hch.
    vm_compute. reflexivity.
Defined.

Lemma Store_first_use c ctx name desc value kvs w :
  gauge w !! buildFQName c name (Names.Gauge (names c)) = None ->
  let opt := prometheusOpt c name desc (Names.Gauge (names c)) in
  let t := merged ctx kvs w in
  let w' := snd (Store c ctx name desc value kvs w) in
  gauge w' = <[Name opt := length (gaugeVecs w)]> (gauge w)
  /\ gaugeVecs w' !! length (gaugeVecs w) = Some (setTo value t (gaugeCand opt t))
  /\ family_registrations w'
     = family_registrations w ++ [OfGaugeVec (length (gaugeVecs w))].
Proof.
  intros Hc. cbv zeta. rewrite (Store_miss _ _ _ _ _ _ _ Hc). cbn [snd].
  split; [|split].
  - cbn [gauge set_gaugeVecs].
    match goal with |- context [register_world ?c ?m ?d ?n ?k ?w0] =>
      destruct (caches_register_world c m d n k w0) as (_ & -> & _)
    end.
    reflexivity.
  - cbn [gaugeVecs set_gaugeVecs]. rewrite gaugeVecs_register_world.
    cbn [gaugeVecs set_gauge set_gaugeVecs tags_world set_maps].
    by rewrite alter_app_last, lookup_app_last.
  - unfold family_registrations at 1. cbn [trace set_gaugeVecs].
    match goal with |- context [trace (register_world ?c ?m ?d ?n ?k ?w0)] =>
      fold (family_registrations (register_world c m d n k w0));
      rewrite (regs_register_vec c m d n k w0) by done
    end.
    reflexivity.
Qed.

(** X8: a second [Store] on a gauge name, with label values of its own
    under the label keys of the first, finds the family of the first call
    in the cache and sets the series of its label set to its value: with
    the same labels the first value is replaced, not summed, with other
    label values the first series keeps its value; nothing is registered,
    reported or logged for the second call. *)
Theorem Store_again_replaces_the_value :
  forall c ctx name desc1 desc2 v1 v2 kvs1 kvs2 w,
    let fq := buildFQName c name (Names.Gauge (names c)) in
    let t1 := merged ctx kvs1 w in
    let t2 := merged ctx kvs2 w in
    let l := length (gaugeVecs w) in
    let w1 := snd (Store c ctx name desc1 v1 kvs1 w) in
    let w2 := snd (Store c ctx name desc2 v2 kvs2 w1) in
    gauge w !! fq = None ->
    ctx_valid ctx w ->
    dom t2 = dom t1 ->
    gauge w2 = <[fq := l]> (gauge w)
    /\ family_registrations w1 = family_registrations w ++ [OfGaugeVec l]
    /\ family_registrations w2 = family_registrations w1
    /\ errs w2 = errs w1 /\ logs w2 = logs w1
    /\ exists vec,
         gaugeVecs w2 !! l = Some vec
         /\ vopts vec = prometheusOpt c name desc1 (Names.Gauge (names c))
         /\ vlabels vec = keys_of t1
         /\ vchildren vec = <[t2 := v2]> {[ t1 := v1 ]}
         /\ vchildren vec !! t2 = Some v2
         /\ (t1 = t2 -> vchildren vec = {[ t1 := v2 ]}).
Proof.
  intros c ctx name desc1 desc2 v1 v2 kvs1 kvs2 w. cbv zeta. intros Hc Hv Hd.
  set (fq := buildFQName c name (Names.Gauge (names c))) in *.
  set (t1 := merged ctx kvs1 w) in *. set (t2 := merged ctx kvs2 w) in *.
  set (l := length (gaugeVecs w)).
  set (opt1 := prometheusOpt c name desc1 (Names.Gauge (names c))).
  set (w1 := snd (Store c ctx name desc1 v1 kvs1 w)).
  destruct (Store_first_use c ctx name desc1 v1 kvs1 w Hc) as (Hcache & Hvec & Hregs1).
  fold w1 l t1 opt1 in Hcache, Hvec, Hregs1.
  assert (Ht2 : merged ctx kvs2 w1 = t2).
  { apply merged_kept; [|done]. intros l0 x Hx. by apply keeps_Store. }
  assert (Hhit : gauge w1 !! fq = Some l).
  { rewrite Hcache. apply lookup_insert_eq. }
  assert (Hl1 : vlabels (setTo v1 t1 (gaugeCand opt1 t1)) = keys_of t1).
  { by rewrite vlabels_setTo. }
  destruct (Store_schema c ctx name desc2 v2 kvs2 w1 l _ t1 Hhit Hvec Hl1) as [_ Hok].
  rewrite Ht2 in Hok. destruct (Hok Hd) as (Hvecs & Hcache2 & He & Hl).
  split; [by rewrite Hcache2, Hcache|]. split; [exact Hregs1|]. split.
  { rewrite (Store_hit _ _ _ _ _ _ _ _ _ Hhit Hvec), Ht2, Hl1.
    by rewrite (proj2 (labelsMatch_keys_of t1 t2) Hd). }
  split; [exact He|]. split; [exact Hl|].
  exists (setTo v2 t2 (setTo v1 t1 (gaugeCand opt1 t1))). split.
  { rewrite Hvecs. apply lookup_lt_Some in Hvec as Hlt.
    rewrite lookup_app_l by (by rewrite length_insert).
    by apply list_lookup_insert_eq. }
  split; [by rewrite !vopts_setTo|]. split; [by rewrite !vlabels_setTo|].
  rewrite !vchildren_setTo. cbn [gaugeCand vchildren].
  split; [by rewrite insert_empty|]. split; [apply lookup_insert_eq|].
  intros <-. by rewrite insert_insert_eq, insert_empty.
Qed.

Lemma Store_again_witness :
  let c := NewClient [] in
  let w1 := snd (Store c Background "g" "d" (f64_of_Z 7) ["k"; "a"] emptyWorld) in
  let w2 := snd (Store c Background "g" "d" (f64_of_Z 2) ["k"; "a"] w1) in
  family_registrations w2 = [OfGaugeVec 0%nat]
  /\ errs w2 = []
  /\ (map_to_list ∘ vchildren <$> gaugeVecs w2 !! 0%nat)
     = Some [({[ "k" := "a" ]}, f64_of_Z 2)].
Proof.
  intros c w1 w2.
  destruct (Store_again_replaces_the_value c Background "g" "d" "d"
              (f64_of_Z 7) (f64_of_Z 2) ["k"; "a"] ["k"; "a"] emptyWorld)
    as (_ & Hr1 & Hr2 & He & _ & vec & Hv & _ & _ & _ & _ & Hch).
  - vm_compute. reflexivity.
  - exact I.
  - reflexivity.
  - fold w1 in Hr1, Hr2, He. fold w2 in Hr2, He.
    split; [by rewrite Hr2, Hr1|]. split; [rewrite He; vm_compute; reflexivity|].
    apply (f_equal (fmap (map_to_list ∘ vchildren))) in Hv.
    etransitivity; [exact Hv|].
    cbn [fmap option_fmap option_map compose]. rewrite Hch by reflexivity.
    vm_compute. reflexivity.
Defined.

(** ** Summaries *)

Lemma recordSummary_miss c ctx opt value objectives kvs w :
  summary w !! Name opt = None ->
  let sopt := mkSummaryOpts (Name opt) (Help opt) (ConstLabels opt) objectives in
  let t := merged ctx kvs w in
  recordSummary c ctx opt value objectives kvs w
  = (tt, set_summaryVecs (alter (summarize value t) (length (summaryVecs w)))
           (objectives_world c (Name opt) objectives objectives
              (register_world c (OfSummaryVec (length (summaryVecs w)))
                 (mkDesc (Name opt) (Help opt) (ConstLabels opt) (keys_of t)) (Name opt)
                 "register_summary"
                 (set_summary (insert (Name opt) (length (summaryVecs w), sopt))
                    (set_summaryVecs (fun h => h ++ [summaryCand sopt t])
                       (tags_world ctx kvs w)))))).
Proof.
  intros Hc. cbv zeta. unfold recordSummary.
  rewrite (bind_eq _ _ _ _ _ (tags_eq ctx kvs w)).
  erewrite bind_eq; [|apply getSummary_miss; exact Hc].
  erewrite bind_eq; [|apply objectives_step].
  erewrite bind_eq; cycle 1.
  { erewrite SummaryVec_GetMetricWith_eq; cycle 1.
    - apply maps_objectives_world, maps_register_world. apply lookup_tags_world.
    - rewrite summaryVecs_objectives_world, summaryVecs_register_world.
      simpl. apply lookup_app_last.
    - simpl. rewrite labelsMatch_keys. reflexivity. }
  unfold Summary_Observe. unfold_setters. simpl.
  rewrite list_alter_alter_eq. reflexivity.
Qed.

Lemma recordSummary_first_use c ctx opt value objectives kvs w :
  summary w !! Name opt = None ->
  let sopt := mkSummaryOpts (Name opt) (Help opt) (ConstLabels opt) objectives in
  let t := merged ctx kvs w in
  let w' := snd (recordSummary c ctx opt value objectives kvs w) in
  summary w' = <[Name opt := (length (summaryVecs w), sopt)]> (summary w)
  /\ summaryVecs w' = summaryVecs w ++ [summarize value t (summaryCand sopt t)].
Proof.
  intros Hc. cbv zeta. rewrite (recordSummary_miss _ _ _ _ _ _ _ Hc). cbn [snd].
  cbn [set_summaryVecs summary summaryVecs].
  match goal with |- context [objectives_world ?c ?n ?a ?b ?w0] =>
    destruct (others_objectives_world c n a b w0) as (_ & _ & ->);
    rewrite (summaryVecs_objectives_world c n a b w0)
  end.
  rewrite summaryVecs_register_world.
  match goal with |- context [register_world ?c ?m ?d ?n ?k ?w0] =>
    destruct (caches_register_world c m d n k w0) as (_ & _ & _ & ->)
  end.
  simpl. split; [done|]. apply alter_app_last.
Qed.

Lemma vopts_summarize value t (vec : SummaryVec) : vopts (summarize value t vec) = vopts vec.
Proof. unfold summarize, onChild. cbn [vopts]. apply vopts_withChild. Qed.

Lemma vlabels_summarize value t (vec : SummaryVec) :
  vlabels (summarize value t vec) = vlabels vec.
Proof. unfold summarize, onChild. cbn [vlabels]. apply vlabels_withChild. Qed.

Lemma vchildren_summarize value t (vec : SummaryVec) :
  vchildren (summarize value t vec)
  = <[t := default [] (vchildren vec !! t) ++ [value]]> (vchildren vec).
Proof.
  unfold summarize, onChild, withChild.
  destruct (vchildren vec !! t) as [x|] eqn:E; cbn [vchildren default].
  - apply map_eq. intros k. destruct (decide (t = k)) as [<-|Hne].
    + by rewrite lookup_alter_eq, lookup_insert_eq, E.
    + by rewrite lookup_alter_ne, lookup_insert_ne.
  - apply map_eq. intros k. destruct (decide (t = k)) as [<-|Hne].
    + by rewrite lookup_alter_eq, !lookup_insert_eq.
    + by rewrite lookup_alter_ne, !lookup_insert_ne.
Qed.

(** X9: the first observation of a summary name stores the requested
    quantile objectives with the family; a later call on that name whose
    objectives differ (by [maps.Equal]) from the stored ones leaves the
    stored entry and the family's options as they were and reports
    [summary_objectives_mismatch] through [recordErr] and the logger; when
    its merged label keys are those of the family its value is recorded
    all the same, in the family created first.  A later call with equal
    objectives reports nothing. *)
Theorem summary_objectives_fixed_at_first_use :
  (forall c ctx opt value objectives kvs w,
     summary w !! Name opt = None ->
     let sopt := mkSummaryOpts (Name opt) (Help opt) (ConstLabels opt) objectives in
     let t := merged ctx kvs w in
     let w' := snd (recordSummary c ctx opt value objectives kvs w) in
     summary w' !! Name opt = Some (length (summaryVecs w), sopt)
     /\ summaryVecs w' !! length (summaryVecs w)
        = Some (summarize value t (summaryCand sopt t)))
  /\ (forall c ctx opt value objectives kvs w l o vec t0,
     summary w !! Name opt = Some (l, o) ->
     summaryVecs w !! l = Some vec ->
     vlabels vec = keys_of t0 ->
     let t := merged ctx kvs w in
     let w' := snd (recordSummary c ctx opt value objectives kvs w) in
     dom t = dom t0 ->
     summary w' = summary w
     /\ (exists vec', summaryVecs w' !! l = Some vec'
           /\ vopts vec' = vopts vec /\ vlabels vec' = vlabels vec
           /\ vchildren vec' !! t = Some (default [] (vchildren vec !! t) ++ [value]))
     /\ errs w' = errs w
                  ++ (if maps_Equal (sObjectives o) objectives then []
                      else [(Name opt, "summary_objectives_mismatch")])
     /\ logs w' = logs w
                  ++ (if maps_Equal (sObjectives o) objectives then []
                      else [("summary_objectives_mismatch", Name opt)])).
Proof.
  split.
  - intros c ctx opt value objectives kvs w Hc. cbv zeta.
    destruct (recordSummary_first_use c ctx opt value objectives kvs w Hc) as [Hs Hv].
    rewrite Hs, Hv. split; [apply lookup_insert_eq | apply lookup_app_last].
  - intros c ctx opt value objectives kvs w l o vec t0 Hc Hv Hl. cbv zeta. intros Hd.
    destruct (recordSummary_schema c ctx opt value objectives kvs w l o vec t0 Hc Hv Hl)
      as [_ Hok].
    destruct (Hok Hd) as (Hvecs & Hs & He & Hlg).
    split; [exact Hs|]. split.
    { exists (summarize value (merged ctx kvs w) vec). rewrite Hvecs.
      apply lookup_lt_Some in Hv as Hlt.
      rewrite lookup_app_l by (by rewrite length_insert).
      rewrite list_lookup_insert_eq by done.
      rewrite vopts_summarize, vlabels_summarize, vchildren_summarize.
      by rewrite lookup_insert_eq. }
    rewrite He, Hlg. by destruct (maps_Equal (sObjectives o) objectives).
Qed.

Lemma summary_objectives_witness :
  let c := NewClient [] in
  let q := [(f64_ratio 1 2, f64_ratio 1 20)] in
  let w1 := snd (SummaryObjectives c Background "s" "d" (f64_of_Z 1) q [] emptyWorld) in
  let w2 := snd (Summary c Background "s" "d" (f64_of_Z 2) [] w1) in
  (sObjectives ∘ snd <$> summary w2 !! "summary:s") = Some q
  /\ (summaryVecs w2 !! 0%nat ≫= fun v => vchildren v !! ∅)
     = Some [f64_of_Z 1; f64_of_Z 2]
  /\ errs w2 = [("summary:s", "summary_objectives_mismatch")].
Proof.
  intros c q w1 w2.
  pose (opt := prometheusOpt c "s" "d" (Names.Summary (names c))).
  pose (sopt := mkSummaryOpts (Name opt) (Help opt) (ConstLabels opt) q).
  pose (vec := summarize (f64_of_Z 1) ∅ (summaryCand sopt ∅)).
  assert (H1 : summary w1 !! Name opt = Some (0%nat, sopt)) by (vm_compute; reflexivity).
  assert (H2 : summaryVecs w1 !! 0%nat = Some vec) by (vm_compute; reflexivity).
  assert (H3 : vlabels vec = keys_of ∅) by (vm_compute; reflexivity).
  destruct (proj2 summary_objectives_fixed_at_first_use c Background opt (f64_of_Z 2)
              [] [] w1 _ _ _ _ H1 H2 H3) as (Hs & (vec' & Hv & _ & _ & Hch) & He & _).
  { vm_compute. reflexivity. }
  change (snd (recordSummary c Background opt (f64_of_Z 2) [] [] w1)) with w2
    in Hs, Hv, He.
  split; [rewrite Hs; vm_compute; reflexivity|]. split.
  - rewrite Hv. cbn [mbind option_bind].
    change (merged Background [] w1) with (∅ : Labels) in Hch.
    rewrite Hch. vm_compute. reflexivity.
  - rewrite He. vm_compute. reflexivity.
Defined.

(** ** Timing summaries *)




(** ** Comparing bucket lists *)

Lemma f64_eqb_refl (x : float64) : f64_eqb x x = negb (f64_is_nan x).
Proof.
  unfold f64_eqb, SFeqb, SFcompare. destruct x as [s|s| |s m e]; try done.
  - by destruct s.
  - destruct s; rewrite Z.compare_refl, Pos.compare_cont_refl; done.
Qed.

Lemma slices_Equal_refl (bs : list float64) :
  slices_Equal bs bs = forallb (fun b => negb (f64_is_nan b)) bs.
Proof.
  induction bs as [|b bs IH]; [done|].
  cbn [slices_Equal forallb]. by rewrite f64_eqb_refl, IH.
Qed.

Lemma errs_trace_eq w w' : trace w' = trace w -> errs w' = errs w.
Proof. unfold errs. by intros ->. Qed.

(** X11: the bucket list of a call is compared with the stored one by
    [slices.Equal], that is element by element with [==] on floats: a
    list compares equal to itself exactly when it holds no NaN.  A call
    that asks for the very bucket list the family was made with, under
    the label keys of the family, is recorded without any report when
    that list holds no NaN, and is recorded with a
    [histogram_buckets_mismatch] report when it holds one. *)
Theorem bucket_lists_are_compared_as_floats :
  (forall bs, slices_Equal bs bs = forallb (fun b => negb (f64_is_nan b)) bs)
  /\ (forall c ctx opt value kvs w l o vec t0,
     histogram w !! Name opt = Some (l, o) ->
     histogramVecs w !! l = Some vec ->
     vlabels vec = keys_of t0 ->
     let t := merged ctx kvs w in
     let w' := snd (recordHistogram c ctx opt value (Buckets o) kvs w) in
     dom t = dom t0 ->
     histogramVecs w' !! l = Some (observeTo value t vec)
     /\ errs w' = errs w
                  ++ (if forallb (fun b => negb (f64_is_nan b)) (Buckets o) then []
                      else [(Name opt, "histogram_buckets_mismatch")])).
Proof.
  split; [apply slices_Equal_refl|].
  intros c ctx opt value kvs w l o vec t0 Hc Hv Hl. cbv zeta. intros Hd.
  destruct (recordHistogram_schema c ctx opt value (Buckets o) kvs w l o vec t0 Hc Hv Hl)
    as [_ Hok].
  destruct (Hok Hd) as (Hvecs & _ & He & _). split.
  - rewrite Hvecs. apply lookup_lt_Some in Hv as Hlt.
    rewrite lookup_app_l by (by rewrite length_insert).
    by apply list_lookup_insert_eq.
  - rewrite He, slices_Equal_refl. by destruct (forallb _ _).
Qed.

Lemma bucket_lists_witness :
  let c := NewClient [] in
  let w1 := snd (Cost c Background "t" "d" 1000000000 [] emptyWorld) in
  let w2 := snd (Cost c Background "t" "d" 2000000000 [] w1) in
  errs w2 = []
  /\ (histogramVecs w2 !! 0%nat ≫= fun v => vchildren v !! ∅)
     = Some [f64_of_Z 1; f64_of_Z 2].
Proof.
  intros c w1 w2.
  pose (opt := prometheusOpt c "t" "d" (Names.Timer (names c))).
  pose (hopt := mkHistogramOpts (Name opt) (Help opt) (ConstLabels opt) (buckets c)).
  pose (vec := observeTo (f64_of_Z 1) ∅ (histogramCand hopt ∅)).
  assert (H1 : histogram w1 !! Name opt = Some (0%nat, hopt)) by (vm_compute; reflexivity).
  assert (H2 : histogramVecs w1 !! 0%nat = Some vec) by (vm_compute; reflexivity).
  assert (H3 : vlabels vec = keys_of ∅) by (vm_compute; reflexivity).
  destruct (proj2 bucket_lists_are_compared_as_floats c Background opt
              (Seconds 2000000000) [] w1 _ _ _ _ H1 H2 H3) as (Hv & He).
  { vm_compute. reflexivity. }
  change (snd (recordHistogram c Background opt (Seconds 2000000000) (Buckets hopt) [] w1))
    with w2 in Hv, He.
  split.
  - rewrite He. vm_compute. reflexivity.
  - apply (f_equal (fun o => o ≫= fun v => vchildren v !! (∅ : Labels))) in Hv.
    etransitivity; [exact Hv|]. vm_compute. reflexivity.
Defined.

(** ** The label names of a call *)

(** X12: [tags] returns the keys of the merged label map, each once, also
    when a key occurs twice among the explicit pairs or is a label of the
    context as well, together with a new map that holds the merged
    labels: the labels of the context with the explicit pairs applied in
    order. *)
Theorem tags_returns_each_key_once :
  forall ctx kvs w,
    let keys := fst (fst (tags ctx kvs w)) in
    let l := snd (fst (tags ctx kvs w)) in
    let w' := snd (tags ctx kvs w) in
    NoDup keys
    /\ list_to_set keys = dom (ctx_labels ctx w) ∪ list_to_set (kv_pairs kvs).*1
    /\ length keys = size (merged ctx kvs w)
    /\ (length (maps w) <= l)%nat
    /\ maps w' !! l = Some (merged ctx kvs w)
    /\ labelsMatch keys (merged ctx kvs w) = true.
Proof.
  intros ctx kvs w. cbv zeta. rewrite tags_eq. cbn [fst snd].
  split; [apply keys_NoDup|]. split; [by rewrite keys_dom, dom_merged|].
  split; [unfold keys_of; by rewrite length_fmap, length_map_to_list|].
  split; [unfold tags_loc; lia|]. split; [apply lookup_tags_world|].
  apply labelsMatch_keys.
Qed.

(** ** A timer name used by [Cost] and by [Observe] *)




(** ** Registration happens at first use, once *)

Lemma rn_trace {A} (m : M A) :
  (forall w, trace (snd (m w)) = trace w) -> registers_nothing m.
Proof. intros H w. unfold family_registrations. by rewrite H. Qed.

Lemma rn_ret {A} (a : A) : registers_nothing (ret a).
Proof. by apply rn_trace. Qed.

Lemma regs_bind_after {A B} (m : M A) (k : A -> M B) w R :
  family_registrations (snd (m w)) = R ->
  (forall a, registers_nothing (k a)) ->
  family_registrations (snd (bind m k w)) = R.
Proof.
  intros Hm Hk. unfold bind. destruct (m w) as [a w']. cbn [snd] in Hm.
  by rewrite Hk.
Qed.

Lemma rn_bind {A B} (m : M A) (k : A -> M B) :
  registers_nothing m -> (forall a, registers_nothing (k a)) ->
  registers_nothing (bind m k).
Proof. intros Hm Hk w. by apply regs_bind_after. Qed.

Lemma rn_recordErr c name kind : registers_nothing (recordErr c name kind).
Proof. intros w. rewrite recordErr_eq. apply regs_recordErr_world. Qed.

Lemma rn_logger ctx msg name : registers_nothing (logger ctx msg name).
Proof. intros w. unfold logger, emit. cbn [snd]. rewrite regs_app. cbn. apply app_nil_r. Qed.

Lemma rn_failed c ctx name kind msg :
  registers_nothing (bind (recordErr c name kind) (fun _ => logger ctx msg name)).
Proof. apply rn_bind; [apply rn_recordErr|]. intros _. apply rn_logger. Qed.

Lemma rn_CounterVec_GetMetricWith v tg : registers_nothing (CounterVec_GetMetricWith v tg).
Proof.
  apply rn_trace. intros w. unfold CounterVec_GetMetricWith, bind, readMap.
  destruct (counterVecs w !! v); [|done]. by destruct (labelsMatch _ _).
Qed.

Lemma rn_GaugeVec_GetMetricWith v tg : registers_nothing (GaugeVec_GetMetricWith v tg).
Proof.
  apply rn_trace. intros w. unfold GaugeVec_GetMetricWith, bind, readMap.
  destruct (gaugeVecs w !! v); [|done]. by destruct (labelsMatch _ _).
Qed.

Lemma rn_HistogramVec_GetMetricWith v tg :
  registers_nothing (HistogramVec_GetMetricWith v tg).
Proof.
  apply rn_trace. intros w. unfold HistogramVec_GetMetricWith, bind, readMap.
  destruct (histogramVecs w !! v); [|done]. by destruct (labelsMatch _ _).
Qed.

Lemma rn_SummaryVec_GetMetricWith v tg : registers_nothing (SummaryVec_GetMetricWith v tg).
Proof.
  apply rn_trace. intros w. unfold SummaryVec_GetMetricWith, bind, readMap.
  destruct (summaryVecs w !! v); [|done]. by destruct (labelsMatch _ _).
Qed.

Lemma regs_tags_world ctx kvs w :
  family_registrations (tags_world ctx kvs w) = family_registrations w.
Proof. reflexivity. Qed.

Section Registration.
Context (c : client) (ctx : Context) (kvs : list string) (w : World).

Lemma regs_RecordN name desc value :
  let fq := buildFQName c name (Names.Counter (names c)) in
  family_registrations (snd (RecordN c ctx name desc value kvs w))
  = family_registrations w
    ++ match counter w !! fq with
       | Some _ => []
       | None => [OfCounterVec (length (counterVecs w))]
       end.
Proof.
  cbv zeta. unfold RecordN. rewrite (bind_eq _ _ _ _ _ (tags_eq ctx kvs w)).
  eapply regs_bind_after.
  - destruct (counter w !! _) as [l|] eqn:Hc.
    + erewrite getCounter_hit by exact Hc. cbn [snd]. by rewrite app_nil_r.
    + erewrite getCounter_miss by exact Hc. cbn [snd].
      by rewrite regs_register_vec.
  - intros v. apply rn_bind; [apply rn_CounterVec_GetMetricWith|].
    intros [m|]; [by apply rn_trace|apply rn_failed].
Qed.

Lemma regs_Store name desc value :
  let fq := buildFQName c name (Names.Gauge (names c)) in
  family_registrations (snd (Store c ctx name desc value kvs w))
  = family_registrations w
    ++ match gauge w !! fq with
       | Some _ => []
       | None => [OfGaugeVec (length (gaugeVecs w))]
       end.
Proof.
  cbv zeta. unfold Store. rewrite (bind_eq _ _ _ _ _ (tags_eq ctx kvs w)).
  eapply regs_bind_after.
  - destruct (gauge w !! _) as [l|] eqn:Hc.
    + erewrite getGauge_hit by exact Hc. cbn [snd]. by rewrite app_nil_r.
    + erewrite getGauge_miss by exact Hc. cbn [snd].
      by rewrite regs_register_vec.
  - intros v. apply rn_bind; [apply rn_GaugeVec_GetMetricWith|].
    intros [m|]; [by apply rn_trace|apply rn_failed].
Qed.

Lemma regs_recordHistogram opt value bs :
  family_registrations (snd (recordHistogram c ctx opt value bs kvs w))
  = family_registrations w
    ++ match histogram w !! Name opt with
       | Some _ => []
       | None => [OfHistogramVec (length (histogramVecs w))]
       end.
Proof.
  unfold recordHistogram. rewrite (bind_eq _ _ _ _ _ (tags_eq ctx kvs w)).
  eapply regs_bind_after.
  - destruct (histogram w !! _) as [e|] eqn:Hc.
    + erewrite getHistogram_hit by exact Hc. cbn [snd]. by rewrite app_nil_r.
    + erewrite getHistogram_miss by exact Hc. cbn [snd].
      by rewrite regs_register_vec.
  - intros v. apply rn_bind.
    { destruct (negb _); [apply rn_failed|apply rn_ret]. }
    intros _. apply rn_bind; [apply rn_HistogramVec_GetMetricWith|].
    intros [m|]; [by apply rn_trace|apply rn_failed].
Qed.

Lemma regs_recordSummary opt value os :
  family_registrations (snd (recordSummary c ctx opt value os kvs w))
  = family_registrations w
    ++ match summary w !! Name opt with
       | Some _ => []
       | None => [OfSummaryVec (length (summaryVecs w))]
       end.
Proof.
  unfold recordSummary. rewrite (bind_eq _ _ _ _ _ (tags_eq ctx kvs w)).
  eapply regs_bind_after.
  - destruct (summary w !! _) as [e|] eqn:Hc.
    + erewrite getSummary_hit by exact Hc. cbn [snd]. by rewrite app_nil_r.
    + erewrite getSummary_miss by exact Hc. cbn [snd].
      by rewrite regs_register_vec.
  - intros v. apply rn_bind.
    { destruct (negb _); [apply rn_failed|apply rn_ret]. }
    intros _. apply rn_bind; [apply rn_SummaryVec_GetMetricWith|].
    intros [m|]; [by apply rn_trace|apply rn_failed].
Qed.

End Registration.

(** X14: a recording call hands a family to the registry exactly when the
    name is not in the cache of its kind, and then exactly one, the
    candidate it has just built; a call on a name that is in the cache
    registers no family, whether its labels are accepted or refused and
    whether or not its configuration differs from the stored one.  This
    holds in every state, for counters, gauges, histograms and
    summaries. *)
Theorem families_are_registered_at_first_use_only :
  forall c ctx kvs w name desc value opt bs os,
    family_registrations (snd (RecordN c ctx name desc value kvs w))
    = family_registrations w
      ++ match counter w !! buildFQName c name (Names.Counter (names c)) with
         | Some _ => []
         | None => [OfCounterVec (length (counterVecs w))]
         end
    /\ family_registrations (snd (Store c ctx name desc value kvs w))
       = family_registrations w
         ++ match gauge w !! buildFQName c name (Names.Gauge (names c)) with
            | Some _ => []
            | None => [OfGaugeVec (length (gaugeVecs w))]
            end
    /\ family_registrations (snd (recordHistogram c ctx opt value bs kvs w))
       = family_registrations w
         ++ match histogram w !! Name opt with
            | Some _ => []
            | None => [OfHistogramVec (length (histogramVecs w))]
            end
    /\ family_registrations (snd (recordSummary c ctx opt value os kvs w))
       = family_registrations w
         ++ match summary w !! Name opt with
            | Some _ => []
            | None => [OfSummaryVec (length (summaryVecs w))]
            end.
Proof.
  intros c ctx kvs w name desc value opt bs os.
  split; [apply regs_RecordN|]. split; [apply regs_Store|].
  split; [apply regs_recordHistogram | apply regs_recordSummary].
Qed.

(** ** Empty bucket lists *)


